(** * NOAA collection scraper: registry reconciliation, conditional fetch,
      merge and orchestration

    A shallow embedding of
      - [noaa_collection_scraper/url_scraper.py]   (crawler and registry sync),
      - [noaa_collection_scraper/metadata_scraper.py] (conditional fetch, store
        update, output-table merge), and the script [metadata_scraper.py],
      - [noaa_collection_scraper/osim_meta.py]      (enrichment pass),
      - [cleanup_artifacts.py]                      (retention cleanup),
      - [pipeline_runner.py]                        (stage orchestration),
    together with the properties the specification states about them.

    Conventions.  The SQLite table [etags] is a finite map from URL to row.
    Python sets are [gset string]; the order in which Python iterates a set is
    not determined by its contents, so it is a parameter [set_iter] of the
    code that iterates one.  Python dictionaries with optional keys become
    records with [option] fields ([None] = key absent).  Whatever the program
    obtains from outside (HTTP responses, the XML parser, the clock, child
    processes, the completion order of concurrent workers) is a section
    variable of the code that uses it. *)

From Stdlib Require Import ZArith Ascii.
From stdpp Require Import gmap strings list fin_maps sorting pretty.

#[local] Set Warnings "-clear-no-such-hyp".

Local Open Scope Z_scope.

(** ** Python string methods used by the sources *)

Module Py.

(** [sub in s] *)
Fixpoint contains (sub s : string) : bool :=
  String.prefix sub s ||
  match s with
  | EmptyString => false
  | String _ s' => contains sub s'
  end.

(** [s.startswith(p)] *)
Definition startswith (s p : string) : bool := String.prefix p s.

(** [s.endswith(suf)] *)
Fixpoint endswith (s suf : string) : bool :=
  String.eqb s suf ||
  match s with
  | EmptyString => false
  | String _ s' => endswith s' suf
  end.

Definition lower_ascii (c : ascii) : ascii :=
  let n := nat_of_ascii c in
  if ((65 <=? n) && (n <=? 90))%nat then ascii_of_nat (n + 32) else c.

(** [s.lower()]; bytes outside [A-Z] are left alone, which is all the
    [endswith] tests below can observe. *)
Fixpoint lower (s : string) : string :=
  match s with
  | EmptyString => EmptyString
  | String c s' => String (lower_ascii c) (lower s')
  end.

Fixpoint lstrip (c : ascii) (s : string) : string :=
  match s with
  | EmptyString => EmptyString
  | String a s' => if Ascii.eqb a c then lstrip c s' else s
  end.

(** [s.strip(c)] for a one-character argument *)
Definition strip (c : ascii) (s : string) : string :=
  String.rev (lstrip c (String.rev (lstrip c s))).

(** Truth value of an optional string: [None] and the empty string are false. *)
Definition truthy (o : option string) : bool :=
  match o with
  | Some (String _ _) => true
  | _ => false
  end.

(** [sorted] on strings: code-point order, which is [String.le] on the byte
    representation. *)
Definition sorted (l : list string) : list string := merge_sort String.le l.

End Py.

(** ** The change-indicator store: table [etags] of [db_utils.init_schema] *)

Module Store.

(** One row of [etags]: [etag TEXT], [last_checked TIMESTAMP],
    [deleted INTEGER] (0 = active, 1 = deleted).  SQL NULL is [None]. *)
Record row := Row {
  etag : option string;
  last_checked : option string;
  deleted : Z
}.

#[global] Instance row_eq_dec : EqDecision row.
Proof. solve_decision. Defined.

(** [url TEXT PRIMARY KEY]: at most one row per URL. *)
Abbreviation db := (gmap string row).

(** [INSERT OR IGNORE INTO etags (url, etag, last_checked, deleted)
     VALUES (?, NULL, NULL, 0)] *)
Definition insert_or_ignore (url : string) (d : db) : db :=
  match d !! url with
  | Some _ => d
  | None => <[url := Row None None 0]> d
  end.

(** [UPDATE etags SET deleted=? WHERE url=?] *)
Definition set_deleted (flag : Z) (url : string) (d : db) : db :=
  alter (λ r, Row (etag r) (last_checked r) flag) url d.

(** [UPDATE etags SET etag=?, last_checked=? WHERE url=?] *)
Definition set_etag (e : option string) (now : string) (url : string) (d : db) : db :=
  alter (λ r, Row e (Some now) (deleted r)) url d.

(** [SELECT url, deleted FROM etags] read into a dict. *)
Definition select_url_deleted (d : db) : gmap string Z := deleted <$> d.

(** [load_active_etags]: [SELECT url, etag FROM etags WHERE deleted=0] read
    into a dict. *)
Definition load_active_etags (d : db) : gmap string (option string) :=
  etag <$> filter (λ kv, deleted kv.2 = 0) d.

End Store.

(** ** [url_scraper.py] *)

Module UrlScraper.
Import Store.

(** *** The crawler's [worker] *)

(** Crawl state: the module globals [seen_urls], [waf_list] and [queue]. *)
Record crawl := Crawl {
  seen_urls : gset string;
  waf_list : list string;
  queue : list string
}.

(** [if "/iso_u/" in url or "/templates/" in url or "/DART/fgdc/xml" in url] *)
Definition skipped (url : string) : bool :=
  Py.contains "/iso_u/" url || Py.contains "/templates/" url
  || Py.contains "/DART/fgdc/xml" url.

(** [if "iso/" in url and not url.lower().endswith((".xml", "/xml/"))] *)
Definition rewrite_applies (url : string) : bool :=
  Py.contains "iso/" url
  && negb (Py.endswith (Py.lower url) ".xml" || Py.endswith (Py.lower url) "/xml/").

Section worker.
(** [urllib.parse.urljoin]. *)
Variable urljoin : string → string → string.
(** The [href] attributes of the [<a>] elements of the page [fetch_html]
    returns for a URL, [None] for an element without one; the empty list when
    [fetch_html] returns the empty string or the page does not parse. *)
Variable hrefs : string → list (option string).

(** Lines 103 to 107: the URL the worker goes on with. *)
Definition redirect (url : string) : string :=
  if rewrite_applies url
  then urljoin (if Py.endswith url "/" then url else url +:+ "/") "xml/"
  else url.

(** [if href and not href.startswith("?")] *)
Definition followed (href : option string) : option string :=
  match href with
  | Some h => if Py.truthy (Some h) && negb (Py.startswith h "?") then Some h else None
  | None => None
  end.

(** One iteration of the [while True] loop of [worker] on the URL at the head
    of the queue; [None] when the queue is empty (the worker waits). *)
Definition worker_step (c : crawl) : option crawl :=
  match queue c with
  | [] => None
  | url :: q =>
      if decide (url ∈ seen_urls c) then Some (Crawl (seen_urls c) (waf_list c) q)
      else
        let seen := {[url]} ∪ seen_urls c in
        if skipped url then Some (Crawl seen (waf_list c) q)
        else
          let url := redirect url in
          if Py.endswith (Py.lower url) ".xml"
          then Some (Crawl seen (waf_list c ++ [url]) q)
          else
            let links := (λ h, urljoin url h) <$> omap followed (hrefs url) in
            Some (Crawl seen (waf_list c)
                    (q ++ filter (λ full_url, full_url ∉ seen) links))
  end.

End worker.

(** *** [urllib.parse.urljoin] on plain [http] URLs

    [urljoin(base, url)] where [base] is [http://] or [https://] followed by
    a host and a path, without query, fragment, parameters or brackets, and
    [url] is a relative reference that is a path.  Both are split by
    [urlparse] into scheme, host and path alone then, and the code of
    [urljoin] comes down to its work on the path segments. *)

(** [s.split("/")] and ["/".join(parts)] *)
Fixpoint split_slash (s : string) : list string :=
  match s with
  | EmptyString => [EmptyString]
  | String a s' =>
      if Ascii.eqb a "/" then EmptyString :: split_slash s'
      else match split_slash s' with
           | part :: parts => String a part :: parts
           | [] => [String a EmptyString]
           end
  end.

Fixpoint join_slash (parts : list string) : string :=
  match parts with
  | [] => EmptyString
  | part :: rest =>
      match rest with
      | [] => part
      | _ :: _ => part +:+ "/" +:+ join_slash rest
      end
  end.

(** A character [urlparse] leaves where it is: printable ASCII other than
    [?], [#], [;] and the brackets. *)
Definition plain (a : ascii) : bool :=
  (33 <=? nat_of_ascii a)%nat && (nat_of_ascii a <=? 126)%nat
  && negb (Ascii.eqb a "?" || Ascii.eqb a "#" || Ascii.eqb a ";"
           || Ascii.eqb a "[" || Ascii.eqb a "]").

Fixpoint all_chars (test : ascii → bool) (s : string) : bool :=
  match s with
  | EmptyString => true
  | String a s' => test a && all_chars test s'
  end.

Fixpoint skip (n : nat) (s : string) : string :=
  match n, s with
  | S n', String _ s' => skip n' s'
  | _, _ => s
  end.

(** The scheme with its [://], and what follows it. *)
Definition after_scheme (base : string) : option (string * string) :=
  if String.prefix "https://" base then Some ("https://", skip 8 base)
  else if String.prefix "http://" base then Some ("http://", skip 7 base)
  else None.

Definition is_slash (a : ascii) : bool := Ascii.eqb a "/".

(** The part of a string before the first character that [stop] holds of,
    and the part from that character on. *)
Fixpoint upto (stop : ascii → bool) (s : string) : string :=
  match s with
  | EmptyString => EmptyString
  | String a s' => if stop a then EmptyString else String a (upto stop s')
  end.

Fixpoint from (stop : ascii → bool) (s : string) : string :=
  match s with
  | EmptyString => EmptyString
  | String a s' => if stop a then s else from stop s'
  end.

(** A relative reference that is a path: not empty, of plain characters,
    without colon, and not starting with two slashes. *)
Definition reference (url : string) : bool :=
  negb (String.eqb url "")
  && all_chars (λ a, plain a && negb (Ascii.eqb a ":")) url
  && negb (String.prefix "//" url).

(** [segments[1:-1] = filter(None, segments[1:-1])] *)
Definition filter_middle (segments : list string) : list string :=
  match segments with
  | [] => []
  | first :: rest =>
      match reverse rest with
      | [] => [first]
      | final :: middle =>
          first :: filter (λ seg, seg ≠ "") (reverse middle) ++ [final]
      end
  end.

(** The loop [for seg in segments] over [resolved_path]. *)
Fixpoint resolve (segments resolved_path : list string) : list string :=
  match segments with
  | [] => resolved_path
  | seg :: rest =>
      if String.eqb seg ".."
      then resolve rest (take (length resolved_path - 1) resolved_path)
      else if String.eqb seg "." then resolve rest resolved_path
      else resolve rest (resolved_path ++ [seg])
  end.

Definition is_dots (seg : string) : bool :=
  String.eqb seg "." || String.eqb seg "..".

Definition urljoin_http (base url : string) : option string :=
  match after_scheme base with
  | None => None
  | Some (scheme, rest) =>
      let netloc := upto is_slash rest in
      let bpath := from is_slash rest in
      if all_chars plain rest && negb (String.eqb netloc "") && reference url
      then
        let base_parts := split_slash bpath in
        let base_parts :=
          if String.eqb (default "" (last base_parts)) "" then base_parts
          else take (length base_parts - 1) base_parts in
        let segments :=
          if String.prefix "/" url then split_slash url
          else filter_middle (base_parts ++ split_slash url) in
        let resolved_path := resolve segments [] in
        let resolved_path :=
          if is_dots (default "" (last segments)) then resolved_path ++ [""]
          else resolved_path in
        let path := join_slash resolved_path in
        let path := if String.eqb path "" then "/" else path in
        (* [urlunsplit] *)
        let path := if String.prefix "/" path then path else "/" +:+ path in
        Some (scheme +:+ netloc +:+ path)
      else None
  end.

(** A [urljoin] that does this on plain [http] URLs. *)
Definition joins (urljoin : string → string → string) : Prop :=
  ∀ base url joined, urljoin_http base url = Some joined → urljoin base url = joined.

(** A plain [http] URL of a directory: it ends in a slash, and no segment of
    its path is empty, [.] or [..]. *)
Definition proper (seg : string) : bool :=
  negb (String.eqb seg "" || is_dots seg).

Definition directory (url : string) : bool :=
  match after_scheme url with
  | None => false
  | Some (_, rest) =>
      all_chars plain rest && negb (String.eqb (upto is_slash rest) "")
      && match split_slash (from is_slash rest) with
         | first :: parts =>
             String.eqb first ""
             && match reverse parts with
                | final :: middle => String.eqb final "" && forallb proper middle
                | [] => false
                end
         | [] => false
         end
  end.

(** [sub] occurs in [s]; [suf] ends [s]. *)
Definition occurs_in (sub s : string) : Prop := ∃ p q, s = p +:+ sub +:+ q.
Definition ends (s suf : string) : Prop := ∃ p, s = p +:+ suf.

(** *** [update_database_from_waf] *)

(** The tuple it returns. *)
Definition changes : Type := list string * list string * list string.
Definition added (c : changes) : list string := c.1.1.
Definition reactivated (c : changes) : list string := c.1.2.
Definition deactivated (c : changes) : list string := c.2.

Section sync.
(** Iteration order of a Python set. *)
Variable set_iter : gset string → list string.

(** The loop [for url in waf_urls & db_urls: if db_records[url] == 1: ...],
    threading the list [reactivated] and the table. *)
Fixpoint reactivate_loop (db_records : gmap string Z) (urls : list string)
    (acc : list string) (d : db) : list string * db :=
  match urls with
  | [] => (acc, d)
  | url :: rest =>
      if decide (db_records !! url = Some 1)
      then reactivate_loop db_records rest (acc ++ [url]) (set_deleted 0 url d)
      else reactivate_loop db_records rest acc d
  end.

Definition update_database_from_waf (current_urls : list string) (d : db)
    : db * changes :=
  let db_records := select_url_deleted d in
  let db_urls : gset string := dom db_records in
  let waf_urls : gset string := list_to_set current_urls in
  let added := Py.sorted (set_iter (waf_urls ∖ db_urls)) in
  let deleted := Py.sorted (set_iter (db_urls ∖ waf_urls)) in
  let d1 := foldl (λ d url, insert_or_ignore url d) d added in
  let '(reactivated, d2) :=
    reactivate_loop db_records (set_iter (waf_urls ∩ db_urls)) [] d1 in
  let d3 := foldl (λ d url, set_deleted 1 url d) d2 deleted in
  (d3, (added, reactivated, deleted)).
End sync.

(** What every iteration order satisfies: it enumerates the set, each
    element once. *)
Definition enumerates (set_iter : gset string → list string) : Prop :=
  ∀ X, set_iter X ≡ₚ elements X.

(** Two iteration orders. *)
Definition iter_ascending (X : gset string) : list string := Py.sorted (elements X).
Definition iter_descending (X : gset string) : list string :=
  reverse (Py.sorted (elements X)).

End UrlScraper.

(** ** [metadata_scraper.py] *)

Module MetadataScraper.
Import Store.

(** [Config.RETRIES] and [Config.HEADERS] *)
Definition RETRIES : nat := 4.
Definition HEADERS : gmap string string :=
  {[ "User-Agent" := "TMF-Collection-Tool/2.0" ]}.

(** *** Extraction *)

(** The dict [extract_metadata] returns has one of two shapes: the seven
    named fields, or [source] and [error] only. *)
Inductive metadata :=
| Fields (source : string)
    (uuid fileIdentifier title edition doi dateStamp : option string)
| Invalid (source : string) (error : string).

(** Its items, in insertion order; a value [None] is Python's [None]. *)
Definition items (m : metadata) : list (string * option string) :=
  match m with
  | Fields s u f t e d ds =>
      [("source", Some s); ("uuid", u); ("fileIdentifier", f); ("title", t);
       ("edition", e); ("doi", d); ("dateStamp", ds)]
  | Invalid s e => [("source", Some s); ("error", Some e)]
  end.

(** [m.get(k)] with the outer [None] for an absent key. *)
Definition get (m : metadata) (k : string) : option (option string) :=
  (list_to_map (items m) : gmap string (option string)) !! k.

Definition source_of (m : metadata) : string :=
  match m with
  | Fields s _ _ _ _ _ _ => s
  | Invalid s _ => s
  end.

(** *** Responses, outcomes and the request log *)

(** What one [session.get] amounts to for [fetch_conditional]: it raises, or
    a response arrives with a status, possibly an [ETag] header, and a body
    whose [read] yields bytes or raises in turn. *)
Record response := Response {
  status : Z;
  etag_header : option string;
  read : list Byte.byte + string
}.

Inductive attempt_outcome :=
| Raised (e : string)
| Responded (resp : response).

(** The dict [fetch_conditional] returns; [None] is an absent key, except in
    [r_etag], which is always present and holds Python's [None]. *)
Record result := Result {
  r_url : string;
  r_etag : option string;
  r_changed : option bool;
  r_first_check : option bool;
  r_metadata : option metadata;
  r_error : option string
}.

Inductive event :=
| Get (url : string) (headers : gmap string string)
| Sleep (attempt : nat).

Definition is_get_of (url : string) (ev : event) : bool :=
  match ev with
  | Get u _ => bool_decide (u = url)
  | Sleep _ => false
  end.

(** Number of requests a log holds for a URL. *)
Definition requests_to (url : string) (log : list event) : nat :=
  length (filter (λ ev, is_get_of url ev = true) log).

(** *** The output table *)

(** A row of the Parquet table, given by its non-null cells.  Column types
    and the pandas index are not represented. *)
Abbreviation table_row := (gmap string string).

(** [pa.Table.from_pylist]: the columns are the keys of the first dict; a
    later dict contributes its values under these keys only. *)
Definition row_of (names : list string) (m : metadata) : table_row :=
  list_to_map (omap (λ n, (n,.) <$> mjoin (get m n)) names).

Definition from_pylist (mapping : list metadata) : list table_row :=
  match mapping with
  | [] => []
  | first :: _ => row_of (items first).*1 <$> mapping
  end.

(** The cell [drop_duplicates(subset=["source"])] compares; null cells
    compare equal. *)
Definition key (r : table_row) : option string := r !! "source".

(** [DataFrame.drop_duplicates(subset=["source"], keep="last")] *)
Fixpoint drop_duplicates_last (rows : list table_row) : list table_row :=
  match rows with
  | [] => []
  | r :: rest =>
      if bool_decide (key r ∈ key <$> rest)
      then drop_duplicates_last rest
      else r :: drop_duplicates_last rest
  end.

(** [concat_tables([existing, new_table], promote=True)] followed by
    [drop_duplicates]: lines 196 to 198. *)
Definition merge (existing : list table_row) (new_records : list metadata)
    : list table_row :=
  drop_duplicates_last (existing ++ from_pylist new_records).

(** Lines 192 to 204 on the Parquet file ([None]: no file). *)
Definition save (new_records : list metadata) (parquet : option (list table_row))
    : option (list table_row) :=
  match new_records with
  | [] => parquet
  | _ :: _ =>
      match parquet with
      | Some existing => Some (merge existing new_records)
      | None => Some (from_pylist new_records)
      end
  end.

(** The state [main] works on. *)
Record world := World {
  etags : db;
  parquet : option (list table_row)
}.

(** The counts [main] prints. *)
Record summary := Summary {
  total_checked : nat;
  n_changed : nat;
  n_unchanged : nat;
  n_errors : nat
}.

(** What [main] obtains from outside. *)
Class Environment := {
  (** [lxml]: the parser (a tree, or the message of the exception), attribute
      lookup on the root, XPath evaluation to text nodes, and [str.strip]. *)
  xml : Type;
  etree_fromstring : list Byte.byte → xml + string;
  attrib_get : xml → string → option string;
  xpath : xml → string → list string;
  str_strip : string → string;
  (** The network: the outcome of the [attempt]-th [session.get] for a URL
      with the given request headers. *)
  session_get : string → gmap string string → nat → attempt_outcome;
  (** The order in which the workers of [run_batched] complete the items. *)
  completion : list (string * option string) → list (string * option string);
  (** [datetime.now().isoformat()] at the [k]-th store update of the run. *)
  now : nat → string
}.

Section run.
Context `{Environment}.

Definition text (tree : xml) (path : string) : option string :=
  match xpath tree path with
  | [] => None
  | r :: _ => Some (str_strip r)
  end.

Definition extract_metadata (xml_bytes : list Byte.byte) (url : string) : metadata :=
  match etree_fromstring xml_bytes with
  | inr e => Invalid url ("Invalid XML: " +:+ e)
  | inl tree =>
      Fields url
        (attrib_get tree "uuid")
        (text tree ("//gmd:fileIdentifier/gco:CharacterString/text() | "
                    +:+ "//gmd:fileIdentifier/gmx:Anchor/text()"))
        (text tree "//gmd:identificationInfo//gmd:citation//gmd:title/*/text()")
        (text tree "//gmd:identificationInfo//gmd:citation//gmd:edition/gco:CharacterString/text()")
        (text tree "//gmd:identifier//gmx:Anchor[contains(@xlink:href, 'doi.org')]/text()")
        (text tree "//gmd:dateStamp/gco:DateTime/text() | //gmd:dateStamp/gco:Date/text()")
  end.

Definition quote : string := String "034" EmptyString.

(** [headers = HEADERS.copy(); if etag: headers["If-None-Match"] = ...] *)
Definition request_headers (etag : option string) : gmap string string :=
  match etag with
  | Some e =>
      if Py.truthy etag then <["If-None-Match" := quote +:+ e +:+ quote]> HEADERS
      else HEADERS
  | None => HEADERS
  end.

(** [new_etag = resp.headers.get("ETag"); if new_etag: new_etag = new_etag.strip(...)] *)
Definition new_etag_of (resp : response) : option string :=
  match etag_header resp with
  | Some h => if Py.truthy (Some h) then Some (Py.strip "034" h) else Some h
  | None => None
  end.

(** The requests and sleeps of attempts that raise. *)
Definition raised_log (url : string) (headers : gmap string string)
    (range : list nat) : list event :=
  range ≫= λ j, [Get url headers; Sleep j].

(** The loop [for attempt in range(1, RETRIES + 1)] over the attempts still
    to make, and the return after it; with the requests and sleeps made. *)
Fixpoint attempt_loop (url : string) (etag : option string)
    (headers : gmap string string) (range : list nat) : result * list event :=
  match range with
  | [] =>
      (Result url etag None None None (Some "Failed after retries"), [])
  | attempt :: rest =>
      let again :=
        let '(r, log) := attempt_loop url etag headers rest in
        (r, Get url headers :: Sleep attempt :: log) in
      match session_get url headers attempt with
      | Raised _ => again
      | Responded resp =>
          if status resp =? 304 then
            (Result url etag (Some false) (Some (bool_decide (etag = None))) None None,
             [Get url headers])
          else if 400 <=? status resp then
            (Result url etag (Some false) None None
               (Some ("HTTP " +:+ pretty (status resp))),
             [Get url headers])
          else
            match read resp with
            | inr _ => again
            | inl xml_bytes =>
                (Result url (new_etag_of resp) (Some true) None
                   (Some (extract_metadata xml_bytes url)) None,
                 [Get url headers])
            end
      end
  end.

Definition fetch_conditional (url : string) (etag : option string)
    : result * list event :=
  attempt_loop url etag (request_headers etag) (seq 1 RETRIES).

(** The fetch of [url] is answered at attempt [k] by the response [resp]:
    every [session.get] before it raises. *)
Definition answered (url : string) (etag : option string) (k : nat)
    (resp : response) : Prop :=
  (1 ≤ k ≤ RETRIES)%nat
  ∧ (∀ j, (1 ≤ j < k)%nat →
       ∃ e, session_get url (request_headers etag) j = Raised e)
  ∧ session_get url (request_headers etag) k = Responded resp.

(** Every [session.get] of the fetch of [url] raises. *)
Definition unreachable (url : string) (etag : option string) : Prop :=
  ∀ j, (1 ≤ j ≤ RETRIES)%nat →
    ∃ e, session_get url (request_headers etag) j = Raised e.

(** [run_batched]: one [fetch_conditional] per item of [etag_map], results in
    completion order. *)
Definition run_batched_log (etag_map : gmap string (option string))
    : list (result * list event) :=
  (λ item, fetch_conditional item.1 item.2) <$> completion (map_to_list etag_map).

Definition run_batched (etag_map : gmap string (option string)) : list result :=
  (run_batched_log etag_map).*1.

(** [update_etag_record(url, etag)] at clock reading [k] *)
Definition update_etag_record (k : nat) (url : string) (etag : option string)
    (d : db) : db :=
  set_etag etag (now k) url d.

(** [for r in changed + unchanged: update_etag_record(r["url"], r.get("etag"))] *)
Fixpoint update_loop (k : nat) (rs : list result) (d : db) : db :=
  match rs with
  | [] => d
  | r :: rest =>
      update_loop (S k) rest (update_etag_record k (r_url r) (r_etag r) d)
  end.

Definition changed_of (results : list result) : list result :=
  filter (λ r, r_changed r = Some true) results.
Definition unchanged_of (results : list result) : list result :=
  filter (λ r, r_changed r = Some false) results.
Definition errors_of (results : list result) : list result :=
  filter (λ r, is_Some (r_error r)) results.
Definition new_records_of (results : list result) : list metadata :=
  omap r_metadata (changed_of results).

(** [main], from [load_active_etags] on. *)
Definition main (w : world) : world * summary :=
  let etag_map := load_active_etags (etags w) in
  let results := run_batched etag_map in
  let changed := changed_of results in
  let unchanged := unchanged_of results in
  let errors := errors_of results in
  let d := update_loop 0 (changed ++ unchanged) (etags w) in
  let new_records := new_records_of results in
  (World d (save new_records (parquet w)),
   Summary (length results) (length changed) (length unchanged) (length errors)).

End run.

(** What every completion order satisfies: it is an order of the items. *)
Definition reorders `{Environment} : Prop :=
  ∀ items, completion items ≡ₚ items.

End MetadataScraper.

(** ** [pipeline_runner.py] *)

Module PipelineRunner.

Definition STEPS : list string :=
  ["url_scraper"; "metadata_scraper"; "osim_meta"; "cleanup_artifacts"].

Section runner.
(** The machine the child processes act on, and [subprocess.run] on the
    module run with [python -m]: a return code, or an exception. *)
Variable machine : Type.
Variable subprocess_run : string → machine → (Z + string) * machine.

(** [run_step]; the elapsed time is left out. *)
Definition run_step (module_name : string) (m : machine) : Z * machine :=
  match subprocess_run ("noaa_collection_scraper." +:+ module_name) m with
  | (inl returncode, m') => (returncode, m')
  | (inr _, m') => (1, m')
  end.

(** The loop [for step in STEPS], with the steps run so far in [timings]. *)
Fixpoint steps_loop (steps : list string) (failures timings : list string)
    (m : machine) : list string * list string * machine :=
  match steps with
  | [] => (failures, timings, m)
  | step :: rest =>
      let '(rc, m') := run_step step m in
      let timings := timings ++ [step] in
      if decide (rc ≠ 0) then steps_loop rest (failures ++ [step]) timings m'
      else steps_loop rest failures timings m'
  end.

(** The return codes [run_step] hands to the loop, in the order of the steps. *)
Fixpoint return_codes (steps : list string) (m : machine) : list Z :=
  match steps with
  | [] => []
  | step :: rest => (run_step step m).1 :: return_codes rest (run_step step m).2
  end.

(** [main]: the exit status of the process and the steps it ran. *)
Definition main (m : machine) : Z * list string * machine :=
  let '(failures, timings, m') := steps_loop STEPS [] [] m in
  match failures with
  | [] => (0, timings, m')
  | _ :: _ => (1, timings, m')
  end.

End runner.

End PipelineRunner.

(** ** A concrete environment, for evaluating the model *)

Module Scenario.
Import Store MetadataScraper.

(** A parser that accepts every non-empty body and finds no field in it. *)
Definition parse (body : list Byte.byte) : unit + string :=
  match body with
  | [] => inr "Document is empty"
  | _ :: _ => inl tt
  end.
Definition no_attrib (_ : unit) (_ : string) : option string := None.
Definition no_nodes (_ : unit) (_ : string) : list string := [].
Definition keep (s : string) : string := s.

Definition body : list Byte.byte := [Byte.x3c; Byte.x61; Byte.x2f; Byte.x3e].

(** A server: document [A] is served with indicator [e1], [B] is unchanged,
    [E] is refused with 404, [F] is unreachable, [N] is served without an
    indicator, [X] is served with an empty body. *)
Definition server (url : string) (headers : gmap string string) (attempt : nat)
    : attempt_outcome :=
  if String.eqb url "A" then
    Responded (Response 200 (Some (String "034" "e1" +:+ String "034" "")) (inl body))
  else if String.eqb url "B" then Responded (Response 304 None (inl []))
  else if String.eqb url "E" then Responded (Response 404 None (inl []))
  else if String.eqb url "N" then Responded (Response 200 None (inl body))
  else if String.eqb url "X" then Responded (Response 200 (Some "e9") (inl []))
  else Raised "Cannot connect to host".

Definition in_order (items : list (string * option string)) := items.
Definition clock (k : nat) : string := "t" +:+ pretty k.

#[local] Instance environment : Environment := {|
  xml := unit;
  etree_fromstring := parse;
  attrib_get := no_attrib;
  xpath := no_nodes;
  str_strip := keep;
  session_get := server;
  completion := in_order;
  now := clock
|}.

Definition fetch := fetch_conditional (H := environment).
Definition run := main (H := environment).

(** The registry of the specification's scenario, and one with two inactive
    rows. *)
Definition registry : db :=
  {[ "A" := Row None None 0; "B" := Row (Some "x1") None 0 ]}.
Definition inactive_pair : db :=
  {[ "A" := Row None None 1; "B" := Row (Some "x1") None 1 ]}.

(** A world whose registry tracks the documents of [server], and [D], which
    is inactive; there is no Parquet file yet. *)
Definition tracked : world :=
  World {[ "A" := Row None None 0; "B" := Row (Some "x1") None 0;
           "E" := Row (Some "x2") None 0; "F" := Row (Some "x3") (Some "old") 0;
           "N" := Row (Some "x4") None 0; "X" := Row None None 0;
           "D" := Row None None 1 ]} None.

(** The resolver of the scenarios: [urljoin] as [urljoin_http] gives it; on
    other arguments, which the scenarios do not pass, the reference. *)
Definition urljoin (base url : string) : string :=
  default url (UrlScraper.urljoin_http base url).

(** Child processes of which the crawl exits with status 1 and the others
    with status 0. *)
Definition crawl_fails (module_name : string) (m : unit) : (Z + string) * unit :=
  if String.eqb module_name "noaa_collection_scraper.url_scraper"
  then (inl 1, m) else (inl 0, m).

End Scenario.

(** ** [url_scraper.py]: [fetch_html] and the crawl as a whole *)

Module Crawler.
Import Store UrlScraper.

(** [Config.WAF_BASE_URL], [Config.RETRIES] and
    [Config.MAX_CONCURRENT_REQUESTS], the number of workers *)
Definition BASE_URL : string := "https://data.noaa.gov/waf/".
Definition RETRIES : nat := 4.
Definition MAX_CONCURRENT_REQUESTS : nat := 15.

(** An exception raised inside the [try] of [fetch_html]: one that its
    [except] clause names ([aiohttp.ClientError], [asyncio.TimeoutError]),
    or any other, such as the [UnicodeDecodeError] of [resp.text()]. *)
Inductive raised :=
| ClientError (e : string)
| OtherError (e : string).

(** What one [session.get] amounts to for [fetch_html]: it raises, or a
    response arrives with a status and a text whose reading can raise in
    turn. *)
Inductive page_outcome :=
| PageRaised (e : raised)
| PageResponded (status : Z) (text : string + raised).

Inductive crawl_event :=
| Fetch (url : string)
| Wait (attempt : nat).

Definition is_fetch (ev : crawl_event) : bool :=
  match ev with
  | Fetch _ => true
  | Wait _ => false
  end.

(** Number of requests, and of sleeps, in a log. *)
Definition fetches (log : list crawl_event) : nat :=
  length (filter (λ ev, is_fetch ev = true) log).
Definition waits (log : list crawl_event) : nat :=
  length (filter (λ ev, is_fetch ev = false) log).

Section crawl.
(** The network: the outcome of the [attempt]-th [session.get] for a URL. *)
Variable page_get : string → nat → page_outcome.
(** [lxml.html]: the [href] attributes of the [<a>] elements of a page, [None]
    for an element without one; the empty list for a page that does not
    parse. *)
Variable anchors : string → list (option string).
Variable urljoin : string → string → string.
Variable set_iter : gset string → list string.

(** The loop [for attempt in range(1, RETRIES + 1)] of [fetch_html] over the
    attempts still to make, with the requests and sleeps made: the string
    returned, or the exception that leaves the function. *)
Fixpoint fetch_loop (url : string) (range : list nat)
    : (string + string) * list crawl_event :=
  match range with
  | [] => (inl "", [])
  | attempt :: rest =>
      let failed :=
        if (attempt <? RETRIES)%nat then
          let '(r, log) := fetch_loop url rest in
          (r, Fetch url :: Wait attempt :: log)
        else (inl "", [Fetch url]) in
      match page_get url attempt with
      | PageRaised (ClientError _) => failed
      | PageRaised (OtherError e) => (inr e, [Fetch url])
      | PageResponded status text =>
          if decide (status ≠ 200) then (inl "", [Fetch url])
          else match text with
               | inl t => (inl t, [Fetch url])
               | inr (ClientError _) => failed
               | inr (OtherError e) => (inr e, [Fetch url])
               end
      end
  end.

Definition fetch_html (url : string) : (string + string) * list crawl_event :=
  fetch_loop url (seq 1 RETRIES).

(** An attempt whose exception leaves [fetch_html]. *)
Definition escapes (url : string) (k : nat) (e : string) : Prop :=
  page_get url k = PageRaised (OtherError e)
  ∨ page_get url k = PageResponded 200 (inr (OtherError e)).

(** What [worker] enqueues from: [if not html_text: continue], then the
    anchors of the parsed page; nothing when [fetch_html] raises. *)
Definition page_hrefs (url : string) : list (option string) :=
  match (fetch_html url).1 with
  | inl EmptyString => []
  | inl html_text => anchors html_text
  | inr _ => []
  end.

(** The listing the next iteration of [worker] fetches, if it fetches one. *)
Definition listing (c : crawl) : option string :=
  match queue c with
  | [] => None
  | url :: _ =>
      if decide (url ∈ seen_urls c) then None
      else if skipped url then None
      else
        let url := redirect urljoin url in
        if Py.endswith (Py.lower url) ".xml" then None else Some url
  end.

(** Whether the next iteration ends its worker: [fetch_html] raises, and
    nothing in [worker] catches it.  The URL is then in [seen_urls], and
    [queue.task_done()] is not called for it. *)
Definition dies (c : crawl) : bool :=
  match listing c with
  | Some url =>
      match (fetch_html url).1 with
      | inl _ => false
      | inr _ => true
      end
  | None => false
  end.

(** [n] iterations of the workers, one URL of the queue at a time, and the
    number of workers that have ended.  A worker waits when the queue is
    empty; when no worker is left, nothing is dequeued any more. *)
Fixpoint crawl_steps (n : nat) (c : crawl) (dead : nat) : crawl * nat :=
  match n with
  | O => (c, dead)
  | S n' =>
      if (dead <? MAX_CONCURRENT_REQUESTS)%nat then
        match worker_step urljoin page_hrefs c with
        | Some c' => crawl_steps n' c' (if dies c then S dead else dead)
        | None => (c, dead)
        end
      else (c, dead)
  end.

(** The module globals when [crawl_waf] has put [BASE_URL] on the queue. *)
Definition start : crawl := Crawl ∅ [] [BASE_URL].

(** [crawl_waf], for a crawl in which [queue.join()] returns within [fuel]
    iterations ([None] otherwise): the queue is empty and [task_done] was
    called for every URL, that is, no worker has ended.  The table after
    [update_database_from_waf], the changes logged, and the sorted list
    returned. *)
Definition crawl_waf (fuel : nat) (d : db) : option (db * changes * list string) :=
  let '(c, dead) := crawl_steps fuel start 0 in
  match queue c, dead with
  | [], O =>
      let '(d', changes) := update_database_from_waf set_iter (waf_list c) d in
      Some (d', changes, Py.sorted (waf_list c))
  | _, _ => None
  end.

End crawl.

End Crawler.

(** ** [metadata_scraper.py]: the batches of [run_batched] *)

Module Batches.
Import MetadataScraper.

(** Line 34 *)
Definition BATCH_SIZE : nat := 4000.

(** [range(start, stop, step)] for a positive [step]; [fuel] bounds the
    number of elements. *)
Fixpoint range (fuel start stop step : nat) : list nat :=
  match fuel with
  | O => []
  | S fuel' =>
      if (start <? stop)%nat then start :: range fuel' (start + step) stop step
      else []
  end.

(** The slices [urls[start:start + size]] for [start] in
    [range(0, len(urls), size)]. *)
Definition slices {A : Type} (size : nat) (urls : list A) : list (list A) :=
  (λ start, take size (drop start urls)) <$> range (length urls) 0 (length urls) size.

(** [run_batched] on the list [urls] of the items of [etag_map], batch after
    batch: the results of a batch are appended in the order in which its
    workers complete them. *)
Definition run_batches `{Environment} (urls : list (string * option string))
    : list result :=
  mjoin ((λ batch, (λ item, (fetch_conditional item.1 item.2).1) <$> completion batch)
           <$> slices BATCH_SIZE urls).

End Batches.

(** ** [metadata_scraper.py], the script at the top of the repository *)

Module Script.
Import MetadataScraper.

Section fetch.
Context `{Environment}.

(** Its [fetch_conditional]: as the packaged one, with the key [first_check]
    in every outcome but that of an error status. *)
Fixpoint attempt_loop (url : string) (etag : option string)
    (headers : gmap string string) (range : list nat) : result * list event :=
  match range with
  | [] =>
      (Result url etag None (Some (bool_decide (etag = None))) None
         (Some "Failed after retries"), [])
  | attempt :: rest =>
      let again :=
        let '(r, log) := attempt_loop url etag headers rest in
        (r, Get url headers :: Sleep attempt :: log) in
      match session_get url headers attempt with
      | Raised _ => again
      | Responded resp =>
          if status resp =? 304 then
            (Result url etag (Some false) (Some (bool_decide (etag = None))) None None,
             [Get url headers])
          else if 400 <=? status resp then
            (Result url etag (Some false) None None
               (Some ("HTTP " +:+ pretty (status resp))),
             [Get url headers])
          else
            match read resp with
            | inr _ => again
            | inl xml_bytes =>
                (Result url (new_etag_of resp) (Some true)
                   (Some (bool_decide (etag = None)))
                   (Some (extract_metadata xml_bytes url)) None,
                 [Get url headers])
            end
      end
  end.

Definition fetch_conditional (url : string) (etag : option string)
    : result * list event :=
  attempt_loop url etag (request_headers etag) (seq 1 RETRIES).

(** [scrape_all]: the keys of [etag_map] in batches, each batch gathered in
    the order of its keys. *)
Definition scrape_all (size : nat) (urls : list string)
    (etag_map : gmap string (option string)) : list result :=
  mjoin ((λ batch, (λ u, (fetch_conditional u (mjoin (etag_map !! u))).1) <$> batch)
           <$> Batches.slices size urls).

End fetch.

(** An outcome without its [first_check] key. *)
Definition without_first_check (r : result) : result :=
  Result (r_url r) (r_etag r) (r_changed r) None (r_metadata r) (r_error r).

End Script.

(** ** [cleanup_artifacts.py] *)

Module Cleanup.

(** A directory entry: its name and modification time. *)
Record file := File {
  name : string;
  st_mtime : Z
}.

#[global] Instance file_eq_dec : EqDecision file.
Proof. solve_decision. Defined.

(** [KEEP_COUNTS], in the order of the dict. *)
Definition KEEP_COUNTS : list (string * nat) :=
  [("waf_list_*.json", 7%nat); ("*.log", 14%nat)].

(** Matching of a name against a pattern whose only wildcard is [*]. *)
Fixpoint fnmatch (pattern : string) : string → bool :=
  match pattern with
  | EmptyString => λ s, String.eqb s ""
  | String c pattern' =>
      if Ascii.eqb c "*" then
        fix star (s : string) : bool :=
          fnmatch pattern' s
          || match s with
             | EmptyString => false
             | String _ s' => star s'
             end
      else
        λ s, match s with
             | EmptyString => false
             | String a s' => Ascii.eqb a c && fnmatch pattern' s'
             end
  end.

(** [files.sort(key=lambda p: p.stat().st_mtime, reverse=True)]: newest
    first, files of equal time in the order they had. *)
Fixpoint insert_newest (f : file) (files : list file) : list file :=
  match files with
  | [] => [f]
  | g :: rest =>
      if st_mtime f <? st_mtime g then g :: insert_newest f rest
      else f :: files
  end.

Definition sort_newest_first (files : list file) : list file :=
  foldr insert_newest [] files.

(** [_glob_sorted] on the listing of the data directory, every entry of which
    can be [stat]ed. *)
Definition _glob_sorted (pattern : string) (directory : list file) : list file :=
  sort_newest_first (filter (λ f, fnmatch pattern (name f) = true) directory).

Section cleanup.
(** Whether [unlink] raises on the file of a name. *)
Variable unlink_raises : string → bool.

(** The body of the loop of [cleanup_old_files] for one pattern: the
    directory once the files of [files[keep:]] whose [unlink] succeeds are
    gone. *)
Definition delete_old (directory : list file) (entry : string * nat) : list file :=
  let files := _glob_sorted entry.1 directory in
  let to_delete := drop entry.2 files in
  filter (λ f, ¬ (name f ∈ name <$> to_delete ∧ unlink_raises (name f) = false))
    directory.

Definition cleanup_old_files (directory : list file) : list file :=
  foldl delete_old directory KEEP_COUNTS.

End cleanup.

End Cleanup.

(** ** [osim_meta.py] *)

Module OsimMeta.

(** [Config.OSIM_COLLECTION_SEARCH] up to the placeholder. *)
Definition OSIM_URL : string :=
  "https://data.noaa.gov/onestop/api/search/collection/".

(** A Python value in a cell of the table or in a response: [None], a
    string, a boolean, an integer, or a value of another type, given by its
    [str()]. *)
Inductive value :=
| VNone
| VStr (s : string)
| VBool (b : bool)
| VInt (z : Z)
| VOther (repr : string).

#[global] Instance value_eq_dec : EqDecision value.
Proof. solve_decision. Defined.

(** [str(u)] *)
Definition str (v : value) : string :=
  match v with
  | VNone => "None"
  | VStr s => s
  | VBool true => "True"
  | VBool false => "False"
  | VInt z => pretty z
  | VOther repr => repr
  end.

(** A decoded JSON body, as far as [check_in_osim] looks into it: an object
    with its member [meta], if it has one, or a value that is no object; and
    [meta] in turn, an object with its member [totalGranules], if it has
    one, or a value that is no object. *)
Inductive meta :=
| MetaOther
| MetaObject (totalGranules : option value).

Inductive json :=
| JsonOther
| JsonObject (meta : option meta).

(** [data.get("meta", {}).get("totalGranules")]: the value found, Python's
    [None] for an absent member; no value when [get] is called on what is no
    object, which raises [AttributeError]. *)
Definition total_granules (data : json) : option value :=
  match data with
  | JsonOther => None
  | JsonObject None => Some VNone
  | JsonObject (Some MetaOther) => None
  | JsonObject (Some (MetaObject granule_count)) => Some (default VNone granule_count)
  end.

(** An exception raised inside the [try] of [check_in_osim]: one that its
    [except] clause names ([aiohttp.ClientError], [asyncio.TimeoutError],
    [ValueError]), or any other. *)
Inductive raised :=
| Caught (e : string)
| Uncaught (e : string).

(** What one [session.get] amounts to for [check_in_osim]: it raises, or a
    response arrives with a status and a body that [resp.json()] decodes,
    unless it raises in turn. *)
Inductive osim_outcome :=
| OsimRaised (e : raised)
| OsimResponded (status : Z) (body : json + raised).

(** The exceptions that leave [main]: the two it raises itself, one that
    left a [check_in_osim], and one of writing the table. *)
Inductive failure :=
| FileNotFoundError
| ValueError
| CheckRaised
| WriteRaised (e : string).

(** The [gather] of the tasks that [main] awaits: the results in the order
    of the tasks, unless a task raises. *)
Fixpoint gather (tasks : list ((bool * value) + string))
    : option (list (bool * value)) :=
  match tasks with
  | [] => Some []
  | inl result :: rest => cons result <$> gather rest
  | inr _ :: _ => None
  end.

(** [data["in_osim"] = list(in_osim_vals); data["granule_count"] =
    list(granule_counts)] *)
Definition with_results (data : gmap string (list value))
    (results : list (bool * value)) : gmap string (list value) :=
  <["granule_count" := results.*2]> (<["in_osim" := VBool <$> results.*1]> data).

(** [str(u) if u is not None else None] *)
Definition uuid_of (u : value) : option string :=
  match u with
  | VNone => None
  | _ => Some (str u)
  end.

Section osim.
(** The OneStop API: the outcome of the request for a URL. *)
Variable osim_get : string → osim_outcome.
(** [pa.table(data)], [pq.write_table] and the replacement of the file:
    [None] when all succeed, the exception otherwise. *)
Variable pa_write : gmap string (list value) → option string.

(** [check_in_osim]: the pair it returns, or the exception that leaves it;
    and the URLs it requested. *)
Definition check_in_osim (uuid : option string)
    : ((bool * value) + string) * list string :=
  match uuid with
  | None => (inl (false, VNone), [])
  | Some u =>
      if negb (Py.truthy uuid) || String.eqb (Py.lower u) "none"
      then (inl (false, VNone), [])
      else
        let url := OSIM_URL +:+ u in
        match osim_get url with
        | OsimRaised (Caught _) => (inl (false, VNone), [url])
        | OsimRaised (Uncaught e) => (inr e, [url])
        | OsimResponded status body =>
            if status =? 200 then
              match body with
              | inl data =>
                  match total_granules data with
                  | Some granule_count => (inl (true, granule_count), [url])
                  | None => (inr "AttributeError", [url])
                  end
              | inr (Caught _) => (inl (false, VNone), [url])
              | inr (Uncaught e) => (inr e, [url])
              end
            else (inl (false, VNone), [url])
        end
  end.

(** The tasks [main] gathers, one per cell of the [uuid] column. *)
Definition tasks (uuid_column : list value) : list ((bool * value) + string) :=
  (λ u, (check_in_osim (uuid_of u)).1) <$> uuid_column.

(** [main] on the Parquet file ([None]: no file), read as a dict of columns:
    the dict written back, or the exception raised, in which case the file is
    left as it was. *)
Definition main (parquet : option (gmap string (list value)))
    : gmap string (list value) + failure :=
  match parquet with
  | None => inr FileNotFoundError
  | Some data =>
      match data !! "uuid" with
      | None => inr ValueError
      | Some uuid_column =>
          match gather (tasks uuid_column) with
          | None => inr CheckRaised
          | Some results =>
              match results with
              | [] => inr ValueError
              | _ :: _ =>
                  let data := with_results data results in
                  if decide (map_Forall (λ _ v, length v = length uuid_column) data)
                  then match pa_write data with
                       | None => inl data
                       | Some e => inr (WriteRaised e)
                       end
                  else inr ValueError
              end
          end
      end
  end.

End osim.

End OsimMeta.

(** ** More concrete inputs *)

Module Examples.
Import Store MetadataScraper.

(** A network on which every listing request is refused with 503. *)
Definition refusing (url : string) (attempt : nat) : Crawler.page_outcome :=
  Crawler.PageResponded 503 (inl "").

Definition no_anchors (html_text : string) : list (option string) := [].

(** A small WAF.  The listing of the base URL links two documents, one of
    them twice, a column-sort link of the server, an element without [href],
    and the folder [NOAA/iso/]; the listing [NOAA/iso/xml/] links its parent
    folder and one document; every other page is missing. *)
Definition waf (url : string) (attempt : nat) : Crawler.page_outcome :=
  if String.eqb url "https://data.noaa.gov/waf/"
  then Crawler.PageResponded 200 (inl "base listing")
  else if String.eqb url "https://data.noaa.gov/waf/NOAA/iso/xml/"
  then Crawler.PageResponded 200 (inl "iso listing")
  else Crawler.PageResponded 404 (inl "").

Definition waf_anchors (html_text : string) : list (option string) :=
  if String.eqb html_text "base listing"
  then [Some "?C=N;O=D"; Some "a.xml"; Some "B.XML"; Some "a.xml"; None;
        Some "NOAA/iso/"]
  else if String.eqb html_text "iso listing"
  then [Some "/waf/NOAA/iso/"; Some "c.xml"]
  else [].

(** A server whose document cannot be read: the first request raises, and
    every later one is answered with status 200 and a body whose reading
    raises. *)
Definition broken (url : string) (headers : gmap string string) (attempt : nat)
    : attempt_outcome :=
  if (attempt =? 1)%nat then Raised "Cannot connect to host"
  else Responded (Response 200 (Some "e7")
                    (inr "Response payload is not completed")).

Definition broken_environment : Environment := {|
  xml := unit;
  etree_fromstring := Scenario.parse;
  attrib_get := Scenario.no_attrib;
  xpath := Scenario.no_nodes;
  str_strip := Scenario.keep;
  session_get := broken;
  completion := Scenario.in_order;
  now := Scenario.clock
|}.

(** A registry that tracks one document. *)
Definition single : world :=
  World {[ "U" := Row (Some "x5") (Some "old") 0 ]} None.

(** A registry with the rows of two documents that [Scenario.server] does not
    serve anew: [B] is unchanged and [E] is refused. *)
Definition settled : world :=
  World {[ "B" := Row (Some "x1") None 0; "E" := Row (Some "x2") None 0 ]} None.

(** Child processes of which the crawl cannot be launched. *)
Definition crawl_raises (module_name : string) (m : unit) : (Z + string) * unit :=
  if String.eqb module_name "noaa_collection_scraper.url_scraper"
  then (inr "No such file or directory", m) else (inl 0, m).

(** A data directory with three snapshots and a note. *)
Definition data_dir : list Cleanup.file :=
  [ Cleanup.File "waf_list_2025-01-01.json" 10;
    Cleanup.File "notes.txt" 5;
    Cleanup.File "waf_list_2025-01-03.json" 30;
    Cleanup.File "waf_list_2025-01-02.json" 20 ].

Definition unlink_succeeds (file_name : string) : bool := false.

(** An API that knows every collection, with five granules each; a writer
    that accepts every table; and a table of two rows, the second without
    uuid. *)
Definition knows_all (url : string) : OsimMeta.osim_outcome :=
  OsimMeta.OsimResponded 200
    (inl (OsimMeta.JsonObject
            (Some (OsimMeta.MetaObject (Some (OsimMeta.VInt 5)))))).

Definition writes (data : gmap string (list OsimMeta.value)) : option string :=
  None.

(** A writer that refuses every table. *)
Definition refuses (data : gmap string (list OsimMeta.value)) : option string :=
  Some "ArrowInvalid".

Definition two_rows : gmap string (list OsimMeta.value) :=
  {[ "source" := [OsimMeta.VStr "A"; OsimMeta.VStr "X"];
     "uuid" := [OsimMeta.VStr "abc"; OsimMeta.VNone] ]}.

End Examples.

(** * Properties *)

(** ** Strings *)

Section string_facts.
Import UrlScraper.
Implicit Types (s p q suf sub : string) (a : ascii).

Lemma app_cons a s q : String a s +:+ q = String a (s +:+ q).
Proof. reflexivity. Qed.

Lemma app_empty_r s : s +:+ "" = s.
Proof. induction s as [|a s IH]; [done|]. by rewrite app_cons, IH. Qed.

Lemma app_assoc_string p q s : (p +:+ q) +:+ s = p +:+ (q +:+ s).
Proof. induction p as [|a p IH]; [done|]. by rewrite !app_cons, IH. Qed.

Lemma length_app_string p q :
  String.length (p +:+ q) = (String.length p + String.length q)%nat.
Proof. induction p as [|a p IH]; [done|]. rewrite app_cons. simpl. by rewrite IH. Qed.

Lemma app_inj_suffix p p' s s' :
  String.length s = String.length s' → p +:+ s = p' +:+ s' → s = s'.
Proof.
  revert p'. induction p as [|a p IH]; intros [|a' p'] Hlen Heq.
  - done.
  - exfalso. apply (f_equal String.length) in Heq.
    change ("" +:+ s) with s in Heq.
    rewrite app_cons in Heq. simpl in Heq. rewrite length_app_string in Heq. lia.
  - exfalso. apply (f_equal String.length) in Heq.
    change ("" +:+ s') with s' in Heq.
    rewrite app_cons in Heq. simpl in Heq. rewrite length_app_string in Heq. lia.
  - rewrite !app_cons in Heq. injection Heq as _ Heq. by apply (IH p').
Qed.

Lemma prefix_spec p s : String.prefix p s = true ↔ ∃ q, s = p +:+ q.
Proof.
  revert s. induction p as [|a p IH]; intros s.
  - split; [intros _; by exists s | by destruct s].
  - destruct s as [|b s]; simpl.
    + split; [done | by intros [q Hq]].
    + destruct (ascii_dec a b) as [->|Hne].
      * rewrite IH. split; intros [q Hq]; exists q.
        -- by rewrite app_cons, <- Hq.
        -- rewrite app_cons in Hq. by injection Hq.
      * split; [done|]. intros [q Hq]. rewrite app_cons in Hq. congruence.
Qed.

Lemma contains_spec sub s : Py.contains sub s = true ↔ occurs_in sub s.
Proof.
  unfold occurs_in. induction s as [|a s IH]; cbn [Py.contains].
  - rewrite orb_false_r, prefix_spec. split.
    + intros [q Hq]. by exists "", q.
    + intros ([|b p] & q & Hq); [by exists q|]. by rewrite app_cons in Hq.
  - rewrite orb_true_iff, prefix_spec, IH. split.
    + intros [[q Hq] | (p & q & Hq)].
      * by exists "", q.
      * exists (String a p), q. by rewrite app_cons, <- Hq.
    + intros ([|b p] & q & Hq).
      * left. by exists q.
      * right. rewrite app_cons in Hq. injection Hq as -> Hq. by exists p, q.
Qed.

Lemma endswith_spec s suf : Py.endswith s suf = true ↔ ends s suf.
Proof.
  unfold ends. induction s as [|a s IH]; cbn [Py.endswith].
  - rewrite orb_false_r, String.eqb_eq. split.
    + intros <-. by exists "".
    + intros [[|b p] Hp]; [done | by rewrite app_cons in Hp].
  - rewrite orb_true_iff, String.eqb_eq, IH. split.
    + intros [<- | [p Hp]]; [by exists ""|].
      exists (String a p). by rewrite app_cons, <- Hp.
    + intros [[|b p] Hp]; [by left|].
      right. rewrite app_cons in Hp. injection Hp as -> Hp. by exists p.
Qed.

Lemma endswith_same_length p s suf :
  String.length s = String.length suf →
  Py.endswith (p +:+ s) suf = String.eqb s suf.
Proof.
  intros Hlen. destruct (String.eqb s suf) eqn:Heq.
  - apply String.eqb_eq in Heq as ->. apply endswith_spec. by exists p.
  - apply not_true_is_false. intros [p' Hp']%endswith_spec.
    apply app_inj_suffix in Hp'; [|done]. apply String.eqb_neq in Heq. done.
Qed.

Lemma endswith_shorter s p suf :
  Py.endswith s (p +:+ suf) = true → Py.endswith s suf = true.
Proof.
  rewrite !endswith_spec. intros [q ->]. exists (q +:+ p).
  by rewrite app_assoc_string.
Qed.

Lemma lower_app p q : Py.lower (p +:+ q) = Py.lower p +:+ Py.lower q.
Proof. induction p as [|a p IH]; [done|]. rewrite app_cons. simpl. by rewrite IH. Qed.

Lemma endswith_slash_not_document s :
  Py.endswith (Py.lower (s +:+ "/")) ".xml" = false.
Proof.
  rewrite lower_app. change (Py.lower "/") with "/".
  apply not_true_is_false. intros H.
  apply (endswith_shorter _ ".xm" "l") in H.
  by rewrite endswith_same_length in H.
Qed.

End string_facts.

(** ** [urljoin] on plain URLs *)

Section urljoin_facts.
Import UrlScraper.
Implicit Types (s p q url base rest : string) (a : ascii)
  (parts segments middle acc : list string).

Lemma prefix_skip p s :
  String.prefix p s = true → s = p +:+ skip (String.length p) s.
Proof.
  revert s. induction p as [|a p IH]; intros s; [done|].
  destruct s as [|b s]; [done|]. simpl.
  destruct (ascii_dec a b) as [->|]; [|done].
  intros Hp. rewrite app_cons. f_equal. by apply IH.
Qed.

Lemma after_scheme_app url scheme rest :
  after_scheme url = Some (scheme, rest) → url = scheme +:+ rest.
Proof.
  unfold after_scheme.
  destruct (String.prefix "https://" url) eqn:Hs.
  { intros [= <- <-]. by apply (prefix_skip "https://"). }
  destruct (String.prefix "http://" url) eqn:Hp; [|done].
  intros [= <- <-]. by apply (prefix_skip "http://").
Qed.

Lemma upto_from stop s : upto stop s +:+ from stop s = s.
Proof.
  induction s as [|a s IH]; [done|]. simpl.
  destruct (stop a); [done|]. by rewrite app_cons, IH.
Qed.

Lemma from_slash s :
  from is_slash s = "" ∨ ∃ s', from is_slash s = String "/" s'.
Proof.
  induction s as [|a s IH]; [by left|]. simpl.
  destruct (is_slash a) eqn:Ha; [|done].
  right. exists s. unfold is_slash in Ha. by apply Ascii.eqb_eq in Ha as ->.
Qed.

Lemma split_slash_cons s : ∃ part parts, split_slash s = part :: parts.
Proof.
  induction s as [|a s (part & parts & IH)]; simpl; [by eexists _, _|].
  destruct (Ascii.eqb a "/"); [by eexists _, _|]. rewrite IH. by eexists _, _.
Qed.

Lemma join_split s : join_slash (split_slash s) = s.
Proof.
  induction s as [|a s IH]; [done|]. cbn [split_slash].
  destruct (split_slash_cons s) as (part & parts & Hs). rewrite Hs in *.
  destruct (Ascii.eqb a "/") eqn:Ha.
  - apply Ascii.eqb_eq in Ha as ->.
    change (join_slash ("" :: part :: parts))
      with ("" +:+ "/" +:+ join_slash (part :: parts)).
    by rewrite IH.
  - destruct parts as [|part' parts]; [simpl in *; by subst|].
    change (join_slash (String a part :: part' :: parts))
      with (String a part +:+ "/" +:+ join_slash (part' :: parts)).
    change (join_slash (part :: part' :: parts))
      with (part +:+ "/" +:+ join_slash (part' :: parts)) in IH.
    by rewrite <- IH.
Qed.

Lemma join_snoc parts s :
  parts ≠ [] → join_slash (parts ++ [s]) = join_slash parts +:+ "/" +:+ s.
Proof.
  induction parts as [|part parts IH]; [done|]. intros _.
  destruct parts as [|part' parts]; [done|].
  change (join_slash ((part :: part' :: parts) ++ [s]))
    with (part +:+ "/" +:+ join_slash ((part' :: parts) ++ [s])).
  rewrite IH by done.
  change (join_slash (part :: part' :: parts))
    with (part +:+ "/" +:+ join_slash (part' :: parts)).
  by rewrite !app_assoc_string.
Qed.

Lemma filter_middle_snoc first middle final :
  filter_middle (first :: middle ++ [final])
  = first :: filter (λ seg, seg ≠ "") middle ++ [final].
Proof.
  unfold filter_middle. by rewrite reverse_snoc, reverse_involutive.
Qed.

Lemma filter_all {A : Type} (P : A → Prop) `{∀ x, Decision (P x)} (l : list A) :
  Forall P l → filter P l = l.
Proof.
  induction 1 as [|x l Hx _ IH]; [done|].
  by rewrite filter_cons, decide_True, IH.
Qed.

Lemma resolve_app segments segments' acc :
  resolve (segments ++ segments') acc = resolve segments' (resolve segments acc).
Proof.
  revert acc. induction segments as [|seg segments IH]; intros acc; [done|].
  simpl. by repeat case_match.
Qed.

Lemma resolve_no_dots segments acc :
  Forall (λ seg, is_dots seg = false) segments →
  resolve segments acc = acc ++ segments.
Proof.
  revert acc. induction segments as [|seg segments IH]; intros acc Hsegs.
  - by rewrite app_nil_r.
  - apply Forall_cons in Hsegs as [Hseg Hsegs]. simpl.
    unfold is_dots in Hseg. apply orb_false_iff in Hseg as [-> ->].
    rewrite IH by done. by rewrite <- app_assoc.
Qed.

Lemma proper_no_dots seg : proper seg = true → seg ≠ "" ∧ is_dots seg = false.
Proof.
  unfold proper. intros [Hne Hd]%negb_true_iff%orb_false_iff.
  split; [|done]. by apply String.eqb_neq.
Qed.

(** On the URL of a directory, [urljoin] appends the reference [xml/]. *)
Lemma urljoin_directory url :
  directory url = true → urljoin_http url "xml/" = Some (url +:+ "xml/").
Proof.
  unfold directory, urljoin_http.
  destruct (after_scheme url) as [[scheme rest]|] eqn:Hscheme; [|done].
  apply after_scheme_app in Hscheme.
  intros [[Hplain Hnet]%andb_true_iff Hparts]%andb_true_iff.
  rewrite Hplain, Hnet. change (reference "xml/") with true. cbn [andb].
  pose proof (join_split (from is_slash rest)) as Hjoin.
  destruct (split_slash (from is_slash rest)) as [|first parts]; [done|].
  apply andb_true_iff in Hparts as [->%String.eqb_eq Hparts].
  destruct (reverse parts) as [|final middle] eqn:Hrev; [done|].
  apply andb_true_iff in Hparts as [->%String.eqb_eq Hmiddle].
  apply (f_equal reverse) in Hrev.
  rewrite reverse_involutive, reverse_cons in Hrev. subst parts.
  assert (Hmid : Forall (λ seg, seg ≠ "" ∧ is_dots seg = false) (reverse middle)).
  { apply Forall_forall. intros seg Hseg. rewrite elem_of_reverse in Hseg.
    apply proper_no_dots. rewrite forallb_forall in Hmiddle.
    by apply Hmiddle, list_elem_of_In. }
  set (mid := reverse middle) in *. clearbody mid. clear Hmiddle middle.
  change ("" :: mid ++ [""]) with (("" :: mid) ++ [""]) in *.
  rewrite last_snoc. change (default "" (Some "")) with "". change (String.eqb "" "") with true.
  cbv beta iota. change (String.prefix "/" "xml/") with false. cbv beta iota.
  change (split_slash "xml/") with ["xml"; ""].
  assert (Hsegments :
    filter_middle ((("" :: mid) ++ [""]) ++ ["xml"; ""])
    = (("" :: mid) ++ ["xml"]) ++ [""]).
  { change ((("" :: mid) ++ [""]) ++ ["xml"; ""])
      with ("" :: (mid ++ [""]) ++ ["xml"; ""]).
    replace ((mid ++ [""]) ++ ["xml"; ""]) with ((mid ++ [""; "xml"]) ++ [""])
      by (by rewrite <- !app_assoc).
    rewrite filter_middle_snoc, filter_app.
    replace (filter (λ seg, seg ≠ "") mid) with mid.
    - by rewrite <- !app_assoc.
    - symmetry. apply filter_all.
      eapply Forall_impl; [exact Hmid|]. by intros seg [? _]. }
  rewrite Hsegments, last_snoc. change (default "" (Some "")) with "". change (is_dots "") with false.
  cbv beta iota.
  rewrite resolve_no_dots.
  2:{ apply Forall_app. split; [|by repeat constructor].
      apply Forall_app. split; [|by repeat constructor].
      constructor; [done|]. eapply Forall_impl; [exact Hmid|]. by intros seg [_ ?]. }
  rewrite app_nil_l, !join_snoc by done.
  rewrite join_snoc in Hjoin by done.
  set (j := join_slash ("" :: mid)) in *. clearbody j.
  assert (Hpath : (j +:+ "/" +:+ "xml") +:+ "/" +:+ "" = from is_slash rest +:+ "xml/").
  { rewrite <- Hjoin. by rewrite !app_assoc_string. }
  rewrite Hpath.
  destruct (from_slash rest) as [Hnone|[s' Hsome]].
  { rewrite Hnone in Hjoin. by destruct j. }
  pose proof (upto_from is_slash rest) as Hrest.
  set (netloc := upto is_slash rest) in *. clearbody netloc.
  rewrite Hsome in *. rewrite app_cons.
  change (String.eqb (String "/" (s' +:+ "xml/")) "") with false.
  cbv beta iota.
  assert (String.prefix "/" (String "/" (s' +:+ "xml/")) = true) as ->
    by (apply prefix_spec; by eexists).
  f_equal. rewrite Hscheme, <- Hrest.
  by rewrite !app_assoc_string.
Qed.

(** Whatever the base, the reference [xml/] resolves to a URL that ends in a
    slash. *)
Lemma urljoin_listing base joined :
  urljoin_http base "xml/" = Some joined → ∃ s, joined = s +:+ "/".
Proof.
  unfold urljoin_http.
  destruct (after_scheme base) as [[scheme rest]|]; [|done].
  case_match; [|done].
  set (base_parts := if String.eqb _ "" then _ else take _ _).
  clearbody base_parts.
  change (String.prefix "/" "xml/") with false. cbv beta iota.
  change (split_slash "xml/") with ["xml"; ""].
  assert (Hsegments : ∃ segments,
    filter_middle (base_parts ++ ["xml"; ""]) = segments ++ [""]).
  { replace (base_parts ++ ["xml"; ""]) with ((base_parts ++ ["xml"]) ++ [""])
      by (by rewrite <- app_assoc).
    destruct (base_parts ++ ["xml"]) as [|first middle] eqn:Hparts.
    { by destruct base_parts. }
    rewrite <- app_comm_cons, filter_middle_snoc. by eexists (_ :: _). }
  destruct Hsegments as [segments ->].
  rewrite last_snoc. change (default "" (Some "")) with "". change (is_dots "") with false.
  cbv beta iota. rewrite resolve_app. cbn [resolve].
  change (String.eqb "" "..") with false. change (String.eqb "" ".") with false.
  cbv beta iota.
  set (resolved := resolve segments []). clearbody resolved.
  assert (Hpath : ∃ q, (let path := join_slash (resolved ++ [""]) in
                        let path := if String.eqb path "" then "/" else path in
                        if String.prefix "/" path then path else "/" +:+ path)
                       = q +:+ "/").
  { destruct resolved as [|part resolved]; [by exists ""|].
    rewrite join_snoc by done. cbv zeta.
    set (j := join_slash (part :: resolved)). clearbody j.
    rewrite app_empty_r.
    destruct (String.eqb (j +:+ "/") ""); [by exists ""|].
    destruct (String.prefix "/" (j +:+ "/")); [by exists j|].
    exists ("/" +:+ j). by rewrite app_assoc_string. }
  destruct Hpath as [q Hq]. cbv zeta in Hq. rewrite Hq.
  intros [= <-]. exists (scheme +:+ upto is_slash rest +:+ q).
  by rewrite !app_assoc_string.
Qed.

End urljoin_facts.

(** ** Registry reconciliation *)

Section reconcile_facts.
Import Store UrlScraper.
Implicit Types (d : db) (u url : string) (l urls : list string).

Lemma sorted_perm l : Py.sorted l ≡ₚ l.
Proof. apply merge_sort_Permutation. Qed.

Lemma sorted_Sorted l : Sorted String.le (Py.sorted l).
Proof. apply (Sorted_merge_sort String.le). Qed.

Lemma elem_of_sorted u l : u ∈ Py.sorted l ↔ u ∈ l.
Proof. by rewrite sorted_perm. Qed.

Lemma sorted_nil : Py.sorted [] = [].
Proof. reflexivity. Qed.

Lemma enumerates_elem_of set_iter (X : gset string) u :
  enumerates set_iter → u ∈ set_iter X ↔ u ∈ X.
Proof. intros H. by rewrite (H X), elem_of_elements. Qed.

Lemma enumerates_NoDup set_iter (X : gset string) :
  enumerates set_iter → NoDup (set_iter X).
Proof. intros H. rewrite (H X). apply NoDup_elements. Qed.

Lemma enumerates_empty set_iter : enumerates set_iter → set_iter ∅ = [].
Proof.
  intros H. apply Permutation_nil_r. by rewrite (H ∅), elements_empty.
Qed.

Lemma enumerates_ascending : enumerates iter_ascending.
Proof. intros X. apply sorted_perm. Qed.

Lemma enumerates_descending : enumerates iter_descending.
Proof.
  intros X. unfold iter_descending. by rewrite reverse_Permutation, sorted_perm.
Qed.

(** The three loops, one lookup at a time. *)

Lemma insert_loop_lookup l d u :
  foldl (λ d url, insert_or_ignore url d) d l !! u =
  if decide (u ∈ l) then Some (default (Row None None 0) (d !! u)) else d !! u.
Proof.
  revert d. induction l as [|x l IH]; intros d; cbn [foldl].
  - destruct (decide (u ∈ [])) as [H|H]; [by apply elem_of_nil in H | done].
  - rewrite IH. unfold insert_or_ignore.
    destruct (decide (u = x)) as [->|Hne].
    + destruct (d !! x) as [r|] eqn:Hx; rewrite ?Hx, ?lookup_insert_eq;
        repeat case_decide; try done; exfalso; set_solver.
    + destruct (d !! x) as [r|] eqn:Hx; rewrite ?lookup_insert_ne by done;
        repeat case_decide; try done; exfalso; set_solver.
Qed.

Lemma set_deleted_loop_lookup flag l d u :
  foldl (λ d url, set_deleted flag url d) d l !! u =
  if decide (u ∈ l)
  then (λ r, Row (etag r) (last_checked r) flag) <$> d !! u
  else d !! u.
Proof.
  revert d. induction l as [|x l IH]; intros d; cbn [foldl].
  - destruct (decide (u ∈ [])) as [H|H]; [by apply elem_of_nil in H | done].
  - rewrite IH. unfold set_deleted.
    destruct (decide (u = x)) as [->|Hne].
    + rewrite lookup_alter_eq.
      repeat case_decide; try (by destruct (d !! x)); exfalso; set_solver.
    + rewrite lookup_alter_ne by done.
      repeat case_decide; try done; exfalso; set_solver.
Qed.

Lemma reactivate_loop_list recs urls acc d :
  (reactivate_loop recs urls acc d).1 =
  acc ++ filter (λ u, recs !! u = Some 1) urls.
Proof.
  revert acc d. induction urls as [|x urls IH]; intros acc d; simpl.
  - by rewrite app_nil_r.
  - rewrite filter_cons. case_decide.
    + by rewrite IH, <- app_assoc.
    + apply IH.
Qed.

Lemma reactivate_loop_db recs urls acc d :
  (reactivate_loop recs urls acc d).2 =
  foldl (λ d url, set_deleted 0 url d) d (filter (λ u, recs !! u = Some 1) urls).
Proof.
  revert acc d. induction urls as [|x urls IH]; intros acc d; simpl.
  - done.
  - rewrite filter_cons. case_decide; simpl; apply IH.
Qed.

(** The lists [update_database_from_waf] returns. *)
Lemma update_changes set_iter current_urls d :
  (update_database_from_waf set_iter current_urls d).2 =
  (Py.sorted (set_iter (list_to_set current_urls ∖ dom d)),
   filter (λ u, deleted <$> d !! u = Some 1)
     (set_iter (list_to_set current_urls ∩ dom d)),
   Py.sorted (set_iter (dom d ∖ list_to_set current_urls))).
Proof.
  unfold update_database_from_waf, select_url_deleted.
  rewrite dom_fmap_L.
  destruct (reactivate_loop _ _ _ _) as [re d2] eqn:Hloop. simpl.
  apply (f_equal fst) in Hloop. rewrite reactivate_loop_list in Hloop.
  simpl in Hloop. subst re. do 2 f_equal.
  apply list_filter_iff. intros u. by rewrite lookup_fmap.
Qed.

(** The table it leaves. *)
Lemma update_table set_iter current_urls d :
  (update_database_from_waf set_iter current_urls d).1 =
  foldl (λ d url, set_deleted 1 url d)
    (foldl (λ d url, set_deleted 0 url d)
       (foldl (λ d url, insert_or_ignore url d) d
          (added (update_database_from_waf set_iter current_urls d).2))
       (reactivated (update_database_from_waf set_iter current_urls d).2))
    (deactivated (update_database_from_waf set_iter current_urls d).2).
Proof.
  rewrite update_changes. unfold added, reactivated, deactivated. simpl.
  unfold update_database_from_waf, select_url_deleted.
  rewrite dom_fmap_L.
  destruct (reactivate_loop _ _ _ _) as [re d2] eqn:Hloop. simpl.
  apply (f_equal snd) in Hloop. rewrite reactivate_loop_db in Hloop.
  simpl in Hloop. subst d2. do 2 f_equal.
  apply list_filter_iff. intros u. by rewrite lookup_fmap.
Qed.

End reconcile_facts.

Section reconcile_claims.
Import Store UrlScraper.

(** Where a table read by [update_database_from_waf] ends up, row by row. *)
Lemma update_lookup set_iter current_urls d u :
  enumerates set_iter →
  (update_database_from_waf set_iter current_urls d).1 !! u =
  if decide (u ∈ current_urls)
  then Some (match d !! u with
             | Some r => if decide (deleted r = 1)
                         then Row (etag r) (last_checked r) 0 else r
             | None => Row None None 0
             end)
  else (λ r, Row (etag r) (last_checked r) 1) <$> d !! u.
Proof.
  intros Hen. rewrite update_table, update_changes.
  unfold added, reactivated, deactivated. simpl.
  rewrite set_deleted_loop_lookup, set_deleted_loop_lookup, insert_loop_lookup.
  set (C := list_to_set current_urls : gset string).
  assert (HA : u ∈ Py.sorted (set_iter (C ∖ dom d))
               ↔ u ∈ current_urls ∧ d !! u = None).
  { rewrite elem_of_sorted, enumerates_elem_of, elem_of_difference by done.
    unfold C. by rewrite elem_of_list_to_set, not_elem_of_dom. }
  assert (HD : u ∈ Py.sorted (set_iter (dom d ∖ C))
               ↔ is_Some (d !! u) ∧ u ∉ current_urls).
  { rewrite elem_of_sorted, enumerates_elem_of, elem_of_difference by done.
    unfold C. by rewrite elem_of_list_to_set, elem_of_dom. }
  assert (HR : u ∈ filter (λ u, deleted <$> d !! u = Some 1) (set_iter (C ∩ dom d))
               ↔ deleted <$> d !! u = Some 1 ∧ u ∈ current_urls).
  { rewrite list_elem_of_filter, enumerates_elem_of, elem_of_intersection by done.
    unfold C. rewrite elem_of_list_to_set, elem_of_dom.
    split; [by intros (?&?&?)|]. intros [Hdel ?]. repeat split; try done.
    destruct (d !! u); [eauto | done]. }
  rewrite (decide_ext _ _ _ _ HD), (decide_ext _ _ _ _ HR), (decide_ext _ _ _ _ HA).
  clear HA HD HR.
  destruct (d !! u) as [[e t del]|] eqn:Hu; simpl;
    destruct (decide (u ∈ current_urls)) as [Hin|Hnin];
    repeat case_decide; simplify_eq/=; try done; exfalso; naive_solver.
Qed.

(** C1: the lists returned by reconciliation are, as sets, [C ∖ K] (added),
    [K ∖ C] (deactivated) and the URLs of [C ∩ K] whose row has [deleted = 1]
    (reactivated), for the known set [K] (the URLs of the table) and the
    crawl set [C]; no list repeats a URL; [added], [K ∩ C] and [deactivated]
    are pairwise disjoint, and so are the three lists; and
    [added ∪ (K ∩ C) ∪ deactivated = K ∪ C]. *)
Theorem reconcile_set_diff (set_iter : gset string → list string)
    (current_urls : list string) (d : db) :
  enumerates set_iter →
  let K : gset string := dom d in
  let C : gset string := list_to_set current_urls in
  let c := (update_database_from_waf set_iter current_urls d).2 in
  let A : gset string := list_to_set (added c) in
  let R : gset string := list_to_set (reactivated c) in
  let D : gset string := list_to_set (deactivated c) in
  (A = C ∖ K ∧ D = K ∖ C
   ∧ R = filter (λ u, deleted <$> d !! u = Some 1) (C ∩ K))
  ∧ (NoDup (added c) ∧ NoDup (reactivated c) ∧ NoDup (deactivated c))
  ∧ (A ## K ∩ C ∧ A ## D ∧ K ∩ C ## D)
  ∧ (A ## R ∧ R ## D)
  ∧ A ∪ (K ∩ C) ∪ D = K ∪ C.
Proof.
  intros Hen K C c A R D.
  assert (HA : A = C ∖ K).
  { apply set_eq. intros u. subst A c. rewrite update_changes.
    unfold added; simpl.
    by rewrite elem_of_list_to_set, elem_of_sorted, enumerates_elem_of. }
  assert (HD : D = K ∖ C).
  { apply set_eq. intros u. subst D c. rewrite update_changes.
    unfold deactivated; simpl.
    by rewrite elem_of_list_to_set, elem_of_sorted, enumerates_elem_of. }
  assert (HR : R = filter (λ u, deleted <$> d !! u = Some 1) (C ∩ K)).
  { apply set_eq. intros u. subst R c. rewrite update_changes.
    unfold reactivated; simpl.
    rewrite elem_of_list_to_set, list_elem_of_filter, elem_of_filter.
    by rewrite enumerates_elem_of. }
  assert (HRsub : R ⊆ K ∩ C).
  { rewrite HR. intros u [_ Hu]%elem_of_filter. set_solver. }
  repeat split; try done.
  - subst c. rewrite update_changes. unfold added; simpl.
    rewrite sorted_perm. by apply enumerates_NoDup.
  - subst c. rewrite update_changes. unfold reactivated; simpl.
    apply NoDup_filter. by apply enumerates_NoDup.
  - subst c. rewrite update_changes. unfold deactivated; simpl.
    rewrite sorted_perm. by apply enumerates_NoDup.
  - rewrite HA. set_solver.
  - rewrite HA, HD. set_solver.
  - rewrite HD. set_solver.
  - rewrite HA. set_solver.
  - rewrite HD. set_solver.
  - rewrite HA, HD. apply set_eq. intros u.
    rewrite !elem_of_union, !elem_of_difference, elem_of_intersection.
    destruct (decide (u ∈ K)), (decide (u ∈ C)); naive_solver.
Qed.

(** C2, as the code has it: a second run with the same crawl result right
    after the first adds nothing and reactivates nothing, returns the same
    deactivated list as the first run (every known URL missing from the
    crawl, already inactive or not), and leaves the table as the first run
    left it. *)
Theorem reconcile_twice (set_iter : gset string → list string)
    (current_urls : list string) (d : db) :
  enumerates set_iter →
  let first := update_database_from_waf set_iter current_urls d in
  let second := update_database_from_waf set_iter current_urls first.1 in
  added second.2 = []
  ∧ reactivated second.2 = []
  ∧ deactivated second.2 = deactivated first.2
  ∧ second.1 = first.1.
Proof.
  intros Hen first second.
  assert (Hdom : dom first.1 = dom d ∪ list_to_set current_urls).
  { apply set_eq. intros u. subst first.
    rewrite elem_of_dom, update_lookup, elem_of_union, elem_of_dom by done.
    rewrite elem_of_list_to_set.
    case_decide; [split; eauto|].
    rewrite fmap_is_Some. naive_solver. }
  assert (Hadd : added second.2 = []).
  { subst second. rewrite update_changes. unfold added; simpl.
    rewrite Hdom.
    replace (list_to_set current_urls ∖ (dom d ∪ list_to_set current_urls))
      with (∅ : gset string) by set_solver.
    by rewrite enumerates_empty. }
  assert (Hre : reactivated second.2 = []).
  { subst second. rewrite update_changes. unfold reactivated; simpl.
    apply elem_of_nil_inv. intros u [Hdel Hu]%list_elem_of_filter.
    apply (enumerates_elem_of set_iter) in Hu; [|done].
    apply elem_of_intersection in Hu as [Hu _].
    apply elem_of_list_to_set in Hu.
    subst first. rewrite update_lookup in Hdel by done.
    rewrite decide_True in Hdel by done. simpl in Hdel.
    destruct (d !! u) as [r|]; [|done].
    case_decide; simplify_eq/=. }
  assert (Hde : deactivated second.2 = deactivated first.2).
  { subst second. rewrite update_changes. unfold deactivated at 1; simpl.
    rewrite Hdom. subst first. rewrite update_changes.
    unfold deactivated; simpl. do 2 f_equal. set_solver. }
  repeat split; try done.
  apply map_eq. intros u. subst second.
  rewrite (update_lookup set_iter current_urls first.1) by done.
  subst first. rewrite update_lookup by done.
  case_decide as Hu.
  - destruct (d !! u) as [r|]; simpl; [|done].
    repeat (case_decide; simplify_eq/=); done.
  - by destruct (d !! u).
Qed.

End reconcile_claims.

Section reconcile_examples.
Import Store UrlScraper Scenario.

Lemma reconcile_set_diff_witness :
  enumerates iter_ascending
  ∧ (list_to_set (added (update_database_from_waf iter_ascending
                           ["A"; "C"] registry).2) : gset string)
    = list_to_set ["A"; "C"] ∖ dom registry.
Proof.
  split; [exact enumerates_ascending|].
  exact (proj1 (proj1 (reconcile_set_diff iter_ascending ["A"; "C"] registry
                         enumerates_ascending))).
Defined.

Lemma reconcile_twice_witness :
  enumerates iter_ascending
  ∧ reactivated (update_database_from_waf iter_ascending ["A"; "C"]
                   (update_database_from_waf iter_ascending
                      ["A"; "C"] registry).1).2 = [].
Proof.
  split; [exact enumerates_ascending|].
  exact (proj1 (proj2 (reconcile_twice iter_ascending ["A"; "C"] registry
                         enumerates_ascending))).
Defined.

(** The specification's scenario: the first run yields [added = [C]],
    [reactivated = []], [deactivated = [B]]. *)
Example scenario_first_run :
  (update_database_from_waf iter_ascending ["A"; "C"] registry).2
  = (["C"], [], ["B"]).
Proof. by vm_compute. Qed.

(** C2 as the specification states it fails on that scenario: the second run
    with the same crawl result returns [B] as deactivated once more. *)
Lemma reconcile_twice_counterexample :
  let first := update_database_from_waf iter_ascending ["A"; "C"] registry in
  let second := update_database_from_waf iter_ascending ["A"; "C"] first.1 in
  deactivated second.2 = ["B"]
  ∧ ¬ (added second.2 = [] ∧ deactivated second.2 = []).
Proof.
  assert (H : deactivated
                (update_database_from_waf iter_ascending ["A"; "C"]
                   (update_database_from_waf iter_ascending
                      ["A"; "C"] registry).1).2 = ["B"]) by (by vm_compute).
  simpl. split; [exact H|]. intros [_ H']. rewrite H in H'. discriminate.
Qed.

(** The two lists the code sorts are sorted. *)
Lemma added_deactivated_sorted set_iter current_urls d :
  Sorted String.le (added (update_database_from_waf set_iter current_urls d).2)
  ∧ Sorted String.le
      (deactivated (update_database_from_waf set_iter current_urls d).2).
Proof.
  rewrite update_changes. unfold added, deactivated; simpl.
  split; apply sorted_Sorted.
Qed.

(** C7 on a registry with two inactive rows that both reappear in the crawl,
    under an iteration order that enumerates sets downwards: the reactivated
    list is returned as [B; A], which is not sorted. *)
Theorem reactivated_not_sorted :
  enumerates iter_descending
  ∧ (update_database_from_waf iter_descending ["A"; "B"] inactive_pair).2
    = ([], ["B"; "A"], [])
  ∧ ¬ Sorted String.le
        (reactivated
           (update_database_from_waf iter_descending ["A"; "B"] inactive_pair).2).
Proof.
  assert (H : (update_database_from_waf iter_descending ["A"; "B"] inactive_pair).2
              = ([], ["B"; "A"], [])) by (by vm_compute).
  split; [exact enumerates_descending|]. split; [exact H|].
  rewrite H. unfold reactivated; simpl.
  intros Hs. apply Sorted_inv in Hs as [_ Hhd].
  apply HdRel_inv in Hhd. by vm_compute in Hhd.
Qed.

End reconcile_examples.

(** ** Orchestration *)

Section runner_claims.
Import PipelineRunner.
Variable machine : Type.
Variable subprocess_run : string → machine → (Z + string) * machine.

Lemma steps_loop_timings steps failures timings m :
  (steps_loop machine subprocess_run steps failures timings m).1.2
  = timings ++ steps.
Proof.
  revert failures timings m.
  induction steps as [|step rest IH]; intros failures timings m; simpl.
  - by rewrite app_nil_r.
  - destruct (run_step machine subprocess_run step m) as [rc m'].
    case_decide; rewrite IH, <- app_assoc; done.
Qed.

Lemma steps_loop_failures steps failures timings m :
  (steps_loop machine subprocess_run steps failures timings m).1.1 = []
  ↔ failures = []
    ∧ Forall (λ rc, rc = 0) (return_codes machine subprocess_run steps m).
Proof.
  revert failures timings m.
  induction steps as [|step rest IH]; intros failures timings m; simpl.
  - split; [by intros -> | by intros [-> _]].
  - destruct (run_step machine subprocess_run step m) as [rc m'] eqn:Hstep.
    simpl. rewrite Forall_cons. case_decide as Hrc; rewrite IH.
    + split; [intros [Hf _]; by destruct failures | intros [_ [? _]]; done].
    + naive_solver.
Qed.

(** C5, as the code has it: [main] runs every step of [STEPS] in the fixed
    order crawl, fetch, enrichment, retention cleanup, whatever the exit
    statuses are, and exits with status 0 exactly when every step returned 0
    (with status 1 otherwise). *)
Theorem pipeline_runs_every_step (m : machine) :
  (main machine subprocess_run m).1.2
  = ["url_scraper"; "metadata_scraper"; "osim_meta"; "cleanup_artifacts"]
  ∧ ((main machine subprocess_run m).1.1 = 0
     ↔ Forall (λ rc, rc = 0) (return_codes machine subprocess_run STEPS m))
  ∧ ((main machine subprocess_run m).1.1 = 0
     ∨ (main machine subprocess_run m).1.1 = 1).
Proof.
  unfold main.
  pose proof (steps_loop_timings STEPS [] [] m) as Ht.
  pose proof (steps_loop_failures STEPS [] [] m) as Hf.
  destruct (steps_loop machine subprocess_run STEPS [] [] m)
    as [[failures timings] m'].
  cbn [fst snd] in Ht, Hf. subst timings.
  destruct failures as [|f fs]; cbn [fst snd].
  - split; [done|]. split; [|by left].
    split; [intros _; by apply Hf | done].
  - split; [done|]. split; [|by right].
    split; [done|]. intros H.
    assert (f :: fs = []) by (apply Hf; by split). done.
Qed.

End runner_claims.

Section runner_examples.
Import PipelineRunner Scenario.

(** C5 as the specification states it fails when the crawl exits with status
    1: the three later steps are run all the same. *)
Lemma pipeline_abort_counterexample :
  return_codes unit crawl_fails STEPS tt = [1; 0; 0; 0]
  ∧ (main unit crawl_fails tt).1.2
    = ["url_scraper"; "metadata_scraper"; "osim_meta"; "cleanup_artifacts"]
  ∧ (main unit crawl_fails tt).1.2 ≠ ["url_scraper"].
Proof. by vm_compute. Qed.

End runner_examples.

(** ** The crawler's path rewrite *)

Section crawler_claims.
Import UrlScraper.
Variable urljoin : string → string → string.
Variable hrefs : string → list (option string).

Lemma rewrite_applies_spec (url : string) :
  rewrite_applies url = true
  ↔ occurs_in "iso/" url
    ∧ ¬ ends (Py.lower url) ".xml" ∧ ¬ ends (Py.lower url) "/xml/".
Proof.
  unfold rewrite_applies.
  rewrite andb_true_iff, negb_true_iff, orb_false_iff, contains_spec.
  rewrite <- !endswith_spec, !not_true_iff_false. done.
Qed.

Lemma rewrite_applies_bare (p : string) : rewrite_applies (p +:+ "iso/") = true.
Proof.
  unfold rewrite_applies. apply andb_true_iff. split.
  - apply contains_spec. exists p, "". by rewrite app_empty_r.
  - apply negb_true_iff, orb_false_iff. rewrite lower_app.
    change (Py.lower "iso/") with "iso/". split.
    + by rewrite endswith_same_length.
    + apply not_true_is_false. intros H.
      apply (endswith_shorter _ "/" "xml/") in H.
      by rewrite endswith_same_length in H.
Qed.

Lemma endswith_slash_bare (p : string) : Py.endswith (p +:+ "iso/") "/" = true.
Proof.
  apply endswith_spec. exists (p +:+ "iso"). by rewrite app_assoc_string.
Qed.

(** C8, as the code has it: the rewrite is applied exactly to the URLs in
    which [iso/] occurs and which do not end, in lower case, in [.xml] or
    [/xml/]; such a URL gets a final slash if it has none and is replaced by
    [urljoin(url, "xml/")]; every other URL is left as it is.  A bare
    [.../iso/] branch is among the rewritten ones and goes to
    [urljoin(url, "xml/")], which is its [.../iso/xml/] sibling when the
    branch is a plain [http] URL of a directory, without empty or dot
    segments, query or fragment.  The worker records or traverses the
    rewritten URL, not the dequeued one. *)
Theorem iso_rewrite_rule (url p : string) :
  ((occurs_in "iso/" url
    ∧ ¬ ends (Py.lower url) ".xml" ∧ ¬ ends (Py.lower url) "/xml/")
   ∧ redirect urljoin url
     = urljoin (if Py.endswith url "/" then url else url +:+ "/") "xml/"
   ∨ ¬ (occurs_in "iso/" url
        ∧ ¬ ends (Py.lower url) ".xml" ∧ ¬ ends (Py.lower url) "/xml/")
     ∧ redirect urljoin url = url)
  ∧ redirect urljoin (p +:+ "iso/") = urljoin (p +:+ "iso/") "xml/"
  ∧ (joins urljoin → directory (p +:+ "iso/") = true →
     redirect urljoin (p +:+ "iso/") = p +:+ "iso/xml/")
  ∧ (∀ c q, queue c = url :: q → url ∉ seen_urls c → skipped url = false →
     worker_step urljoin hrefs c
     = Some (if Py.endswith (Py.lower (redirect urljoin url)) ".xml"
             then Crawl ({[url]} ∪ seen_urls c)
                    (waf_list c ++ [redirect urljoin url]) q
             else Crawl ({[url]} ∪ seen_urls c) (waf_list c)
                    (q ++ filter (λ full_url, full_url ∉ {[url]} ∪ seen_urls c)
                            ((λ h, urljoin (redirect urljoin url) h)
                               <$> omap followed (hrefs (redirect urljoin url)))))).
Proof.
  split; [|split; [|split]].
  - unfold redirect. destruct (rewrite_applies url) eqn:Happ.
    + left. split; [by apply rewrite_applies_spec | done].
    + right. split; [|done]. rewrite <- rewrite_applies_spec. congruence.
  - unfold redirect. by rewrite rewrite_applies_bare, endswith_slash_bare.
  - intros Hjoins Hdir. unfold redirect.
    rewrite rewrite_applies_bare, endswith_slash_bare.
    rewrite (Hjoins _ _ _ (urljoin_directory _ Hdir)).
    by rewrite app_assoc_string.
  - intros c q Hq Hseen Hskip. unfold worker_step. rewrite Hq.
    rewrite decide_False by done. rewrite Hskip.
    by destruct (Py.endswith (Py.lower (redirect urljoin url)) ".xml").
Qed.

End crawler_claims.

Section crawler_examples.
Import UrlScraper.

Lemma scenario_urljoin_joins : joins Scenario.urljoin.
Proof. intros base url joined Hjoined. unfold Scenario.urljoin. by rewrite Hjoined. Qed.

Lemma iso_rewrite_rule_witness :
  joins Scenario.urljoin
  ∧ directory ("https://data.noaa.gov/waf/NOAA/" +:+ "iso/") = true
  ∧ redirect Scenario.urljoin ("https://data.noaa.gov/waf/NOAA/" +:+ "iso/")
    = "https://data.noaa.gov/waf/NOAA/" +:+ "iso/xml/".
Proof.
  split; [exact scenario_urljoin_joins|]. split; [reflexivity|].
  exact (proj1 (proj2 (proj2
    (iso_rewrite_rule Scenario.urljoin (λ _, []) ""
       "https://data.noaa.gov/waf/NOAA/")))
    scenario_urljoin_joins eq_refl).
Defined.

(** C8 as the specification states it fails on a URL below an [iso/] branch
    that is neither a document nor a listing named [xml/]: it is not a bare
    [.../iso/] branch, and it is rewritten. *)
Lemma iso_rewrite_counterexample :
  Py.endswith "https://data.noaa.gov/waf/NOAA/iso/xml/readme.txt" "iso/" = false
  ∧ redirect Scenario.urljoin "https://data.noaa.gov/waf/NOAA/iso/xml/readme.txt"
    = "https://data.noaa.gov/waf/NOAA/iso/xml/readme.txt/xml/"
  ∧ redirect Scenario.urljoin "https://data.noaa.gov/waf/NOAA/iso/xml/readme.txt"
    ≠ "https://data.noaa.gov/waf/NOAA/iso/xml/readme.txt".
Proof. by vm_compute. Qed.

(** A branch reached through a dot segment is rewritten too, but [urljoin]
    normalises it on the way: the worker goes on with another URL than the
    branch followed by [xml/]. *)
Example iso_rewrite_normalises :
  directory "https://data.noaa.gov/waf/a/../iso/" = false
  ∧ redirect Scenario.urljoin "https://data.noaa.gov/waf/a/../iso/"
    = "https://data.noaa.gov/waf/iso/xml/".
Proof. by vm_compute. Qed.

End crawler_examples.

(** ** The output table *)

Section merge_claims.
Import MetadataScraper.
Implicit Types (r : table_row) (rows existing : list table_row)
  (k : option string).

Lemma drop_duplicates_last_sublist rows :
  drop_duplicates_last rows `sublist_of` rows.
Proof.
  induction rows as [|r rest IH]; simpl; [constructor|].
  case_bool_decide; by constructor.
Qed.

Lemma filter_key_nil k rows :
  k ∉ key <$> rows → filter (λ r, key r = k) rows = [].
Proof.
  intros Hk. apply elem_of_nil_inv. intros r [Hr Hin]%list_elem_of_filter.
  apply Hk. rewrite <- Hr. by apply list_elem_of_fmap_2.
Qed.

Lemma filter_key_not_nil k rows :
  k ∈ key <$> rows → filter (λ r, key r = k) rows ≠ [].
Proof.
  intros (r & -> & Hin)%list_elem_of_fmap Hnil.
  assert (r ∈ filter (λ r', key r' = key r) rows) as Hr
    by (by apply list_elem_of_filter).
  rewrite Hnil in Hr. by apply elem_of_nil in Hr.
Qed.

(** For every key, the deduplicated table holds exactly the last row with
    that key. *)
Lemma drop_duplicates_last_filter k rows :
  filter (λ r, key r = k) (drop_duplicates_last rows)
  = option_list (last (filter (λ r, key r = k) rows)).
Proof.
  induction rows as [|r rest IH]; [done|]. cbn [drop_duplicates_last].
  case_bool_decide as Hdup.
  - rewrite IH, filter_cons. case_decide as Hk; [|done].
    rewrite last_cons. subst k.
    destruct (last (filter (λ r', key r' = key r) rest)) eqn:Hlast; [done|].
    apply last_None in Hlast. by apply filter_key_not_nil in Hdup.
  - rewrite !filter_cons. case_decide as Hk; [|done].
    rewrite IH. subst k. by rewrite filter_key_nil.
Qed.

Lemma drop_duplicates_last_NoDup rows :
  NoDup (key <$> drop_duplicates_last rows).
Proof.
  induction rows as [|r rest IH]; simpl; [constructor|].
  case_bool_decide as Hdup; [done|]. rewrite fmap_cons. constructor; [|done].
  intros (r' & Hr' & Hin)%list_elem_of_fmap. apply Hdup.
  rewrite Hr'. apply list_elem_of_fmap_2.
  eapply elem_of_sublist; [done|]. apply drop_duplicates_last_sublist.
Qed.

Lemma key_row_of first m : key (row_of (items first).*1 m) = Some (source_of m).
Proof.
  unfold key, row_of.
  assert (Hsrc : get m "source" = Some (Some (source_of m))).
  { unfold get. destruct m; simpl; by rewrite lookup_insert_eq. }
  destruct first; simpl; rewrite Hsrc; simpl; by rewrite lookup_insert_eq.
Qed.

Lemma filter_rows first (new_records : list metadata) url :
  filter (λ r, key r = Some url) (row_of (items first).*1 <$> new_records)
  = row_of (items first).*1 <$> filter (λ m, source_of m = url) new_records.
Proof.
  induction new_records as [|m ms IH]; [done|].
  rewrite fmap_cons, !filter_cons, IH, key_row_of.
  repeat case_decide; simplify_eq; done.
Qed.

(** Every new record gives one row, in order, keyed by its source. *)
Lemma from_pylist_keys (new_records : list metadata) :
  key <$> from_pylist new_records = Some ∘ source_of <$> new_records.
Proof.
  destruct new_records as [|first rest]; [done|]. unfold from_pylist.
  rewrite <- list_fmap_compose. apply list_fmap_ext. intros i m _. simpl.
  apply key_row_of.
Qed.

(** The rows of a source among the new rows are those of its records. *)
Lemma filter_new_rows (new_records : list metadata) first url :
  head new_records = Some first →
  filter (λ r, key r = Some url) (from_pylist new_records)
  = row_of (items first).*1 <$> filter (λ m, source_of m = url) new_records.
Proof.
  destruct new_records as [|first' rest]; [done|]. intros [= ->].
  unfold from_pylist. apply filter_rows.
Qed.

(** C3: the new records are ingested after the existing rows, one row per
    record, in order, each keyed by the source of its record.  After the
    merge no two rows of the table have the same source; the rows kept are
    rows of the existing table followed by new rows, in that order; for every
    source the row kept is the last one with that source in this order.  So
    for the source of a new record it is the row of the last new record with
    that source, whatever the existing table holds for it, and a source of the
    existing table that no new record has keeps the last of its existing
    rows.  [main] stores this table whenever the Parquet file exists and
    there is a new record. *)
Theorem merge_keeps_last (existing : list table_row)
    (new_records : list metadata) (first : metadata) (k : option string) :
  let new_rows := from_pylist new_records in
  let ingested := existing ++ new_rows in
  let table := merge existing new_records in
  (length new_rows = length new_records
   ∧ key <$> new_rows = Some ∘ source_of <$> new_records)
  ∧ NoDup (key <$> table)
  ∧ table `sublist_of` ingested
  ∧ filter (λ r, key r = k) table
    = option_list (last (filter (λ r, key r = k) ingested))
  ∧ (∀ m, m ∈ new_records →
       ∃ first' m',
         head new_records = Some first'
         ∧ last (filter (λ m', source_of m' = source_of m) new_records) = Some m'
         ∧ filter (λ r, key r = Some (source_of m)) table
           = [row_of (items first').*1 m'])
  ∧ (k ∉ key <$> new_rows →
     filter (λ r, key r = k) table
     = option_list (last (filter (λ r, key r = k) existing)))
  ∧ save (first :: new_records) (Some existing)
    = Some (merge existing (first :: new_records)).
Proof.
  intros new_rows ingested table. subst new_rows ingested table. unfold merge.
  split.
  { split; [|apply from_pylist_keys].
    rewrite <- (length_fmap key), from_pylist_keys. by rewrite length_fmap. }
  split; [apply drop_duplicates_last_NoDup|].
  split; [apply drop_duplicates_last_sublist|].
  split; [apply drop_duplicates_last_filter|].
  split; [|split; [|done]].
  - intros m Hm. destruct new_records as [|first' rest] eqn:Hnew;
      [by apply elem_of_nil in Hm|].
    rewrite <- Hnew in *.
    assert (Hhead : head new_records = Some first') by (by rewrite Hnew).
    assert (Hlast : ∃ m', last (filter (λ m', source_of m' = source_of m)
                                  new_records) = Some m').
    { destruct (last _) as [m'|] eqn:Hl; [by exists m'|].
      apply last_None in Hl.
      assert (m ∈ filter (λ m', source_of m' = source_of m) new_records) as Hin
        by (by apply list_elem_of_filter).
      rewrite Hl in Hin. by apply elem_of_nil in Hin. }
    destruct Hlast as [m' Hm']. exists first', m'.
    split; [done|]. split; [done|].
    rewrite drop_duplicates_last_filter, filter_app.
    rewrite (filter_new_rows _ first') by done.
    by rewrite last_app, fmap_last, Hm'.
  - intros Hk. rewrite drop_duplicates_last_filter, filter_app.
    by rewrite (filter_key_nil k (from_pylist new_records)), app_nil_r.
Qed.

End merge_claims.

(** ** The conditional fetch *)

Section fetch_facts.
Import Store MetadataScraper.
Context `{Environment}.

Implicit Types (url : string) (etag : option string)
  (headers : gmap string string) (range : list nat) (log : list event).

Lemma requests_to_app url log log' :
  requests_to url (log ++ log') = (requests_to url log + requests_to url log')%nat.
Proof. unfold requests_to. by rewrite filter_app, length_app. Qed.

Lemma requests_to_raised_log url headers range :
  requests_to url (raised_log url headers range) = length range.
Proof.
  induction range as [|j range IH]; [done|].
  unfold raised_log in *. rewrite bind_cons, requests_to_app, IH.
  unfold requests_to. rewrite filter_cons. simpl.
  rewrite bool_decide_eq_true_2 by done.
  rewrite decide_True by done. done.
Qed.

Lemma attempt_loop_raised url etag headers pre range :
  (∀ j, j ∈ pre → ∃ e, session_get url headers j = Raised e) →
  attempt_loop url etag headers (pre ++ range)
  = ((attempt_loop url etag headers range).1,
     raised_log url headers pre ++ (attempt_loop url etag headers range).2).
Proof.
  induction pre as [|j pre IH]; intros Hpre.
  - simpl. by destruct (attempt_loop _ _ _ _).
  - rewrite <- app_comm_cons. cbn [attempt_loop].
    destruct (Hpre j) as [e ->]; [left|].
    rewrite IH by (intros; apply Hpre; by right).
    unfold raised_log. by rewrite bind_cons.
Qed.

Lemma attempt_loop_url url etag headers range :
  r_url (attempt_loop url etag headers range).1 = url.
Proof.
  induction range as [|j range IH]; [done|]. simpl.
  destruct (attempt_loop _ _ _ range) as [r log]. simpl in IH.
  destruct (session_get url headers j) as [e|resp]; [done|].
  repeat case_match; done.
Qed.

Lemma fetch_conditional_url url etag : r_url (fetch_conditional url etag).1 = url.
Proof. apply attempt_loop_url. Qed.

Lemma attempt_loop_other url url' etag headers range :
  url ≠ url' → requests_to url' (attempt_loop url etag headers range).2 = 0%nat.
Proof.
  intros Hne. unfold requests_to.
  induction range as [|j range IH]; [done|]. simpl.
  destruct (attempt_loop _ _ _ range) as [r log]. simpl in IH.
  assert (Hget : ∀ l, filter (λ ev, is_get_of url' ev = true) (Get url headers :: l)
                      = filter (λ ev, is_get_of url' ev = true) l).
  { intros l. rewrite filter_cons. simpl.
    rewrite bool_decide_eq_false_2 by done. by rewrite decide_False. }
  destruct (session_get url headers j) as [e|resp]; simpl.
  - by rewrite Hget, filter_cons.
  - repeat case_match; simpl; rewrite ?Hget, ?filter_cons; done.
Qed.

(** Every request of a fetch carries the headers computed from the stored
    indicator. *)
Lemma attempt_loop_headers url etag headers range :
  Forall (λ ev, match ev with Get u h => u = url ∧ h = headers | Sleep _ => True end)
    (attempt_loop url etag headers range).2.
Proof.
  induction range as [|j range IH]; [constructor|]. simpl.
  destruct (attempt_loop _ _ _ range) as [r log]. simpl in IH.
  destruct (session_get url headers j) as [e|resp]; simpl.
  - by repeat constructor.
  - repeat case_match; simpl; by repeat constructor.
Qed.

(** The loop on the attempt that is answered. *)
Lemma fetch_answered url etag k resp :
  answered url etag k resp →
  fetch_conditional url etag
  = ((attempt_loop url etag (request_headers etag) (k :: seq (S k) (RETRIES - k))).1,
     raised_log url (request_headers etag) (seq 1 (k - 1))
     ++ (attempt_loop url etag (request_headers etag)
           (k :: seq (S k) (RETRIES - k))).2).
Proof.
  intros (Hk & Hraised & Hresp). unfold fetch_conditional.
  replace (seq 1 RETRIES) with (seq 1 (k - 1) ++ k :: seq (S k) (RETRIES - k)).
  - apply attempt_loop_raised. intros j Hj%elem_of_seq. apply Hraised. lia.
  - change (k :: seq (S k) (RETRIES - k)) with (seq k (S (RETRIES - k))).
    replace k with (1 + (k - 1))%nat at 2 by lia.
    rewrite <- seq_app. f_equal. lia.
Qed.

Lemma fetch_rejected url etag k resp :
  answered url etag k resp → 400 ≤ status resp →
  fetch_conditional url etag
  = (Result url etag (Some false) None None
       (Some ("HTTP " +:+ pretty (status resp))),
     raised_log url (request_headers etag) (seq 1 (k - 1))
     ++ [Get url (request_headers etag)]).
Proof.
  intros Hans Hst. rewrite (fetch_answered _ _ _ _ Hans).
  destruct Hans as (_ & _ & Hresp). cbn [attempt_loop].
  destruct (status resp =? 304) eqn:H304; [lia|].
  destruct (400 <=? status resp) eqn:H400; [|lia].
  rewrite Hresp. cbv beta iota zeta. by rewrite H304, H400.
Qed.

Lemma fetch_changed url etag k resp xml_bytes :
  answered url etag k resp → status resp ≠ 304 → status resp < 400 →
  read resp = inl xml_bytes →
  fetch_conditional url etag
  = (Result url (new_etag_of resp) (Some true) None
       (Some (extract_metadata xml_bytes url)) None,
     raised_log url (request_headers etag) (seq 1 (k - 1))
     ++ [Get url (request_headers etag)]).
Proof.
  intros Hans H304 H400 Hread. rewrite (fetch_answered _ _ _ _ Hans).
  destruct Hans as (_ & _ & Hresp). cbn [attempt_loop].
  destruct (status resp =? 304) eqn:E304; [lia|].
  destruct (400 <=? status resp) eqn:E400; [lia|].
  rewrite Hresp. cbv beta iota zeta. by rewrite E304, E400, Hread.
Qed.

Lemma fetch_unreachable url etag :
  unreachable url etag →
  fetch_conditional url etag
  = (Result url etag None None None (Some "Failed after retries"),
     raised_log url (request_headers etag) (seq 1 RETRIES)).
Proof.
  intros Hun. unfold fetch_conditional.
  rewrite <- (app_nil_r (seq 1 RETRIES)) at 1.
  rewrite attempt_loop_raised; [by rewrite app_nil_r|].
  intros j Hj%elem_of_seq. apply Hun. lia.
Qed.

Lemma requests_to_answered_log url headers k :
  (1 ≤ k)%nat →
  requests_to url (raised_log url headers (seq 1 (k - 1)) ++ [Get url headers]) = k.
Proof.
  intros Hk. rewrite requests_to_app, requests_to_raised_log, length_seq.
  unfold requests_to. rewrite filter_cons. simpl.
  rewrite bool_decide_eq_true_2 by done. rewrite decide_True by done.
  simpl. lia.
Qed.

End fetch_facts.

(** ** One run of [main] *)

Section list_facts.
Context {A B : Type} `{EqDecision B} (f : A → B).

Lemma filter_unique (l : list A) (x : A) :
  NoDup (f <$> l) → x ∈ l → filter (λ y, f y = f x) l = [x].
Proof.
  induction l as [|y l IH]; intros Hnd Hx; [by apply elem_of_nil in Hx|].
  rewrite fmap_cons in Hnd. apply NoDup_cons in Hnd as [Hy Hnd].
  rewrite filter_cons. apply elem_of_cons in Hx as [->|Hx].
  - rewrite decide_True by done. f_equal.
    apply elem_of_nil_inv. intros z [Hz Hin]%list_elem_of_filter.
    apply Hy. rewrite <- Hz. by apply list_elem_of_fmap_2.
  - rewrite decide_False; [by apply IH|].
    intros Heq. apply Hy. rewrite Heq. by apply list_elem_of_fmap_2.
Qed.

Lemma filter_absent (l : list A) (b : B) :
  b ∉ f <$> l → filter (λ y, f y = b) l = [].
Proof.
  intros Hb. apply elem_of_nil_inv. intros z [Hz Hin]%list_elem_of_filter.
  apply Hb. rewrite <- Hz. by apply list_elem_of_fmap_2.
Qed.

Lemma join_cons (l : list A) (ls : list (list A)) : mjoin (l :: ls) = l ++ mjoin ls.
Proof. done. Qed.

End list_facts.

Section run_facts.
Import Store MetadataScraper.
Context `{Environment}.
Hypothesis completion_reorders : reorders.

Implicit Types (w : world) (d : db) (r : result) (rs : list result)
  (url : string) (etag : option string).

Lemma active_lookup d url etag :
  load_active_etags d !! url = Some etag
  ↔ ∃ row, d !! url = Some row ∧ deleted row = 0 ∧ etag = Store.etag row.
Proof.
  unfold load_active_etags. rewrite lookup_fmap, fmap_Some.
  setoid_rewrite map_lookup_filter_Some. naive_solver.
Qed.

(** The items [run_batched] works on. *)
Lemma items_NoDup (etag_map : gmap string (option string)) :
  NoDup (completion (map_to_list etag_map)).*1.
Proof.
  rewrite (completion_reorders (map_to_list etag_map)).
  apply NoDup_fst_map_to_list.
Qed.

Lemma items_elem_of (etag_map : gmap string (option string)) url etag :
  (url, etag) ∈ completion (map_to_list etag_map) ↔ etag_map !! url = Some etag.
Proof.
  rewrite (completion_reorders (map_to_list etag_map)).
  apply elem_of_map_to_list.
Qed.

Lemma run_batched_urls (etag_map : gmap string (option string)) :
  r_url <$> run_batched etag_map = (completion (map_to_list etag_map)).*1.
Proof.
  unfold run_batched, run_batched_log.
  rewrite <- !list_fmap_compose. apply list_fmap_ext.
  intros i [url etag] _. simpl. apply attempt_loop_url.
Qed.

Lemma run_batched_NoDup (etag_map : gmap string (option string)) :
  NoDup (r_url <$> run_batched etag_map).
Proof. rewrite run_batched_urls. apply items_NoDup. Qed.

Lemma run_batched_elem_of (etag_map : gmap string (option string)) url etag :
  etag_map !! url = Some etag →
  (fetch_conditional url etag).1 ∈ run_batched etag_map.
Proof.
  intros Hin%items_elem_of. unfold run_batched, run_batched_log.
  rewrite <- list_fmap_compose.
  apply (list_elem_of_fmap_2' _ _ (url, etag)); done.
Qed.

(** One outcome per URL. *)
Lemma run_batched_one (etag_map : gmap string (option string)) url etag :
  etag_map !! url = Some etag →
  filter (λ r, r_url r = url) (run_batched etag_map)
  = [(fetch_conditional url etag).1].
Proof.
  intros Hin.
  pose proof (filter_unique r_url (run_batched etag_map)
                (fetch_conditional url etag).1
                (run_batched_NoDup etag_map)
                (run_batched_elem_of _ _ _ Hin)) as Hone.
  by rewrite fetch_conditional_url in Hone.
Qed.

Lemma run_batched_none (etag_map : gmap string (option string)) url :
  etag_map !! url = None → filter (λ r, r_url r = url) (run_batched etag_map) = [].
Proof.
  intros Hnone. apply filter_absent. rewrite run_batched_urls.
  intros ([u e] & -> & Hin)%list_elem_of_fmap. apply items_elem_of in Hin.
  simpl in Hnone. congruence.
Qed.

(** The requests of a run to one URL are those of its one fetch. *)
Lemma requests_to_items url etag (items : list (string * option string)) :
  NoDup items.*1 → (url, etag) ∈ items →
  requests_to url (mjoin ((λ item, (fetch_conditional item.1 item.2).2) <$> items))
  = requests_to url (fetch_conditional url etag).2.
Proof.
  induction items as [|[u e] items IH]; intros Hnd Hin;
    [by apply elem_of_nil in Hin|].
  rewrite fmap_cons in Hnd. apply NoDup_cons in Hnd as [Hu Hnd].
  rewrite fmap_cons, join_cons, requests_to_app. simpl.
  apply elem_of_cons in Hin as [[= <- <-]|Hin].
  - assert (Hrest : requests_to url
              (mjoin ((λ item, (fetch_conditional item.1 item.2).2) <$> items))
              = 0%nat).
    { clear IH Hnd. induction items as [|[u' e'] items IH]; [done|].
      rewrite fmap_cons, join_cons, requests_to_app. simpl.
      rewrite fmap_cons in Hu. apply not_elem_of_cons in Hu as [Hne Hu].
      rewrite IH by done. unfold fetch_conditional.
      rewrite attempt_loop_other by done. done. }
    rewrite Hrest. lia.
  - assert (u ≠ url).
    { intros ->. apply Hu. by apply (list_elem_of_fmap_2' _ _ (url, etag)). }
    unfold fetch_conditional at 1. rewrite attempt_loop_other by done.
    by rewrite IH.
Qed.

(** The store updates of [main]. *)
Lemma update_loop_other k rs d url :
  url ∉ r_url <$> rs → update_loop k rs d !! url = d !! url.
Proof.
  revert k d. induction rs as [|r rs IH]; intros k d Hurl; [done|].
  rewrite fmap_cons in Hurl. apply not_elem_of_cons in Hurl as [Hne Hurl].
  cbn [update_loop]. rewrite IH by done.
  unfold update_etag_record, set_etag. by rewrite lookup_alter_ne.
Qed.

Lemma update_loop_this k rs d r :
  NoDup (r_url <$> rs) → r ∈ rs →
  ∃ i, update_loop k rs d !! r_url r
       = (λ row, Row (r_etag r) (Some (now i)) (deleted row)) <$> d !! r_url r.
Proof.
  revert k d. induction rs as [|x rs IH]; intros k d Hnd Hin;
    [by apply elem_of_nil in Hin|].
  rewrite fmap_cons in Hnd. apply NoDup_cons in Hnd as [Hx Hnd].
  cbn [update_loop]. apply elem_of_cons in Hin as [->|Hin].
  - exists k. rewrite update_loop_other by done.
    unfold update_etag_record, set_etag. by rewrite lookup_alter_eq.
  - destruct (IH (S k) (update_etag_record k (r_url x) (r_etag x) d) Hnd Hin)
      as [i Hi].
    exists i. rewrite Hi. unfold update_etag_record, set_etag.
    rewrite lookup_alter_ne; [done|].
    intros Heq. apply Hx. rewrite Heq. by apply list_elem_of_fmap_2.
Qed.

Lemma touched_NoDup rs :
  NoDup (r_url <$> rs) → NoDup (r_url <$> (changed_of rs ++ unchanged_of rs)).
Proof.
  intros Hnd. rewrite fmap_app. apply NoDup_app. split; [|split].
  - eapply sublist_NoDup; [done|]. apply fmap_sublist, sublist_filter.
  - intros u (r1 & -> & [Hc1 Hin1]%list_elem_of_filter)%list_elem_of_fmap
             (r2 & Heq & [Hc2 Hin2]%list_elem_of_filter)%list_elem_of_fmap.
    pose proof (filter_unique r_url rs r1 Hnd Hin1) as Hone.
    assert (r2 ∈ filter (λ y, r_url y = r_url r1) rs) as Hr2
      by (by apply list_elem_of_filter).
    rewrite Hone in Hr2. apply list_elem_of_singleton in Hr2 as ->. congruence.
  - eapply sublist_NoDup; [done|]. apply fmap_sublist, sublist_filter.
Qed.

(** A URL with an outcome that carries a [changed] key has its row rewritten
    with the outcome's indicator and a fresh timestamp. *)
Lemma main_touches w url etag :
  load_active_etags (etags w) !! url = Some etag →
  is_Some (r_changed (fetch_conditional url etag).1) →
  ∃ i, etags (main w).1 !! url
       = (λ row, Row (r_etag (fetch_conditional url etag).1) (Some (now i))
                   (deleted row)) <$> etags w !! url.
Proof.
  intros Hact [b Hb]. unfold main; simpl.
  set (rs := run_batched (load_active_etags (etags w))).
  assert (Hin : (fetch_conditional url etag).1 ∈ changed_of rs ++ unchanged_of rs).
  { apply elem_of_app. unfold changed_of, unchanged_of.
    rewrite !list_elem_of_filter.
    pose proof (run_batched_elem_of _ _ _ Hact). destruct b; auto. }
  destruct (update_loop_this 0 _ (etags w) _
              (touched_NoDup rs (run_batched_NoDup _)) Hin) as [i Hi].
  exists i. by rewrite fetch_conditional_url in Hi.
Qed.

(** Every other row is left as it was. *)
Lemma main_leaves w url :
  (∀ etag, load_active_etags (etags w) !! url = Some etag →
           r_changed (fetch_conditional url etag).1 = None) →
  etags (main w).1 !! url = etags w !! url.
Proof.
  intros Hun. unfold main; simpl. apply update_loop_other.
  intros (r & Hurl & Hin)%list_elem_of_fmap.
  assert (Hrs : r ∈ run_batched (load_active_etags (etags w))
                ∧ is_Some (r_changed r)).
  { apply elem_of_app in Hin as [Hin|Hin];
      apply list_elem_of_filter in Hin as [Hc Hin]; eauto. }
  destruct Hrs as [Hrs [b Hb]].
  assert (r ∈ filter (λ r', r_url r' = url)
                (run_batched (load_active_etags (etags w)))) as Hr
    by (by apply list_elem_of_filter).
  destruct (load_active_etags (etags w) !! url) as [etag|] eqn:Hact.
  - rewrite (run_batched_one _ _ _ Hact) in Hr.
    apply list_elem_of_singleton in Hr. subst r.
    rewrite (Hun _ eq_refl) in Hb. done.
  - rewrite (run_batched_none _ _ Hact) in Hr. by apply elem_of_nil in Hr.
Qed.

End run_facts.

Section run_claims.
Import Store MetadataScraper.
Context `{Environment}.
Hypothesis completion_reorders : reorders.

Implicit Types (w : world) (url : string) (row : Store.row) (resp : response).

Lemma active_row w url row :
  etags w !! url = Some row → deleted row = 0 →
  load_active_etags (etags w) !! url = Some (etag row).
Proof. intros Hrow Hdel. apply active_lookup. eauto. Qed.

(** C4, as the code has it: a fetch answered with a status of 400 or more
    ends at that answer, with no further request, in the outcome
    [{url, etag, changed: False, error: "HTTP <status>"}], the only outcome of
    the run for that URL.  Because the outcome carries [changed: False],
    [main] updates the row like that of an unchanged document: the indicator
    is written back as it was, the active flag is not touched, and
    [last_checked] is set to the time of the update. *)
Theorem rejected_outcome w url row (k : nat) resp :
  etags w !! url = Some row → deleted row = 0 →
  answered url (etag row) k resp → 400 ≤ status resp →
  let outcome := fetch_conditional url (etag row) in
  outcome.1 = Result url (etag row) (Some false) None None
                (Some ("HTTP " +:+ pretty (status resp)))
  ∧ requests_to url outcome.2 = k
  ∧ last outcome.2 = Some (Get url (request_headers (etag row)))
  ∧ filter (λ r, r_url r = url) (run_batched (load_active_etags (etags w)))
    = [outcome.1]
  ∧ ∃ i, etags (main w).1 !! url
         = Some (Row (etag row) (Some (now i)) (deleted row)).
Proof.
  intros Hrow Hdel Hans Hst outcome. subst outcome.
  pose proof (active_row _ _ _ Hrow Hdel) as Hact.
  pose proof (main_touches completion_reorders w url (etag row) Hact) as Hmain.
  rewrite (run_batched_one completion_reorders _ _ _ Hact).
  rewrite (fetch_rejected _ _ _ _ Hans Hst) in *. cbn [fst snd] in *.
  split; [done|]. split.
  { apply requests_to_answered_log. by destruct Hans as [[? _] _]. }
  split; [apply last_snoc|]. split; [done|].
  destruct Hmain as [i Hi]; [by eexists|].
  exists i. by rewrite Hi, Hrow.
Qed.

(** C6: when every [session.get] for a URL raises, the fetch makes exactly
    [RETRIES] requests, which are all the requests of the run to that URL,
    and ends in the outcome [{url, etag, error: "Failed after retries"}], the
    only outcome of the run for that URL; [main] leaves the row as it was. *)
Theorem failed_outcome w url row :
  etags w !! url = Some row → deleted row = 0 →
  unreachable url (etag row) →
  let outcome := fetch_conditional url (etag row) in
  outcome.1 = Result url (etag row) None None None (Some "Failed after retries")
  ∧ requests_to url outcome.2 = RETRIES
  ∧ requests_to url
      (mjoin (run_batched_log (load_active_etags (etags w))).*2) = RETRIES
  ∧ filter (λ r, r_url r = url) (run_batched (load_active_etags (etags w)))
    = [outcome.1]
  ∧ etags (main w).1 !! url = Some row.
Proof.
  intros Hrow Hdel Hun outcome. subst outcome.
  pose proof (active_row _ _ _ Hrow Hdel) as Hact.
  assert (Hreq : requests_to url (fetch_conditional url (etag row)).2 = RETRIES).
  { rewrite (fetch_unreachable _ _ Hun). cbn [snd].
    by rewrite requests_to_raised_log, length_seq. }
  split; [by rewrite (fetch_unreachable _ _ Hun)|]. split; [done|]. split.
  { unfold run_batched_log. rewrite <- list_fmap_compose.
    rewrite <- Hreq. apply requests_to_items.
    - apply (items_NoDup completion_reorders).
    - by apply (items_elem_of completion_reorders). }
  split; [by apply run_batched_one|].
  rewrite <- Hrow. apply (main_leaves completion_reorders).
  intros etag Hetag. rewrite Hact in Hetag. injection Hetag as <-.
  by rewrite (fetch_unreachable _ _ Hun).
Qed.

(** C10: a fetch answered with a body, a status that is neither 304 nor an
    error, and no [ETag] header ends in a [changed] outcome with an extracted
    record and the indicator [None]; [main] stores [None] as the row's
    indicator; the next run loads the URL with indicator [None], and every
    request of a fetch with that indicator carries [HEADERS] alone, without
    [If-None-Match]. *)
Theorem changed_without_indicator w url row (k : nat) resp
    (xml_bytes : list Byte.byte) :
  etags w !! url = Some row → deleted row = 0 →
  answered url (etag row) k resp →
  status resp ≠ 304 → status resp < 400 →
  etag_header resp = None → read resp = inl xml_bytes →
  let outcome := fetch_conditional url (etag row) in
  outcome.1 = Result url None (Some true) None
                (Some (extract_metadata xml_bytes url)) None
  ∧ (∃ i, etags (main w).1 !! url = Some (Row None (Some (now i)) (deleted row)))
  ∧ load_active_etags (etags (main w).1) !! url = Some None
  ∧ request_headers None = HEADERS
  ∧ HEADERS !! "If-None-Match" = None
  ∧ Forall (λ ev, match ev with
                  | Get u h => u = url ∧ h = HEADERS
                  | Sleep _ => True
                  end) (fetch_conditional url None).2.
Proof.
  intros Hrow Hdel Hans H304 H400 Hhdr Hread outcome. subst outcome.
  pose proof (active_row _ _ _ Hrow Hdel) as Hact.
  pose proof (main_touches completion_reorders w url (etag row) Hact) as Hmain.
  rewrite (fetch_changed _ _ _ _ _ Hans H304 H400 Hread) in *.
  cbn [fst snd] in *. unfold new_etag_of in *. rewrite Hhdr in *.
  destruct Hmain as [i Hi]; [by eexists|]. rewrite Hrow in Hi. simpl in Hi.
  split; [done|]. split; [by exists i|]. split.
  { apply active_lookup. eexists. split; [exact Hi|]. by split. }
  split; [done|]. split; [done|].
  apply (attempt_loop_headers url None (request_headers None)).
Qed.

End run_claims.

(** ** Documents that do not parse *)

Section parse_failure_claims.
Import Store MetadataScraper.
Context `{Environment}.
Hypothesis completion_reorders : reorders.

Implicit Types (w : world) (url : string) (m first : metadata)
  (rs : list result).

Lemma extract_metadata_source (xml_bytes : list Byte.byte) url :
  source_of (extract_metadata xml_bytes url) = url.
Proof. unfold extract_metadata. by destruct (etree_fromstring xml_bytes). Qed.

Lemma attempt_loop_metadata url etag headers (range : list nat) m :
  r_metadata (attempt_loop url etag headers range).1 = Some m → source_of m = url.
Proof.
  induction range as [|j range IH]; [done|]. simpl.
  destruct (attempt_loop _ _ _ range) as [r log]. simpl in IH.
  destruct (session_get url headers j) as [e|resp]; [done|].
  repeat case_match; simpl; try done.
  intros [= <-]. apply extract_metadata_source.
Qed.

Lemma run_batched_metadata (etag_map : gmap string (option string)) r m :
  r ∈ run_batched etag_map → r_metadata r = Some m → source_of m = r_url r.
Proof.
  unfold run_batched, run_batched_log. rewrite <- list_fmap_compose.
  intros ([u e] & -> & _)%list_elem_of_fmap. simpl.
  rewrite fetch_conditional_url. apply attempt_loop_metadata.
Qed.

(** New records are keyed by URLs of the run, each at most once. *)
Lemma new_records_sources rs :
  (∀ r m, r ∈ rs → r_metadata r = Some m → source_of m = r_url r) →
  source_of <$> new_records_of rs `sublist_of` r_url <$> rs.
Proof.
  unfold new_records_of, changed_of.
  induction rs as [|r rs IH]; intros Hsrc; [constructor|].
  assert (IH' : source_of <$> omap r_metadata (filter (λ r, r_changed r = Some true) rs)
                `sublist_of` r_url <$> rs).
  { apply IH. intros r' m' Hin. apply Hsrc. by right. }
  rewrite filter_cons, fmap_cons. case_decide; [|by constructor].
  simpl. destruct (r_metadata r) as [m|] eqn:Hm; [|by constructor].
  rewrite fmap_cons, (Hsrc r m); [by constructor | left | done].
Qed.

(** The row of a record in the table [main] stores: the only one of its
    source, under the columns of the first new record. *)
Lemma save_row (new_records : list metadata) m first
    (parquet : option (list table_row)) :
  NoDup (source_of <$> new_records) → m ∈ new_records →
  head new_records = Some first →
  ∃ table,
    save new_records parquet = Some table
    ∧ filter (λ r, key r = Some (source_of m)) table
      = [row_of (items first).*1 m].
Proof.
  intros Hnd Hin Hhead.
  pose proof (filter_new_rows new_records first (source_of m) Hhead) as Hrows.
  rewrite (filter_unique source_of new_records m Hnd Hin) in Hrows.
  rewrite list_fmap_singleton in Hrows.
  destruct new_records as [|first' rest] eqn:Hnew; [done|].
  rewrite <- Hnew in *. clear Hhead.
  assert (Hsave : save new_records parquet
                  = Some (match parquet with
                          | Some existing => merge existing new_records
                          | None => from_pylist new_records
                          end)).
  { rewrite Hnew. simpl. by destruct parquet. }
  eexists. split; [exact Hsave|].
  destruct parquet as [existing|]; [|done].
  unfold merge. rewrite drop_duplicates_last_filter, filter_app, Hrows.
  by rewrite last_snoc.
Qed.

(** The cells of the row of an error record: its source, and its error when
    the first record of the batch is an error record too. *)
Lemma invalid_row first url error :
  row_of (items first).*1 (Invalid url error)
  = match first with
    | Fields _ _ _ _ _ _ _ => {[ "source" := url ]}
    | Invalid _ _ => {[ "source" := url; "error" := error ]}
    end.
Proof. by destruct first. Qed.

(** What [main] stores for a document that does not parse: extraction
    returns [{source, error}], the record is the metadata of the changed
    outcome and is among the new records, and the one row of the table for
    the URL holds the error exactly when the first new record of the run is
    an error record. *)
Lemma invalid_document_row w url (row : Store.row) (k : nat)
    (resp : response) (xml_bytes : list Byte.byte) (e : string) first :
  etags w !! url = Some row → deleted row = 0 →
  answered url (etag row) k resp →
  status resp ≠ 304 → status resp < 400 → read resp = inl xml_bytes →
  etree_fromstring xml_bytes = inr e →
  head (new_records_of (run_batched (load_active_etags (etags w)))) = Some first →
  let record := Invalid url ("Invalid XML: " +:+ e) in
  extract_metadata xml_bytes url = record
  ∧ (r_changed (fetch_conditional url (etag row)).1 = Some true
     ∧ r_metadata (fetch_conditional url (etag row)).1 = Some record)
  ∧ record ∈ new_records_of (run_batched (load_active_etags (etags w)))
  ∧ ∃ table,
      parquet (main w).1 = Some table
      ∧ filter (λ r, key r = Some url) table
        = [match first with
           | Fields _ _ _ _ _ _ _ => {[ "source" := url ]}
           | Invalid _ _ =>
               {[ "source" := url; "error" := "Invalid XML: " +:+ e ]}
           end].
Proof.
  intros Hrow Hdel Hans H304 H400 Hread Hparse Hhead record. subst record.
  pose proof (active_row w url row Hrow Hdel) as Hact.
  assert (Hex : extract_metadata xml_bytes url = Invalid url ("Invalid XML: " +:+ e))
    by (unfold extract_metadata; by rewrite Hparse).
  pose proof (fetch_changed _ _ _ _ _ Hans H304 H400 Hread) as Hfetch.
  rewrite Hex in Hfetch.
  assert (Hnew : Invalid url ("Invalid XML: " +:+ e)
                 ∈ new_records_of (run_batched (load_active_etags (etags w)))).
  { unfold new_records_of, changed_of. apply list_elem_of_omap.
    exists (fetch_conditional url (etag row)).1. split.
    - apply list_elem_of_filter. split; [by rewrite Hfetch|].
      by apply run_batched_elem_of.
    - by rewrite Hfetch. }
  split; [done|]. split; [by rewrite Hfetch|]. split; [done|].
  destruct (save_row _ _ first (parquet w)
              (sublist_NoDup _ _
                 (run_batched_NoDup completion_reorders _)
                 (new_records_sources _
                    (run_batched_metadata (load_active_etags (etags w)))))
              Hnew Hhead) as (table & Hsave & Hfilter).
  exists table. split; [exact Hsave|].
  by rewrite <- invalid_row.
Qed.

(** C9 fails in the code: when the body of a response classified as changed
    does not parse, extraction returns the record
    [{source, error: "Invalid XML: ..."}] with none of the other named
    fields, the record is the metadata of the outcome and is among the new
    records of the run; but when the first new record of the run is a parsed
    one, the table [main] stores holds for the URL one row only, with the
    source as its single cell: the error is not written, and whatever the
    Parquet file held for the URL before is gone. *)
Theorem invalid_document_error_dropped w url (row : Store.row) (k : nat)
    (resp : response) (xml_bytes : list Byte.byte) (e : string)
    (source : string) (uuid fileIdentifier title edition doi dateStamp : option string) :
  etags w !! url = Some row → deleted row = 0 →
  answered url (etag row) k resp →
  status resp ≠ 304 → status resp < 400 → read resp = inl xml_bytes →
  etree_fromstring xml_bytes = inr e →
  head (new_records_of (run_batched (load_active_etags (etags w))))
  = Some (Fields source uuid fileIdentifier title edition doi dateStamp) →
  let record := Invalid url ("Invalid XML: " +:+ e) in
  extract_metadata xml_bytes url = record
  ∧ (get record "source" = Some (Some url)
     ∧ get record "error" = Some (Some ("Invalid XML: " +:+ e))
     ∧ Forall (λ field, get record field = None)
         ["uuid"; "fileIdentifier"; "title"; "edition"; "doi"; "dateStamp"])
  ∧ (r_changed (fetch_conditional url (etag row)).1 = Some true
     ∧ r_metadata (fetch_conditional url (etag row)).1 = Some record)
  ∧ record ∈ new_records_of (run_batched (load_active_etags (etags w)))
  ∧ ∃ table,
      parquet (main w).1 = Some table
      ∧ filter (λ r, key r = Some url) table = [ {[ "source" := url ]} ]
      ∧ (∀ r, r ∈ table → key r = Some url → r !! "error" = None).
Proof.
  intros Hrow Hdel Hans H304 H400 Hread Hparse Hhead record. subst record.
  destruct (invalid_document_row w url row k resp xml_bytes e _
              Hrow Hdel Hans H304 H400 Hread Hparse Hhead)
    as (Hex & Hout & Hnew & table & Htable & Hfilter).
  split; [done|]. split.
  { split; [done|]. split; [done|]. by repeat constructor. }
  split; [done|]. split; [done|].
  exists table. split; [done|]. split; [done|].
  intros r Hr Hkey.
  assert (r ∈ filter (λ r, key r = Some url) table) as Hin
    by (by apply list_elem_of_filter).
  rewrite Hfilter in Hin. by apply list_elem_of_singleton in Hin as ->.
Qed.

End parse_failure_claims.

(** ** The properties on the concrete environment *)

Section run_examples.
Import Store MetadataScraper Scenario.

Lemma in_order_reorders : reorders (H := environment).
Proof. intros items. reflexivity. Defined.

Lemma answered_first (url : string) (etag : option string) (resp : response) :
  server url (request_headers etag) 1 = Responded resp →
  answered (H := environment) url etag 1 resp.
Proof.
  intros Hresp. split; [unfold RETRIES; lia|]. split; [|exact Hresp].
  intros j Hj. lia.
Defined.

(** The specification's scenario for the fetch: [A], never fetched, is
    served with indicator [e1]; [B] is unchanged. *)
Example scenario_fetch :
  (fetch "A" None).1
  = Result "A" (Some "e1") (Some true) None
      (Some (Fields "A" None None None None None None)) None
  ∧ (fetch "B" (Some "x1")).1
    = Result "B" (Some "x1") (Some false) (Some false) None None
  ∧ etags (run tracked).1 !! "A" = Some (Row (Some "e1") (Some "t0") 0)
  ∧ etags (run tracked).1 !! "B" = Some (Row (Some "x1") (Some "t4") 0).
Proof. by vm_compute. Qed.

Lemma rejected_outcome_witness :
  etags tracked !! "E" = Some (Row (Some "x2") None 0)
  ∧ 400 ≤ status (Response 404 None (inl []))
  ∧ requests_to "E" (fetch "E" (Some "x2")).2 = 1%nat.
Proof.
  split; [reflexivity|]. split; [simpl; lia|].
  exact (proj1 (proj2
    (rejected_outcome (H := environment) in_order_reorders tracked "E"
       (Row (Some "x2") None 0) 1 (Response 404 None (inl []))
       eq_refl eq_refl (answered_first "E" (Some "x2") _ eq_refl)
       ltac:(simpl; lia)))).
Defined.

(** C4 as the specification states it fails on [E], which the server refuses
    with 404: the run sets the row's [last_checked]. *)
Lemma rejected_counterexample :
  etags tracked !! "E" = Some (Row (Some "x2") None 0)
  ∧ (fetch "E" (Some "x2")).1
    = Result "E" (Some "x2") (Some false) None None (Some "HTTP 404")
  ∧ etags (run tracked).1 !! "E" = Some (Row (Some "x2") (Some "t3") 0)
  ∧ etags (run tracked).1 !! "E" ≠ etags tracked !! "E".
Proof.
  assert (Hafter : etags (run tracked).1 !! "E"
                   = Some (Row (Some "x2") (Some "t3") 0)) by (by vm_compute).
  split; [reflexivity|]. split; [by vm_compute|]. split; [exact Hafter|].
  rewrite Hafter. by vm_compute.
Qed.

Lemma failed_outcome_witness :
  etags tracked !! "F" = Some (Row (Some "x3") (Some "old") 0)
  ∧ unreachable (H := environment) "F" (Some "x3")
  ∧ etags (run tracked).1 !! "F" = Some (Row (Some "x3") (Some "old") 0).
Proof.
  assert (Hun : unreachable (H := environment) "F" (Some "x3")).
  { intros j _. eexists. reflexivity. }
  split; [reflexivity|]. split; [exact Hun|].
  exact (proj2 (proj2 (proj2 (proj2
    (failed_outcome (H := environment) in_order_reorders tracked "F"
       (Row (Some "x3") (Some "old") 0) eq_refl eq_refl Hun))))).
Defined.

Lemma changed_without_indicator_witness :
  etags tracked !! "N" = Some (Row (Some "x4") None 0)
  ∧ load_active_etags (etags (run tracked).1) !! "N" = Some None.
Proof.
  split; [reflexivity|].
  exact (proj1 (proj2 (proj2
    (changed_without_indicator (H := environment) in_order_reorders tracked "N"
       (Row (Some "x4") None 0) 1 (Response 200 None (inl body)) body
       eq_refl eq_refl (answered_first "N" (Some "x4") _ eq_refl)
       ltac:(simpl; lia) ltac:(simpl; lia) eq_refl eq_refl)))).
Defined.

Lemma invalid_document_error_dropped_witness :
  etags tracked !! "X" = Some (Row None None 0)
  ∧ parse [] = inr "Document is empty"
  ∧ head (new_records_of (run_batched (H := environment)
                            (load_active_etags (etags tracked))))
    = Some (Fields "A" None None None None None None)
  ∧ ∃ table,
      parquet (run tracked).1 = Some table
      ∧ filter (λ r, key r = Some "X") table = [ {[ "source" := "X" ]} ]
      ∧ (∀ r, r ∈ table → key r = Some "X" → r !! "error" = None).
Proof.
  split; [reflexivity|]. split; [reflexivity|]. split; [reflexivity|].
  exact (proj2 (proj2 (proj2 (proj2
    (invalid_document_error_dropped (H := environment) in_order_reorders
       tracked "X" (Row None None 0) 1 (Response 200 (Some "e9") (inl [])) []
       "Document is empty" "A" None None None None None None
       eq_refl eq_refl (answered_first "X" None _ eq_refl)
       ltac:(simpl; lia) ltac:(simpl; lia) eq_refl eq_refl eq_refl))))).
Defined.

(** The table of that run: the first changed document parses, so the table
    has its columns, and the row of [X] keeps its source but not its
    [error]. *)
Example scenario_table :
  parquet (run tracked).1
  = Some [ {[ "source" := "A" ]}; {[ "source" := "N" ]}; {[ "source" := "X" ]} ].
Proof. by vm_compute. Qed.

(** The same run on a Parquet file that holds a row of [X] from an earlier
    run: the row gives way to the bare one. *)
Example scenario_table_overwritten :
  parquet (run (World (etags tracked)
                  (Some [ {[ "source" := "X"; "title" := "Sea ice" ]} ]))).1
  = Some [ {[ "source" := "A" ]}; {[ "source" := "N" ]}; {[ "source" := "X" ]} ].
Proof. by vm_compute. Qed.

Lemma merge_keeps_last_witness :
  Fields "Z" None None (Some "t") None None None
  ∈ [ Invalid "A" "bad"; Fields "Z" None None (Some "t") None None None;
      Invalid "Z" "bad" ]
  ∧ ∃ first m,
      head [ Invalid "A" "bad"; Fields "Z" None None (Some "t") None None None;
             Invalid "Z" "bad" ] = Some first
      ∧ last (filter (λ m, source_of m = "Z")
                [ Invalid "A" "bad"; Fields "Z" None None (Some "t") None None None;
                  Invalid "Z" "bad" ]) = Some m
      ∧ filter (λ r, key r = Some "Z")
          (merge [ {[ "source" := "A"; "title" := "old" ]}; {[ "source" := "Q" ]} ]
             [ Invalid "A" "bad"; Fields "Z" None None (Some "t") None None None;
               Invalid "Z" "bad" ])
        = [row_of (items first).*1 m].
Proof.
  assert (Hin : Fields "Z" None None (Some "t") None None None
                ∈ [ Invalid "A" "bad"; Fields "Z" None None (Some "t") None None None;
                    Invalid "Z" "bad" ]) by (right; left).
  split; [exact Hin|].
  exact (proj1 (proj2 (proj2 (proj2 (proj2
    (merge_keeps_last
       [ {[ "source" := "A"; "title" := "old" ]}; {[ "source" := "Q" ]} ]
       [ Invalid "A" "bad"; Fields "Z" None None (Some "t") None None None;
         Invalid "Z" "bad" ]
       (Invalid "A" "bad") None))))) _ Hin).
Defined.

(** The merge on a table with rows for [A] and [Q] and three new records, one
    for [A] and two for [Z]: the old row of [A] and the first record of [Z]
    give way to the later ones. *)
Example merge_example :
  merge [ {[ "source" := "A"; "title" := "old" ]}; {[ "source" := "Q" ]} ]
    [ Invalid "A" "bad"; Fields "Z" None None (Some "t") None None None;
      Invalid "Z" "bad" ]
  = [ {[ "source" := "Q" ]}; {[ "source" := "A"; "error" := "bad" ]};
      {[ "source" := "Z"; "error" := "bad" ]} ].
Proof. by vm_compute. Qed.

End run_examples.

(** * Further properties of the code *)

(** ** The registry under reconciliation *)

Section registry_properties.
Import Store UrlScraper.
Variable set_iter : gset string → list string.
Hypothesis set_iter_enumerates : enumerates set_iter.

Implicit Types (d : db) (u : string) (current_urls : list string).

(** Reconciliation never removes a row: the URLs of the table afterwards are
    the known URLs together with the crawled ones. *)
Theorem registry_never_shrinks current_urls d :
  dom (update_database_from_waf set_iter current_urls d).1
  = dom d ∪ list_to_set current_urls.
Proof.
  apply set_eq. intros u.
  rewrite elem_of_dom, update_lookup, elem_of_union, elem_of_dom by done.
  rewrite elem_of_list_to_set.
  case_decide; [split; eauto|].
  rewrite fmap_is_Some. naive_solver.
Qed.

(** Reconciliation touches nothing but the [deleted] flag of a known row: the
    indicator and the time of the last check stay; and a URL seen for the
    first time gets the row [(NULL, NULL, 0)]. *)
Theorem reconcile_keeps_history current_urls d u :
  match d !! u with
  | Some r =>
      ∃ r', (update_database_from_waf set_iter current_urls d).1 !! u = Some r'
            ∧ etag r' = etag r ∧ last_checked r' = last_checked r
  | None =>
      (update_database_from_waf set_iter current_urls d).1 !! u
      = if decide (u ∈ current_urls) then Some (Row None None 0) else None
  end.
Proof.
  rewrite update_lookup by done.
  destruct (d !! u) as [r|]; simpl.
  - repeat case_decide; eauto.
  - by case_decide.
Qed.

(** When every flag of the table is 0 or 1, it is so afterwards, and the
    active URLs, those [load_active_etags] returns, are exactly the crawled
    ones. *)
Theorem crawl_is_ground_truth current_urls d :
  (∀ u r, d !! u = Some r → deleted r = 0 ∨ deleted r = 1) →
  (∀ u r, (update_database_from_waf set_iter current_urls d).1 !! u = Some r →
          deleted r = 0 ∨ deleted r = 1)
  ∧ dom (load_active_etags (update_database_from_waf set_iter current_urls d).1)
    = list_to_set current_urls.
Proof.
  intros Hflags. split.
  - intros u r. rewrite update_lookup by done.
    destruct (d !! u) as [r0|] eqn:Hu; simpl.
    + specialize (Hflags u r0 Hu).
      repeat case_decide; intros [= <-]; simpl; auto.
    + case_decide; [|done]. intros [= <-]. auto.
  - apply set_eq. intros u.
    rewrite elem_of_dom, elem_of_list_to_set. unfold is_Some.
    setoid_rewrite active_lookup. setoid_rewrite update_lookup; [|done..].
    destruct (d !! u) as [r0|] eqn:Hu; simpl.
    + specialize (Hflags u r0 Hu). split.
      * intros (e & r & Hr & Hdel & _). revert Hr.
        repeat case_decide; try done; intros [= <-]; simpl in *; lia.
      * intros Hin. rewrite decide_True by done.
        case_decide; eexists _, _; (split; [done|]); simpl; split; try done; lia.
    + split.
      * intros (e & r & Hr & _). by case_decide.
      * intros Hin. rewrite decide_True by done. by eexists _, _.
Qed.

Lemma empty_crawl_lookup d u :
  (update_database_from_waf set_iter [] d).1 !! u
  = (λ r, Row (etag r) (last_checked r) 1) <$> d !! u.
Proof.
  rewrite update_lookup by done.
  by rewrite decide_False by (by intros ?%elem_of_nil).
Qed.

Lemma empty_crawl_no_active d :
  load_active_etags (update_database_from_waf set_iter [] d).1 = ∅.
Proof.
  apply map_eq. intros u. rewrite lookup_empty.
  destruct (load_active_etags _ !! u) as [e|] eqn:He; [|done].
  apply active_lookup in He as (r & Hr & Hdel & _).
  rewrite empty_crawl_lookup in Hr.
  destruct (d !! u) as [r0|]; simplify_eq/=.
Qed.

(** An empty crawl result marks every known URL deleted, whatever its flag
    was: nothing is added or reactivated, the deactivated list is the sorted
    list of all known URLs, and no URL is active afterwards. *)
Theorem empty_crawl_deactivates_all d :
  added (update_database_from_waf set_iter [] d).2 = []
  ∧ reactivated (update_database_from_waf set_iter [] d).2 = []
  ∧ deactivated (update_database_from_waf set_iter [] d).2
    = Py.sorted (set_iter (dom d))
  ∧ (∀ u r, d !! u = Some r →
       (update_database_from_waf set_iter [] d).1 !! u
       = Some (Row (etag r) (last_checked r) 1))
  ∧ load_active_etags (update_database_from_waf set_iter [] d).1 = ∅.
Proof.
  rewrite update_changes. unfold added, reactivated, deactivated; simpl.
  replace ((∅ : gset string) ∖ dom d) with (∅ : gset string) by set_solver.
  replace ((∅ : gset string) ∩ dom d) with (∅ : gset string) by set_solver.
  replace (dom d ∖ (∅ : gset string)) with (dom d) by set_solver.
  rewrite enumerates_empty by done.
  split; [done|]. split; [done|]. split; [done|].
  split; [|apply empty_crawl_no_active].
  intros u r Hu. by rewrite empty_crawl_lookup, Hu.
Qed.

End registry_properties.

(** ** The crawl *)

Section fetch_html_properties.
Import UrlScraper Crawler.
Variable page_get : string → nat → page_outcome.

Implicit Types (url : string) (range : list nat) (log : list crawl_event).

Lemma fetches_cons (ev : crawl_event) log :
  fetches (ev :: log) = ((if is_fetch ev then 1 else 0) + fetches log)%nat.
Proof.
  unfold fetches. rewrite filter_cons.
  destruct ev; cbn [is_fetch];
    [rewrite decide_True by done | rewrite decide_False by done]; done.
Qed.

Lemma waits_cons (ev : crawl_event) log :
  waits (ev :: log) = ((if is_fetch ev then 0 else 1) + waits log)%nat.
Proof.
  unfold waits. rewrite filter_cons.
  destruct ev; cbn [is_fetch];
    [rewrite decide_False by done | rewrite decide_True by done]; done.
Qed.

Lemma fetch_loop_counts url (a n : nat) :
  (a + n = S RETRIES)%nat → (1 ≤ n)%nat →
  (1 ≤ fetches (fetch_loop page_get url (seq a n)).2 ≤ n)%nat
  ∧ S (waits (fetch_loop page_get url (seq a n)).2)
    = fetches (fetch_loop page_get url (seq a n)).2.
Proof.
  revert a. induction n as [|n IH]; intros a Han Hn; [lia|].
  cbn [seq fetch_loop].
  assert (Hone : ∀ r : string + string,
            (1 ≤ fetches (r, [Fetch url]).2 ≤ S n)%nat
            ∧ S (waits (r, [Fetch url]).2) = fetches (r, [Fetch url]).2).
  { intros r. cbn [snd]. rewrite fetches_cons, waits_cons.
    unfold fetches, waits. simpl. lia. }
  assert (Hfailed :
    (1 ≤ fetches (if (a <? RETRIES)%nat
                  then let '(r, log) := fetch_loop page_get url (seq (S a) n) in
                       (r, Fetch url :: Wait a :: log)
                  else (inl "", [Fetch url])).2 ≤ S n)%nat
    ∧ S (waits (if (a <? RETRIES)%nat
                then let '(r, log) := fetch_loop page_get url (seq (S a) n) in
                     (r, Fetch url :: Wait a :: log)
                else (inl "", [Fetch url])).2)
      = fetches (if (a <? RETRIES)%nat
                 then let '(r, log) := fetch_loop page_get url (seq (S a) n) in
                      (r, Fetch url :: Wait a :: log)
                 else (inl "", [Fetch url])).2).
  { destruct (a <? RETRIES)%nat eqn:Ha; [|apply Hone].
    apply Nat.ltb_lt in Ha.
    destruct (IH (S a)) as [Hf Hw]; [lia..|].
    destruct (fetch_loop page_get url (seq (S a) n)) as [r log].
    cbn [snd] in *. rewrite !fetches_cons, !waits_cons. simpl. lia. }
  destruct (page_get url a) as [[e|e]|status [t|[e|e]]];
    try exact Hfailed; try apply Hone; case_decide;
    try exact Hfailed; apply Hone.
Qed.

Lemma fetch_loop_result url range :
  (fetch_loop page_get url range).1 = inl ""
  ∨ (∃ k t, k ∈ range ∧ page_get url k = PageResponded 200 (inl t)
            ∧ (fetch_loop page_get url range).1 = inl t)
  ∨ (∃ k e, k ∈ range ∧ escapes page_get url k e
            ∧ (fetch_loop page_get url range).1 = inr e).
Proof.
  induction range as [|a range IH]; [by left|]. cbn [fetch_loop].
  set (failed := if (a <? RETRIES)%nat
                 then let '(r, log) := fetch_loop page_get url range in
                      (r, Fetch url :: Wait a :: log)
                 else (inl "", [Fetch url])).
  assert (Hfailed :
    failed.1 = inl ""
    ∨ (∃ k t, k ∈ a :: range ∧ page_get url k = PageResponded 200 (inl t)
              ∧ failed.1 = inl t)
    ∨ (∃ k e, k ∈ a :: range ∧ escapes page_get url k e ∧ failed.1 = inr e)).
  { subst failed. destruct (a <? RETRIES)%nat; [|by left].
    destruct (fetch_loop page_get url range) as [r log]. cbn [fst] in *.
    destruct IH as [?|[(k & t & Hk & Hget & ?)|(k & e & Hk & Hesc & ?)]].
    - by left.
    - right; left. exists k, t. split; [by right | done].
    - right; right. exists k, e. split; [by right | done]. }
  clearbody failed.
  destruct (page_get url a) as [[e|e]|status [t|[e|e]]] eqn:Hget.
  - exact Hfailed.
  - right; right. exists a, e. split; [left|]. split; [by left | done].
  - case_decide as Hst; [by left|]. right; left. exists a, t.
    split; [left|]. split; [|done]. by rewrite <- Hst.
  - case_decide; [by left | exact Hfailed].
  - case_decide as Hst; [by left|]. right; right. exists a, e.
    split; [left|]. split; [|done]. right. by rewrite <- Hst.
Qed.

(** [fetch_html] makes between one and [RETRIES] requests, whatever the
    server does, and sleeps between two requests only: one sleep less than
    requests, none after the last.  It returns the empty string, or the text
    of a response with status 200 to one of its attempts; or it raises: the
    exception of an attempt that is not a client error or a timeout, which
    its [except] clause does not catch. *)
Theorem fetch_html_bounded url :
  (1 ≤ fetches (fetch_html page_get url).2 ≤ RETRIES)%nat
  ∧ S (waits (fetch_html page_get url).2) = fetches (fetch_html page_get url).2
  ∧ ((fetch_html page_get url).1 = inl ""
     ∨ (∃ k t, (1 ≤ k ≤ RETRIES)%nat
               ∧ page_get url k = PageResponded 200 (inl t)
               ∧ (fetch_html page_get url).1 = inl t)
     ∨ (∃ k e, (1 ≤ k ≤ RETRIES)%nat ∧ escapes page_get url k e
               ∧ (fetch_html page_get url).1 = inr e)).
Proof.
  unfold fetch_html.
  destruct (fetch_loop_counts url 1 RETRIES) as [Hf Hw]; [done | unfold RETRIES; lia|].
  split; [done|]. split; [done|].
  destruct (fetch_loop_result url (seq 1 RETRIES))
    as [?|[(k & t & Hk & ?)|(k & e & Hk & ?)]]; [by left|..];
    apply elem_of_seq in Hk.
  - right; left. exists k, t. split; [lia | done].
  - right; right. exists k, e. split; [lia | done].
Qed.

(** A status other than 200 ends [fetch_html] at once with the empty string:
    when the first response to arrive, after attempts that raised a client
    error, has such a status, no further request is made. *)
Theorem fetch_html_refused url (k : nat) (status : Z) (text : string + raised) :
  (1 ≤ k ≤ RETRIES)%nat →
  (∀ j, (1 ≤ j < k)%nat → ∃ e, page_get url j = PageRaised (ClientError e)) →
  page_get url k = PageResponded status text → status ≠ 200 →
  (fetch_html page_get url).1 = inl ""
  ∧ fetches (fetch_html page_get url).2 = k.
Proof.
  intros Hk Hraised Hget Hst. unfold fetch_html.
  assert (Hgen : ∀ n a, (a + n = k)%nat → (1 ≤ a)%nat →
            (fetch_loop page_get url (seq a (S RETRIES - a))).1 = inl ""
            ∧ fetches (fetch_loop page_get url (seq a (S RETRIES - a))).2 = S n).
  { induction n as [|n IH]; intros a Ha H1.
    - assert (a = k) as -> by lia.
      replace (S RETRIES - k)%nat with (S (RETRIES - k)) by lia.
      cbn [seq fetch_loop]. rewrite Hget. rewrite decide_True by done.
      cbn [fst snd]. by rewrite fetches_cons.
    - replace (S RETRIES - a)%nat with (S (S RETRIES - S a)) by lia.
      cbn [seq fetch_loop].
      destruct (Hraised a) as [e ->]; [lia|].
      assert ((a <? RETRIES)%nat = true) as -> by (apply Nat.ltb_lt; lia).
      destruct (IH (S a)) as [Ht Hf]; [lia..|].
      destruct (fetch_loop page_get url (seq (S a) (S RETRIES - S a)))
        as [t log].
      cbn [fst snd] in *. split; [done|]. rewrite !fetches_cons. simpl.
      by rewrite Hf. }
  destruct (Hgen (k - 1)%nat 1%nat) as [Ht Hf]; [lia..|].
  replace (S RETRIES - 1)%nat with RETRIES in * by lia.
  split; [done|]. rewrite Hf. lia.
Qed.

End fetch_html_properties.

Section crawl_properties.
Import Store UrlScraper Crawler.
Variable urljoin : string → string → string.

Implicit Types (c : crawl) (u url : string).

(** What a recorded URL looks like. *)
Lemma worker_step_documents (hrefs : string → list (option string)) c c' :
  worker_step urljoin hrefs c = Some c' →
  Forall (λ u, Py.endswith (Py.lower u) ".xml" = true) (waf_list c) →
  Forall (λ u, Py.endswith (Py.lower u) ".xml" = true) (waf_list c').
Proof.
  unfold worker_step. intros Hstep Hdocs.
  destruct (queue c) as [|url q]; [done|].
  destruct (decide (url ∈ seen_urls c)); [by simplify_eq|].
  destruct (skipped url); [by simplify_eq|].
  destruct (Py.endswith (Py.lower (redirect urljoin url)) ".xml") eqn:Hxml;
    simplify_eq; simpl; [|done].
  apply Forall_app. split; [done|]. by constructor.
Qed.

Lemma worker_step_once (hrefs : string → list (option string)) c c' :
  (∀ base, Py.endswith (Py.lower (urljoin base "xml/")) ".xml" = false) →
  worker_step urljoin hrefs c = Some c' →
  NoDup (waf_list c)
  ∧ (∀ u, u ∈ waf_list c →
       u ∈ seen_urls c ∧ skipped u = false ∧ rewrite_applies u = false) →
  NoDup (waf_list c')
  ∧ (∀ u, u ∈ waf_list c' →
       u ∈ seen_urls c' ∧ skipped u = false ∧ rewrite_applies u = false).
Proof.
  unfold worker_step. intros Hjoin Hstep [Hnd Hin].
  destruct (queue c) as [|url q]; [done|].
  destruct (decide (url ∈ seen_urls c)) as [|Hnew]; [by simplify_eq|].
  destruct (skipped url) eqn:Hskip.
  { simplify_eq; simpl. split; [done|]. intros u Hu.
    destruct (Hin u Hu) as (? & ? & ?). split; [set_solver | done]. }
  destruct (Py.endswith (Py.lower (redirect urljoin url)) ".xml") eqn:Hxml;
    simplify_eq; simpl.
  - assert (Happ : rewrite_applies url = false).
    { destruct (rewrite_applies url) eqn:Happ; [|done].
      unfold redirect in Hxml. rewrite Happ, Hjoin in Hxml. done. }
    assert (Hred : redirect urljoin url = url)
      by (unfold redirect; by rewrite Happ).
    rewrite Hred. split.
    + apply NoDup_app. split; [done|]. split; [|apply NoDup_singleton].
      intros u Hu ->%list_elem_of_singleton. by destruct (Hin _ Hu).
    + intros u [Hu| ->%list_elem_of_singleton]%elem_of_app.
      * destruct (Hin u Hu) as (? & ? & ?). split; [set_solver | done].
      * split; [set_solver | done].
  - split; [done|]. intros u Hu.
    destruct (Hin u Hu) as (? & ? & ?). split; [set_solver | done].
Qed.

Variable page_get : string → nat → page_outcome.
Variable anchors : string → list (option string).

Lemma crawl_steps_invariant (P : crawl → Prop) (n : nat) c (dead : nat) :
  (∀ c1 c2, worker_step urljoin (page_hrefs page_get anchors) c1 = Some c2 →
            P c1 → P c2) →
  P c → P (crawl_steps page_get anchors urljoin n c dead).1.
Proof.
  intros Hstep. revert c dead. induction n as [|n IH]; intros c dead Hc; [done|].
  simpl. destruct (dead <? MAX_CONCURRENT_REQUESTS)%nat; [|done].
  destruct (worker_step _ _ c) as [c'|] eqn:Hc'; [|done].
  apply IH. by apply (Hstep c c').
Qed.

Lemma crawl_steps_dead (n : nat) c (dead : nat) :
  (dead ≤ (crawl_steps page_get anchors urljoin n c dead).2)%nat.
Proof.
  revert c dead. induction n as [|n IH]; intros c dead; [done|].
  simpl. destruct (dead <? MAX_CONCURRENT_REQUESTS)%nat; [|done].
  destruct (worker_step _ _ c) as [c'|]; [|done].
  etrans; [|apply IH]. destruct (dies _ _ c); lia.
Qed.

(** However far the crawl has got, every URL it has recorded ends, in lower
    case, in [.xml]. *)
Theorem crawl_records_documents (n : nat) :
  Forall (λ u, Py.endswith (Py.lower u) ".xml" = true)
    (waf_list (crawl_steps page_get anchors urljoin n start 0).1).
Proof.
  apply (crawl_steps_invariant
           (λ c, Forall (λ u, Py.endswith (Py.lower u) ".xml" = true) (waf_list c))).
  - intros c1 c2. apply worker_step_documents.
  - constructor.
Qed.

(** When joining [xml/] to a URL never yields a document URL, the crawl
    records no URL twice, and every recorded URL was dequeued itself (it is in
    [seen_urls]), is not in a skipped folder and was not rewritten. *)
Theorem crawl_records_once (n : nat) :
  (∀ base, Py.endswith (Py.lower (urljoin base "xml/")) ".xml" = false) →
  let c := (crawl_steps page_get anchors urljoin n start 0).1 in
  NoDup (waf_list c)
  ∧ (∀ u, u ∈ waf_list c →
       u ∈ seen_urls c ∧ skipped u = false ∧ rewrite_applies u = false).
Proof.
  intros Hjoin.
  apply (crawl_steps_invariant
           (λ c, NoDup (waf_list c)
                 ∧ (∀ u, u ∈ waf_list c →
                      u ∈ seen_urls c ∧ skipped u = false
                      ∧ rewrite_applies u = false))).
  - intros c1 c2. by apply worker_step_once.
  - split; [constructor|]. intros u Hu. by apply elem_of_nil in Hu.
Qed.

Lemma start_step :
  worker_step urljoin (page_hrefs page_get anchors) start
  = Some (Crawl ({[BASE_URL]} ∪ ∅) []
            ([] ++ filter (λ full_url, full_url ∉ ({[BASE_URL]} ∪ ∅ : gset string))
                     ((λ h, urljoin BASE_URL h)
                        <$> omap followed (page_hrefs page_get anchors BASE_URL))))
  ∧ listing urljoin start = Some BASE_URL.
Proof.
  unfold worker_step, listing, start. cbn [queue seen_urls waf_list].
  rewrite decide_False by set_solver.
  change (skipped BASE_URL) with false. cbv beta iota zeta.
  assert (Hred : redirect urljoin BASE_URL = BASE_URL) by done.
  rewrite Hred.
  change (Py.endswith (Py.lower BASE_URL) ".xml") with false. done.
Qed.

(** When the listing of the base URL cannot be fetched, the crawl ends after
    one iteration with nothing recorded, and [crawl_waf] marks every URL of
    the registry deleted: no URL is active afterwards. *)
Theorem crawl_of_unreachable_base (set_iter : gset string → list string)
    (fuel : nat) (d : db) :
  enumerates set_iter →
  (fetch_html page_get BASE_URL).1 = inl "" →
  crawl_waf page_get anchors urljoin set_iter (S fuel) d
  = Some ((update_database_from_waf set_iter [] d).1,
          (update_database_from_waf set_iter [] d).2, [])
  ∧ load_active_etags (update_database_from_waf set_iter [] d).1 = ∅.
Proof.
  intros Hen Hbase. split; [|by apply empty_crawl_no_active].
  destruct start_step as [Hone Hlisting].
  assert (Hhrefs : page_hrefs page_get anchors BASE_URL = [])
    by (unfold page_hrefs; by rewrite Hbase).
  rewrite Hhrefs in Hone. simpl in Hone.
  assert (Hdies : dies page_get urljoin start = false)
    by (unfold dies; by rewrite Hlisting, Hbase).
  assert (Hall : crawl_steps page_get anchors urljoin (S fuel) start 0
                 = (Crawl ({[BASE_URL]} ∪ ∅) [] [], 0%nat)).
  { cbn [crawl_steps]. change (0 <? MAX_CONCURRENT_REQUESTS)%nat with true.
    cbv beta iota. rewrite Hone, Hdies. destruct fuel; [done|].
    cbn [crawl_steps]. change (0 <? MAX_CONCURRENT_REQUESTS)%nat with true.
    done. }
  unfold crawl_waf. rewrite Hall. cbn [queue waf_list].
  by destruct (update_database_from_waf set_iter [] d).
Qed.

(** When [fetch_html] raises on the listing of the base URL, the worker that
    fetched it ends without [task_done], and [queue.join()] never returns:
    [crawl_waf] yields no result and the registry is not touched, however
    long one waits. *)
Theorem crawl_hangs_on_exception (set_iter : gset string → list string)
    (fuel : nat) (d : db) (e : string) :
  (fetch_html page_get BASE_URL).1 = inr e →
  crawl_waf page_get anchors urljoin set_iter fuel d = None.
Proof.
  intros Hbase. unfold crawl_waf. destruct fuel as [|fuel]; [done|].
  destruct start_step as [Hone Hlisting].
  assert (Hdies : dies page_get urljoin start = true)
    by (unfold dies; by rewrite Hlisting, Hbase).
  cbn [crawl_steps]. change (0 <? MAX_CONCURRENT_REQUESTS)%nat with true.
  cbv beta iota. rewrite Hone, Hdies.
  pose proof (crawl_steps_dead fuel
                (Crawl ({[BASE_URL]} ∪ ∅) []
                   ([] ++ filter (λ full_url,
                                    full_url ∉ ({[BASE_URL]} ∪ ∅ : gset string))
                            ((λ h, urljoin BASE_URL h)
                               <$> omap followed
                                     (page_hrefs page_get anchors BASE_URL))))
                1) as Hdead.
  destruct (crawl_steps _ _ _ fuel _ 1) as [c dead]. cbn [snd] in Hdead.
  destruct (queue c); [|done]. destruct dead; [lia | done].
Qed.

End crawl_properties.

(** ** More on strings: [strip] *)

Section strip_facts.
Implicit Types (s t e : string) (a c : ascii).

Lemma rev_app_append s t : String.rev_app s t = String.rev s +:+ t.
Proof.
  unfold String.rev. revert t. induction s as [|a s IH]; intros t; [done|].
  simpl. rewrite (IH (String a t)), (IH (String a "")).
  by rewrite app_assoc_string.
Qed.

Lemma rev_cons a s : String.rev (String a s) = String.rev s +:+ String a "".
Proof. unfold String.rev at 1. simpl. apply rev_app_append. Qed.

Lemma rev_append s t : String.rev (s +:+ t) = String.rev t +:+ String.rev s.
Proof.
  induction s as [|a s IH].
  - change ("" +:+ t) with t. by rewrite app_empty_r.
  - rewrite app_cons, !rev_cons, IH. by rewrite app_assoc_string.
Qed.

Lemma rev_involutive s : String.rev (String.rev s) = s.
Proof.
  induction s as [|a s IH]; [done|].
  rewrite rev_cons, rev_append, IH. done.
Qed.

Lemma lstrip_other c e : Py.startswith e (String c "") = false → Py.lstrip c e = e.
Proof.
  destruct e as [|a e]; [done|]. unfold Py.startswith. simpl.
  destruct (ascii_dec c a) as [->|Hne]; [by destruct e|].
  intros _. destruct (Ascii.eqb a c) eqn:Heq; [|done].
  apply Ascii.eqb_eq in Heq. congruence.
Qed.

Lemma startswith_rev c e :
  Py.endswith e (String c "") = false → Py.startswith (String.rev e) (String c "") = false.
Proof.
  intros Hend. apply not_true_is_false. intros Hstart.
  apply prefix_spec in Hstart as [q Hq].
  apply (f_equal String.rev) in Hq. rewrite rev_involutive, rev_append in Hq.
  assert (Py.endswith e (String c "") = true); [|congruence].
  apply endswith_spec. exists (String.rev q). by rewrite Hq.
Qed.

(** Stripping [c] from a string wrapped in [c] gives the string back, when it
    neither starts nor ends with [c] itself. *)
Lemma strip_wrapped c e :
  Py.startswith e (String c "") = false → Py.endswith e (String c "") = false →
  Py.strip c (String c "" +:+ e +:+ String c "") = e.
Proof.
  intros Hstart Hend. unfold Py.strip.
  rewrite app_cons. cbn [Py.lstrip]. rewrite Ascii.eqb_refl.
  change ("" +:+ e +:+ String c "") with (e +:+ String c "").
  destruct e as [|a e].
  - simpl. by rewrite Ascii.eqb_refl.
  - assert (Hne : Ascii.eqb a c = false).
    { unfold Py.startswith in Hstart. simpl in Hstart.
      destruct (ascii_dec c a) as [->|Hne]; [by destruct e|].
      apply Ascii.eqb_neq. congruence. }
    rewrite app_cons. cbn [Py.lstrip]. rewrite Hne.
    rewrite <- app_cons, rev_append.
    change (String.rev (String c "")) with (String c "").
    rewrite app_cons. cbn [Py.lstrip]. rewrite Ascii.eqb_refl.
    change ("" +:+ String.rev (String a e)) with (String.rev (String a e)).
    rewrite lstrip_other by (by apply startswith_rev).
    apply rev_involutive.
Qed.

End strip_facts.

(** ** More on the conditional fetch *)

Section fetch_properties.
Import Store MetadataScraper.
Context `{Environment}.

Implicit Types (url : string) (etag : option string)
  (headers : gmap string string) (range : list nat) (resp : response).

Lemma requests_to_cons_get url headers (log : list event) :
  requests_to url (Get url headers :: log) = S (requests_to url log).
Proof.
  unfold requests_to. rewrite filter_cons. simpl.
  rewrite bool_decide_eq_true_2 by done. by rewrite decide_True.
Qed.

Lemma requests_to_cons_sleep url (j : nat) (log : list event) :
  requests_to url (Sleep j :: log) = requests_to url log.
Proof.
  unfold requests_to. rewrite filter_cons. cbn [is_get_of].
  by rewrite decide_False.
Qed.

Lemma attempt_loop_requests url etag headers range :
  range ≠ [] →
  (1 ≤ requests_to url (attempt_loop url etag headers range).2 ≤ length range)%nat.
Proof.
  induction range as [|j range IH]; [done|]. intros _. cbn [attempt_loop].
  assert (Hagain :
    (1 ≤ requests_to url
           (let '(r, log) := attempt_loop url etag headers range in
            (r, Get url headers :: Sleep j :: log)).2 ≤ length (j :: range))%nat).
  { destruct range as [|j' range'].
    - simpl. rewrite requests_to_cons_get, requests_to_cons_sleep.
      unfold requests_to. simpl. lia.
    - specialize (IH ltac:(done)).
      destruct (attempt_loop url etag headers (j' :: range')) as [r log].
      cbn [snd] in *. rewrite requests_to_cons_get, requests_to_cons_sleep.
      simpl in *. lia. }
  assert (Hone : (1 ≤ requests_to url [Get url headers] ≤ length (j :: range))%nat).
  { rewrite requests_to_cons_get. unfold requests_to. simpl. lia. }
  destruct (session_get url headers j) as [e|resp]; [exact Hagain|].
  repeat case_match; try exact Hone; exact Hagain.
Qed.

(** A fetch makes between one and [RETRIES] requests, whatever the server
    does, each for its URL and with the headers computed from the stored
    indicator. *)
Theorem fetch_conditional_bounded url etag :
  (1 ≤ requests_to url (fetch_conditional url etag).2 ≤ RETRIES)%nat
  ∧ Forall (λ ev, match ev with
                  | Get u h => u = url ∧ h = request_headers etag
                  | Sleep _ => True
                  end) (fetch_conditional url etag).2.
Proof.
  split; [|apply attempt_loop_headers].
  pose proof (attempt_loop_requests url etag (request_headers etag)
                (seq 1 RETRIES) ltac:(done)) as Hreq.
  by rewrite length_seq in Hreq.
Qed.

Lemma attempt_loop_shape url etag headers range :
  let r := (attempt_loop url etag headers range).1 in
  (r_changed r = Some true ∧ r_error r = None
   ∧ ∃ m, r_metadata r = Some m ∧ source_of m = url)
  ∨ (r_changed r = Some false ∧ r_metadata r = None ∧ r_etag r = etag
     ∧ (r_error r = None
        ∨ ∃ status, 400 ≤ status ∧ r_error r = Some ("HTTP " +:+ pretty status)))
  ∨ (r_changed r = None ∧ r_metadata r = None ∧ r_etag r = etag
     ∧ r_error r = Some "Failed after retries").
Proof.
  induction range as [|j range IH]; [by right; right|]. cbn [attempt_loop].
  destruct (attempt_loop url etag headers range) as [r log]. simpl in IH.
  destruct (session_get url headers j) as [e|resp]; [exact IH|].
  destruct (status resp =? 304) eqn:H304.
  { right; left. simpl. eauto. }
  destruct (400 <=? status resp) eqn:H400.
  { right; left. simpl. split; [done|]. split; [done|]. split; [done|].
    right. exists (status resp). split; [lia | done]. }
  destruct (read resp) as [xml_bytes|e]; [|exact IH].
  left. simpl. split; [done|]. split; [done|].
  eexists. split; [done|]. unfold extract_metadata.
  by destruct (etree_fromstring xml_bytes).
Qed.

(** Every outcome has one of three shapes: changed, with a record for the URL
    and no error; not changed, with the stored indicator, no record, and
    either no error (unchanged) or the error of a status of 400 or more
    (rejected); or no [changed] key at all, with the stored indicator, no
    record and the error of exhausted retries. *)
Theorem fetch_outcome_shape url etag :
  let r := (fetch_conditional url etag).1 in
  r_url r = url
  ∧ ((r_changed r = Some true ∧ r_error r = None
      ∧ ∃ m, r_metadata r = Some m ∧ source_of m = url)
     ∨ (r_changed r = Some false ∧ r_metadata r = None ∧ r_etag r = etag
        ∧ (r_error r = None
           ∨ ∃ status, 400 ≤ status ∧ r_error r = Some ("HTTP " +:+ pretty status)))
     ∨ (r_changed r = None ∧ r_metadata r = None ∧ r_etag r = etag
        ∧ r_error r = Some "Failed after retries")).
Proof.
  split; [apply fetch_conditional_url|]. apply attempt_loop_shape.
Qed.

Lemma fetch_unchanged url etag (k : nat) resp :
  answered url etag k resp → status resp = 304 →
  fetch_conditional url etag
  = (Result url etag (Some false) (Some (bool_decide (etag = None))) None None,
     raised_log url (request_headers etag) (seq 1 (k - 1))
     ++ [Get url (request_headers etag)]).
Proof.
  intros Hans Hst. rewrite (fetch_answered _ _ _ _ Hans).
  destruct Hans as (_ & _ & Hresp). cbn [attempt_loop].
  rewrite Hresp. cbv beta iota zeta. by rewrite Hst.
Qed.

(** Attempts that are retried: the request raises, or a response that is
    neither 304 nor an error arrives and reading its body raises. *)
Lemma attempt_loop_retried url etag headers pre range :
  (∀ j, j ∈ pre →
     (∃ e, session_get url headers j = Raised e)
     ∨ (∃ resp e, session_get url headers j = Responded resp
                  ∧ status resp ≠ 304 ∧ status resp < 400
                  ∧ read resp = inr e)) →
  attempt_loop url etag headers (pre ++ range)
  = ((attempt_loop url etag headers range).1,
     raised_log url headers pre ++ (attempt_loop url etag headers range).2).
Proof.
  induction pre as [|j pre IH]; intros Hpre.
  - simpl. by destruct (attempt_loop _ _ _ _).
  - rewrite <- app_comm_cons. cbn [attempt_loop].
    rewrite IH by (intros; apply Hpre; by right).
    unfold raised_log. rewrite bind_cons.
    destruct (Hpre j) as [[e ->]|(resp & e & -> & H304 & H400 & ->)]; [left|done|].
    destruct (status resp =? 304) eqn:E304; [lia|].
    destruct (400 <=? status resp) eqn:E400; [lia|]. done.
Qed.

End fetch_properties.

(** ** More on one run of [main] *)

Section run_properties.
Import Store MetadataScraper.
Context `{Environment}.
Hypothesis completion_reorders : reorders.

Implicit Types (w : world) (url : string) (row : Store.row) (resp : response)
  (rs : list result) (d : db).

Lemma new_records_of_run w (m : metadata) :
  m ∈ new_records_of (run_batched (load_active_etags (etags w))) →
  ∃ etag, load_active_etags (etags w) !! source_of m = Some etag
          ∧ r_changed (fetch_conditional (source_of m) etag).1 = Some true
          ∧ r_metadata (fetch_conditional (source_of m) etag).1 = Some m.
Proof.
  unfold new_records_of, changed_of.
  intros (r & [Hch Hin]%list_elem_of_filter & Hm)%list_elem_of_omap.
  pose proof (run_batched_metadata _ _ _ Hin Hm) as Hsrc.
  assert (r ∈ filter (λ r', r_url r' = source_of m)
                (run_batched (load_active_etags (etags w)))) as Hr
    by (by apply list_elem_of_filter).
  destruct (load_active_etags (etags w) !! source_of m) as [etag|] eqn:Hact.
  - rewrite (run_batched_one completion_reorders _ _ _ Hact) in Hr.
    apply list_elem_of_singleton in Hr. subst r. eauto.
  - rewrite (run_batched_none completion_reorders _ _ Hact) in Hr.
    by apply elem_of_nil in Hr.
Qed.

(** A fetch answered with 304 ends in the outcome
    [{url, etag, changed: False, first_check}] with the stored indicator;
    [main] writes that indicator back, sets [last_checked], leaves the flag,
    and has no new record for the URL. *)
Theorem unchanged_outcome w url row (k : nat) resp :
  etags w !! url = Some row → deleted row = 0 →
  answered url (etag row) k resp → status resp = 304 →
  (fetch_conditional url (etag row)).1
  = Result url (etag row) (Some false) (Some (bool_decide (etag row = None)))
      None None
  ∧ requests_to url (fetch_conditional url (etag row)).2 = k
  ∧ (∃ i, etags (main w).1 !! url
          = Some (Row (etag row) (Some (now i)) (deleted row)))
  ∧ url ∉ source_of <$> new_records_of (run_batched (load_active_etags (etags w))).
Proof.
  intros Hrow Hdel Hans Hst.
  pose proof (active_row w url row Hrow Hdel) as Hact.
  pose proof (main_touches completion_reorders w url (etag row) Hact) as Hmain.
  pose proof (fetch_unchanged _ _ _ _ Hans Hst) as Hfetch.
  rewrite Hfetch in Hmain |- *. cbn [fst snd] in *.
  split; [done|]. split.
  { apply requests_to_answered_log. by destruct Hans as [[? _] _]. }
  split.
  { destruct Hmain as [i Hi]; [by eexists|]. exists i. by rewrite Hi, Hrow. }
  intros (m & -> & Hm)%list_elem_of_fmap.
  apply new_records_of_run in Hm as (etag' & Hact' & Hch & _).
  rewrite Hact in Hact'. injection Hact' as <-. by rewrite Hfetch in Hch.
Qed.

(** A strong entity tag makes the round trip: when a changed response
    carries the header [ETag: "e"], with [e] not empty and without a quote at
    either end, [main] stores [e], and the next request for the URL carries
    [If-None-Match: "e"], the header as it was received. *)
Theorem indicator_round_trip w url row (k : nat) resp
    (xml_bytes : list Byte.byte) (e : string) :
  etags w !! url = Some row → deleted row = 0 →
  answered url (etag row) k resp →
  status resp ≠ 304 → status resp < 400 → read resp = inl xml_bytes →
  etag_header resp = Some (quote +:+ e +:+ quote) →
  e ≠ "" → Py.startswith e quote = false → Py.endswith e quote = false →
  (∃ i, etags (main w).1 !! url = Some (Row (Some e) (Some (now i)) (deleted row)))
  ∧ load_active_etags (etags (main w).1) !! url = Some (Some e)
  ∧ request_headers (Some e) !! "If-None-Match" = etag_header resp.
Proof.
  intros Hrow Hdel Hans H304 H400 Hread Hhdr Hne Hstart Hend.
  pose proof (active_row w url row Hrow Hdel) as Hact.
  pose proof (main_touches completion_reorders w url (etag row) Hact) as Hmain.
  rewrite (fetch_changed _ _ _ _ _ Hans H304 H400 Hread) in Hmain.
  cbn [fst snd] in Hmain. unfold new_etag_of in Hmain. rewrite Hhdr in Hmain.
  change (Py.truthy (Some (quote +:+ e +:+ quote))) with true in Hmain.
  cbv iota in Hmain.
  assert (Hstrip : Py.strip "034" (quote +:+ e +:+ quote) = e)
    by (by apply strip_wrapped).
  destruct Hmain as [i Hi]; [by eexists|].
  rewrite Hrow, Hstrip in Hi. cbn [fmap option_fmap option_map] in Hi.
  split; [by exists i|]. split.
  { apply active_lookup. eexists. split; [exact Hi|]. by split. }
  rewrite Hhdr. unfold request_headers.
  destruct e as [|a e]; [done|]. cbn [Py.truthy]. by rewrite lookup_insert_eq.
Qed.

(** Reading the body counts as an attempt: when every attempt either raises
    or gets a response that is neither 304 nor an error and whose body cannot
    be read, the fetch makes [RETRIES] requests and ends in the outcome of
    exhausted retries, and [main] leaves the row as it was. *)
Theorem unreadable_outcome w url row :
  etags w !! url = Some row → deleted row = 0 →
  (∀ j, (1 ≤ j ≤ RETRIES)%nat →
     (∃ e, session_get url (request_headers (etag row)) j = Raised e)
     ∨ (∃ resp e, session_get url (request_headers (etag row)) j = Responded resp
                  ∧ status resp ≠ 304 ∧ status resp < 400
                  ∧ read resp = inr e)) →
  (fetch_conditional url (etag row)).1
  = Result url (etag row) None None None (Some "Failed after retries")
  ∧ requests_to url (fetch_conditional url (etag row)).2 = RETRIES
  ∧ etags (main w).1 !! url = Some row.
Proof.
  intros Hrow Hdel Hall.
  pose proof (active_row w url row Hrow Hdel) as Hact.
  assert (Hfetch : fetch_conditional url (etag row)
                   = (Result url (etag row) None None None
                        (Some "Failed after retries"),
                      raised_log url (request_headers (etag row)) (seq 1 RETRIES))).
  { unfold fetch_conditional. rewrite <- (app_nil_r (seq 1 RETRIES)) at 1.
    rewrite attempt_loop_retried; [by rewrite app_nil_r|].
    intros j Hj%elem_of_seq. apply Hall. lia. }
  rewrite Hfetch. cbn [fst snd]. split; [done|]. split.
  { by rewrite requests_to_raised_log, length_seq. }
  rewrite <- Hrow. apply (main_leaves completion_reorders).
  intros etag Hetag. rewrite Hact in Hetag. injection Hetag as <-.
  by rewrite Hfetch.
Qed.

Lemma update_loop_deleted (k : nat) rs d url :
  deleted <$> update_loop k rs d !! url = deleted <$> d !! url.
Proof.
  revert k d. induction rs as [|r rs IH]; intros k d; [done|].
  cbn [update_loop]. rewrite IH. unfold update_etag_record, set_etag.
  destruct (decide (r_url r = url)) as [->|Hne].
  - rewrite lookup_alter_eq. by destruct (d !! url).
  - by rewrite lookup_alter_ne.
Qed.

Lemma requests_to_absent url (items : list (string * option string)) :
  url ∉ items.*1 →
  requests_to url (mjoin ((λ item, (fetch_conditional item.1 item.2).2) <$> items))
  = 0%nat.
Proof.
  induction items as [|[u e] items IH]; intros Hu; [done|].
  rewrite fmap_cons in Hu. apply not_elem_of_cons in Hu as [Hne Hu].
  rewrite fmap_cons, join_cons, requests_to_app, IH by done. simpl.
  unfold fetch_conditional. by rewrite attempt_loop_other.
Qed.

(** [main] neither adds nor removes a row of the registry and never changes
    a [deleted] flag; a URL that is not active (unknown, or with a flag other
    than 0) is not requested at all and its row stays as it was. *)
Theorem main_preserves_registry w url :
  deleted <$> etags (main w).1 !! url = deleted <$> etags w !! url
  ∧ (load_active_etags (etags w) !! url = None →
     etags (main w).1 !! url = etags w !! url
     ∧ requests_to url (mjoin (run_batched_log (load_active_etags (etags w))).*2)
       = 0%nat).
Proof.
  split; [apply update_loop_deleted|]. intros Hnone. split.
  - apply (main_leaves completion_reorders). intros etag Hact. congruence.
  - unfold run_batched_log. rewrite <- list_fmap_compose.
    apply requests_to_absent.
    intros ([u e] & -> & Hin)%list_elem_of_fmap.
    apply (items_elem_of completion_reorders) in Hin. simpl in Hnone. congruence.
Qed.

End run_properties.

(** ** The summary and the table of a run *)

Section table_properties.
Import Store MetadataScraper.
Context `{Environment}.
Hypothesis completion_reorders : reorders.

Implicit Types (w : world) (rs : list result) (m first : metadata).

Lemma outcome_counts rs :
  Forall (λ r, (r_changed r = Some true ∧ r_error r = None)
               ∨ r_changed r = Some false
               ∨ (r_changed r = None ∧ is_Some (r_error r))) rs →
  length rs
  = (length (changed_of rs) + length (unchanged_of rs)
     + length (filter (λ r, r_changed r = None) rs))%nat
  ∧ length (errors_of rs)
    = (length (filter (λ r, r_changed r = Some false ∧ is_Some (r_error r)) rs)
       + length (filter (λ r, r_changed r = None) rs))%nat.
Proof.
  unfold changed_of, unchanged_of, errors_of.
  induction 1 as [|r rs Hr _ [IH1 IH2]]; [done|].
  rewrite !filter_cons.
  destruct Hr as [[Hc He]|[Hc|[Hc He]]];
    repeat case_decide; simpl; try lia;
    try (exfalso; naive_solver); try congruence.
  all: destruct (r_error r); simplify_eq; try done; by destruct He.
Qed.

(** The summary [main] prints: the total is the number of active URLs; it is
    the sum of the changed, the unchanged and the outcomes of exhausted
    retries; and the errors are the rejected outcomes, which are counted
    among the unchanged too, together with those of exhausted retries. *)
Theorem summary_counts w :
  let rs := run_batched (load_active_etags (etags w)) in
  let rejected := filter (λ r, r_changed r = Some false ∧ is_Some (r_error r)) rs in
  let failed := filter (λ r, r_changed r = None) rs in
  total_checked (main w).2 = size (load_active_etags (etags w))
  ∧ total_checked (main w).2
    = (n_changed (main w).2 + n_unchanged (main w).2 + length failed)%nat
  ∧ n_errors (main w).2 = (length rejected + length failed)%nat.
Proof.
  intros rs rejected failed. subst rs rejected failed. unfold main; simpl.
  assert (Hshape : Forall (λ r, (r_changed r = Some true ∧ r_error r = None)
                                ∨ r_changed r = Some false
                                ∨ (r_changed r = None ∧ is_Some (r_error r)))
                     (run_batched (load_active_etags (etags w)))).
  { apply Forall_forall. intros r.
    unfold run_batched, run_batched_log. rewrite <- list_fmap_compose.
    intros ([u e] & -> & _)%list_elem_of_fmap. simpl.
    destruct (attempt_loop_shape u e (request_headers e) (seq 1 RETRIES))
      as [(? & ? & _)|[(? & _)|(? & _ & _ & Herr)]]; [by left | by right; left|].
    right; right. split; [done|]. unfold fetch_conditional. by rewrite Herr. }
  destruct (outcome_counts _ Hshape) as [Htotal Herrors].
  split; [|by split].
  unfold run_batched, run_batched_log. rewrite !length_fmap.
  rewrite (completion_reorders (map_to_list _)). apply length_map_to_list.
Qed.

Lemma new_records_NoDup w :
  NoDup (source_of <$> new_records_of (run_batched (load_active_etags (etags w)))).
Proof.
  eapply sublist_NoDup; [apply (run_batched_NoDup completion_reorders)|].
  apply new_records_sources, run_batched_metadata.
Qed.

Lemma save_NoDup (new_records : list metadata) (file : option (list table_row)) :
  NoDup (source_of <$> new_records) →
  match file with
  | Some table => NoDup (key <$> table)
  | None => True
  end →
  match save new_records file with
  | Some table => NoDup (key <$> table)
  | None => True
  end.
Proof.
  intros Hnd Hinv. destruct new_records as [|first rest]; [done|].
  destruct file as [existing|]; cbn [save].
  - apply drop_duplicates_last_NoDup.
  - rewrite from_pylist_keys, list_fmap_compose.
    by apply NoDup_fmap; [apply _|].
Qed.

(** At most one row per source is an invariant of [main]: when there is no
    Parquet file, or no two rows of it have the same source, no two rows of
    the table after the run have the same source. *)
Theorem table_keeps_one_row_per_source w :
  match parquet w with
  | Some table => NoDup (key <$> table)
  | None => True
  end →
  match parquet (main w).1 with
  | Some table => NoDup (key <$> table)
  | None => True
  end.
Proof.
  intros Hinv. unfold main; cbn [fst parquet].
  by apply save_NoDup; [apply new_records_NoDup|].
Qed.

(** A run in which no outcome is changed leaves the Parquet file as it was,
    and does not create it. *)
Theorem unchanged_run_keeps_table w :
  (∀ url etag, load_active_etags (etags w) !! url = Some etag →
               r_changed (fetch_conditional url etag).1 ≠ Some true) →
  parquet (main w).1 = parquet w.
Proof.
  intros Hnone. unfold main; simpl.
  destruct (new_records_of (run_batched (load_active_etags (etags w))))
    as [|m rest] eqn:Hnew; [done|].
  assert (Hm : m ∈ new_records_of (run_batched (load_active_etags (etags w))))
    by (rewrite Hnew; left).
  apply (new_records_of_run completion_reorders) in Hm as (etag & Hact & Hch & _).
  by destruct (Hnone _ _ Hact).
Qed.

End table_properties.

(** ** Batches *)

Section batch_properties.
Import MetadataScraper Batches.

Lemma range_join {A : Type} (size : nat) (urls : list A) (fuel start : nat) :
  (1 ≤ size)%nat → (length urls - start ≤ fuel)%nat →
  mjoin ((λ start, take size (drop start urls))
           <$> range fuel start (length urls) size)
  = drop start urls.
Proof.
  intros Hsize. revert start. induction fuel as [|fuel IH]; intros start Hfuel.
  - simpl. rewrite drop_ge; [done | lia].
  - cbn [range]. destruct (start <? length urls)%nat eqn:Hlt.
    + apply Nat.ltb_lt in Hlt. rewrite fmap_cons, join_cons, IH by lia.
      rewrite <- drop_drop. apply take_drop.
    + apply Nat.ltb_ge in Hlt. simpl. by rewrite drop_ge.
Qed.

Lemma range_sizes {A : Type} (size : nat) (urls : list A) (fuel start : nat) :
  (1 ≤ size)%nat →
  Forall (λ batch : list A, (1 ≤ length batch ≤ size)%nat)
    ((λ start, take size (drop start urls))
       <$> range fuel start (length urls) size).
Proof.
  intros Hsize. revert start. induction fuel as [|fuel IH]; intros start;
    [constructor|].
  cbn [range]. destruct (start <? length urls)%nat eqn:Hlt; [|constructor].
  apply Nat.ltb_lt in Hlt. rewrite fmap_cons. constructor; [|apply IH].
  rewrite length_take, length_drop. lia.
Qed.

(** The slices of [run_batched] cover the list: joined in order they are the
    list again, so no item is lost or taken twice, and every slice holds at
    least one item and at most the batch size. *)
Theorem slices_cover {A : Type} (size : nat) (urls : list A) :
  (1 ≤ size)%nat →
  mjoin (slices size urls) = urls
  ∧ Forall (λ batch : list A, (1 ≤ length batch ≤ size)%nat) (slices size urls).
Proof.
  intros Hsize. unfold slices. split; [|by apply range_sizes].
  rewrite range_join by lia. done.
Qed.

Context `{Environment}.
Hypothesis completion_reorders : reorders.

Lemma join_fmap_perm {A B : Type} (g : A → B) (f : list A → list A)
    (ls : list (list A)) :
  (∀ l, f l ≡ₚ l) → mjoin ((λ l, g <$> f l) <$> ls) ≡ₚ g <$> mjoin ls.
Proof.
  intros Hf. induction ls as [|l ls IH]; [done|].
  rewrite fmap_cons, !join_cons, fmap_app, IH. by rewrite (Hf l).
Qed.

(** Batch by batch, [run_batched] produces one outcome per item: its results
    are, in some order, the outcomes of the fetches of the items, as in the
    run without batches. *)
Theorem run_batches_outcomes (etag_map : gmap string (option string)) :
  run_batches (map_to_list etag_map)
  ≡ₚ (λ item, (fetch_conditional item.1 item.2).1) <$> map_to_list etag_map
  ∧ run_batches (map_to_list etag_map) ≡ₚ run_batched etag_map.
Proof.
  assert (Hrun : run_batches (map_to_list etag_map)
                 ≡ₚ (λ item, (fetch_conditional item.1 item.2).1)
                      <$> map_to_list etag_map).
  { unfold run_batches.
    rewrite (join_fmap_perm _ completion _ completion_reorders).
    destruct (slices_cover BATCH_SIZE (map_to_list etag_map)) as [-> _];
      [unfold BATCH_SIZE; lia | done]. }
  split; [exact Hrun|]. rewrite Hrun.
  unfold run_batched, run_batched_log. rewrite <- list_fmap_compose.
  by rewrite (completion_reorders (map_to_list etag_map)).
Qed.

End batch_properties.

(** ** The two fetchers *)

Section script_properties.
Import MetadataScraper.
Context `{Environment}.

Lemma script_attempt_loop_agrees (url : string) (etag : option string)
    (headers : gmap string string) (range : list nat) :
  Script.without_first_check (Script.attempt_loop url etag headers range).1
  = Script.without_first_check (attempt_loop url etag headers range).1
  ∧ (Script.attempt_loop url etag headers range).2
    = (attempt_loop url etag headers range).2.
Proof.
  induction range as [|j range [IH1 IH2]]; [done|].
  cbn [Script.attempt_loop attempt_loop].
  destruct (Script.attempt_loop url etag headers range) as [r1 log1].
  destruct (attempt_loop url etag headers range) as [r2 log2].
  cbn [fst snd] in IH1, IH2. subst log2.
  destruct (session_get url headers j) as [e|resp]; [done|].
  repeat case_match; done.
Qed.

(** The [fetch_conditional] of the script at the top of the repository and
    that of the package make the same requests and return the same outcome
    but for the key [first_check]. *)
Theorem script_fetch_agrees (url : string) (etag : option string) :
  Script.without_first_check (Script.fetch_conditional url etag).1
  = Script.without_first_check (fetch_conditional url etag).1
  ∧ (Script.fetch_conditional url etag).2 = (fetch_conditional url etag).2.
Proof. apply script_attempt_loop_agrees. Qed.

(** [scrape_all] returns one outcome per key, in the order of the keys,
    whatever the batch size. *)
Theorem scrape_all_in_order (size : nat) (urls : list string)
    (etag_map : gmap string (option string)) :
  (1 ≤ size)%nat →
  Script.scrape_all size urls etag_map
  = (λ u, (Script.fetch_conditional u (mjoin (etag_map !! u))).1) <$> urls.
Proof.
  intros Hsize. unfold Script.scrape_all.
  destruct (slices_cover size urls Hsize) as [Hjoin _].
  rewrite <- Hjoin at 2. generalize (Batches.slices size urls). intros ls.
  induction ls as [|l ls IH]; [done|].
  by rewrite fmap_cons, !join_cons, fmap_app, IH.
Qed.

End script_properties.

(** ** More on the orchestrator *)

Section runner_properties.
Import PipelineRunner.
Variable machine : Type.
Variable subprocess_run : string → machine → (Z + string) * machine.

Lemma steps_loop_failed steps failures timings m :
  (steps_loop machine subprocess_run steps failures timings m).1.1
  = failures
    ++ (filter (λ p, p.2 ≠ 0)
          (zip steps (return_codes machine subprocess_run steps m))).*1.
Proof.
  revert failures timings m.
  induction steps as [|step rest IH]; intros failures timings m.
  - simpl. by rewrite app_nil_r.
  - cbn [steps_loop return_codes zip zip_with].
    destruct (run_step machine subprocess_run step m) as [rc m'] eqn:Hstep.
    cbn [fst snd]. rewrite filter_cons. cbn [fst snd].
    destruct (decide (rc ≠ 0)); rewrite IH; [|done].
    by rewrite fmap_cons, <- app_assoc.
Qed.

(** The steps [main] reports as failed are those that returned a code other
    than 0, in the order run. *)
Theorem pipeline_failures (m : machine) :
  (steps_loop machine subprocess_run STEPS [] [] m).1.1
  = (filter (λ p, p.2 ≠ 0)
       (zip STEPS (return_codes machine subprocess_run STEPS m))).*1.
Proof. apply steps_loop_failed. Qed.

Lemma return_codes_raised steps step :
  step ∈ steps →
  (∀ m, ∃ e m', subprocess_run ("noaa_collection_scraper." +:+ step) m
                = (inr e, m')) →
  ∀ m, 1 ∈ return_codes machine subprocess_run steps m.
Proof.
  intros Hin Hraise. induction steps as [|s steps IH]; intros m;
    [by apply elem_of_nil in Hin|].
  cbn [return_codes]. apply elem_of_cons in Hin as [->|Hin].
  - assert ((run_step machine subprocess_run s m).1 = 1) as ->; [|left].
    unfold run_step. by destruct (Hraise m) as (e & m' & ->).
  - right. by apply IH.
Qed.

(** An exception of [subprocess.run] counts as a failure of the step: when
    launching one of the steps raises, [main] still runs every step and
    exits with status 1. *)
Theorem pipeline_exception_fails (step : string) (m : machine) :
  step ∈ STEPS →
  (∀ m, ∃ e m', subprocess_run ("noaa_collection_scraper." +:+ step) m
                = (inr e, m')) →
  (main machine subprocess_run m).1.1 = 1
  ∧ (main machine subprocess_run m).1.2 = STEPS.
Proof.
  intros Hin Hraise. unfold main.
  pose proof (steps_loop_timings machine subprocess_run STEPS [] [] m) as Ht.
  pose proof (steps_loop_failures machine subprocess_run STEPS [] [] m) as Hf.
  pose proof (return_codes_raised STEPS step Hin Hraise m) as Hone.
  destruct (steps_loop machine subprocess_run STEPS [] [] m)
    as [[failures timings] m'].
  cbn [fst snd] in Ht, Hf. subst timings.
  destruct failures as [|f fs]; cbn [fst snd]; [|done].
  exfalso. destruct Hf as [Hf _]. destruct (Hf eq_refl) as [_ Hall].
  rewrite Forall_forall in Hall. by specialize (Hall 1 Hone).
Qed.

End runner_properties.

(** ** Retention cleanup *)

Section cleanup_properties.
Import Cleanup.

Implicit Types (f g : file) (files directory : list file) (pattern : string)
  (keep : nat).

Lemma insert_newest_perm f files : insert_newest f files ≡ₚ f :: files.
Proof.
  induction files as [|g rest IH]; [done|]. simpl.
  destruct (st_mtime f <? st_mtime g); [|done].
  rewrite IH. apply Permutation_swap.
Qed.

Lemma sort_newest_first_perm files : sort_newest_first files ≡ₚ files.
Proof.
  induction files as [|f rest IH]; [done|]. simpl.
  by rewrite insert_newest_perm, IH.
Qed.

Lemma insert_newest_sorted f files :
  StronglySorted (λ f g, st_mtime g ≤ st_mtime f) files →
  StronglySorted (λ f g, st_mtime g ≤ st_mtime f) (insert_newest f files).
Proof.
  induction 1 as [|g rest Hsorted IH Hg]; simpl; [by repeat constructor|].
  destruct (st_mtime f <? st_mtime g) eqn:Hlt.
  - apply Z.ltb_lt in Hlt. constructor; [done|].
    rewrite insert_newest_perm. constructor; [lia | done].
  - apply Z.ltb_ge in Hlt. constructor; [by constructor|].
    constructor; [done|]. eapply Forall_impl; [exact Hg|]. simpl. lia.
Qed.

Lemma sort_newest_first_sorted files :
  StronglySorted (λ f g, st_mtime g ≤ st_mtime f) (sort_newest_first files).
Proof.
  induction files as [|f rest IH]; simpl; [constructor|].
  by apply insert_newest_sorted.
Qed.

(** [_glob_sorted] returns the entries that match the pattern, each once,
    newest first. *)
Theorem glob_sorted_newest_first pattern directory :
  _glob_sorted pattern directory
  ≡ₚ filter (λ f, fnmatch pattern (name f) = true) directory
  ∧ StronglySorted (λ f g, st_mtime g ≤ st_mtime f)
      (_glob_sorted pattern directory).
Proof.
  split; [apply sort_newest_first_perm | apply sort_newest_first_sorted].
Qed.

Lemma glob_sorted_elem_of pattern directory f :
  f ∈ _glob_sorted pattern directory
  ↔ fnmatch pattern (name f) = true ∧ f ∈ directory.
Proof.
  unfold _glob_sorted. by rewrite sort_newest_first_perm, list_elem_of_filter.
Qed.

Lemma same_name directory f g :
  NoDup (name <$> directory) → f ∈ directory → g ∈ directory →
  name g = name f → g = f.
Proof.
  intros Hnd Hf Hg Hname.
  assert (g ∈ filter (λ h, name h = name f) directory) as Hin
    by (by apply list_elem_of_filter).
  rewrite (filter_unique name directory f Hnd Hf) in Hin.
  by apply list_elem_of_singleton in Hin.
Qed.

Section one_pattern.
Variable unlink_raises : string → bool.

Lemma delete_old_elem_of directory pattern keep f :
  NoDup (name <$> directory) →
  f ∈ delete_old unlink_raises directory (pattern, keep)
  ↔ f ∈ directory
    ∧ (f ∉ drop keep (_glob_sorted pattern directory)
       ∨ unlink_raises (name f) = true).
Proof.
  intros Hnd. unfold delete_old. rewrite list_elem_of_filter. cbn [fst snd].
  split.
  - intros [Hkeep Hin]. split; [done|].
    destruct (unlink_raises (name f)) eqn:Hraise; [by right|]. left.
    intros Hdel. apply Hkeep. split; [|done]. by apply list_elem_of_fmap_2.
  - intros [Hin Hkeep]. split; [|done].
    intros [(g & Hname & Hg)%list_elem_of_fmap Hraise].
    destruct Hkeep as [Hkeep|Hkeep]; [|congruence]. apply Hkeep.
    assert (g ∈ directory).
    { eapply elem_of_sublist in Hg; [|apply sublist_drop].
      by apply glob_sorted_elem_of in Hg as [_ ?]. }
    by rewrite <- (same_name directory f g Hnd Hin) by done.
Qed.

(** One pattern of [cleanup_old_files], in a directory without two entries of
    one name: nothing is added or reordered; an entry is gone exactly when it
    is among the matching files after the [keep] newest and its [unlink] does
    not raise; and no file after the [keep] newest is newer than one of
    these. *)
Theorem delete_old_keeps_newest directory pattern keep :
  NoDup (name <$> directory) →
  delete_old unlink_raises directory (pattern, keep) `sublist_of` directory
  ∧ (∀ f, f ∈ delete_old unlink_raises directory (pattern, keep)
          ↔ f ∈ directory
            ∧ (f ∉ drop keep (_glob_sorted pattern directory)
               ∨ unlink_raises (name f) = true))
  ∧ (∀ f g, f ∈ take keep (_glob_sorted pattern directory) →
            g ∈ drop keep (_glob_sorted pattern directory) →
            st_mtime g ≤ st_mtime f).
Proof.
  intros Hnd. split; [apply sublist_filter|].
  split; [intros f; by apply delete_old_elem_of|].
  intros f g Hf Hg.
  apply (StronglySorted_app_1_elem_of (λ f g, st_mtime g ≤ st_mtime f)
           (take keep (_glob_sorted pattern directory))
           (drop keep (_glob_sorted pattern directory))); [|done..].
  rewrite take_drop. apply sort_newest_first_sorted.
Qed.

End one_pattern.

End cleanup_properties.

Section cleanup_run_properties.
Import Cleanup UrlScraper.

Implicit Types (f g : file) (directory : list file) (s p : string).

Lemma fnmatch_literal p s :
  Py.contains "*" p = false → fnmatch p s = String.eqb s p.
Proof.
  revert s. induction p as [|c p IH]; intros s Hlit; [done|].
  cbn [Py.contains] in Hlit. apply orb_false_iff in Hlit as [Hc Hp].
  assert (Hstar : Ascii.eqb c "*" = false).
  { apply Ascii.eqb_neq. intros ->. by destruct p. }
  cbn [fnmatch]. rewrite Hstar. destruct s as [|a s]; [done|].
  simpl. by rewrite IH.
Qed.

Lemma fnmatch_star_suffix p s :
  Py.contains "*" p = false → fnmatch (String "*" p) s = Py.endswith s p.
Proof.
  intros Hlit. induction s as [|a s IH].
  - change (fnmatch (String "*" p) "") with (fnmatch p "" || false).
    cbn [Py.endswith]. by rewrite fnmatch_literal.
  - change (fnmatch (String "*" p) (String a s))
      with (fnmatch p (String a s) || fnmatch (String "*" p) s).
    cbn [Py.endswith]. by rewrite fnmatch_literal, IH.
Qed.

Lemma fnmatch_prefix p rest s :
  Py.contains "*" p = false →
  fnmatch (p +:+ rest) s = true → ∃ s', s = p +:+ s' ∧ fnmatch rest s' = true.
Proof.
  revert s. induction p as [|c p IH]; intros s Hlit Hmatch; [by exists s|].
  cbn [Py.contains] in Hlit. apply orb_false_iff in Hlit as [Hc Hp].
  assert (Hstar : Ascii.eqb c "*" = false).
  { apply Ascii.eqb_neq. intros ->. by destruct p. }
  rewrite app_cons in Hmatch. cbn [fnmatch] in Hmatch. rewrite Hstar in Hmatch.
  destruct s as [|a s]; [done|].
  apply andb_true_iff in Hmatch as [->%Ascii.eqb_eq Hmatch].
  destruct (IH s Hp Hmatch) as (s' & -> & Hs'). by exists s'.
Qed.

(** No name matches both patterns of [KEEP_COUNTS]. *)
Lemma patterns_disjoint s :
  fnmatch "*.log" s = true → fnmatch "waf_list_*.json" s = false.
Proof.
  intros Hlog. apply not_true_is_false. intros Hjson.
  rewrite fnmatch_star_suffix in Hlog by done.
  apply (fnmatch_prefix "waf_list_" "*.json") in Hjson as (s' & -> & Hjson);
    [|done].
  rewrite fnmatch_star_suffix in Hjson by done.
  apply endswith_spec in Hjson as [q ->].
  apply endswith_spec in Hlog as [q' Hq'].
  assert (Py.endswith (q' +:+ ".log") "json" = true) as Habs.
  { rewrite <- Hq'. apply endswith_spec. exists ("waf_list_" +:+ q +:+ ".").
    by rewrite !app_assoc_string. }
  by rewrite endswith_same_length in Habs.
Qed.

Lemma glob_sorted_NoDup pattern directory :
  NoDup directory → NoDup (_glob_sorted pattern directory).
Proof.
  intros Hnd. unfold _glob_sorted. rewrite sort_newest_first_perm.
  by apply NoDup_filter.
Qed.

Lemma elem_of_take_NoDup {A : Type} (l : list A) (k : nat) (x : A) :
  NoDup l → x ∈ take k l ↔ x ∈ l ∧ x ∉ drop k l.
Proof.
  intros Hnd. rewrite <- (take_drop k l) in Hnd.
  apply NoDup_app in Hnd as (_ & Hdisj & _).
  rewrite <- (take_drop k l) at 2. rewrite elem_of_app. naive_solver.
Qed.

Lemma filter_on {A : Type} (P Q : A → Prop)
    `{!∀ x, Decision (P x), !∀ x, Decision (Q x)} (l : list A) :
  (∀ x, x ∈ l → P x ↔ Q x) → filter P l = filter Q l.
Proof.
  induction l as [|x l IH]; intros Hext; [done|].
  rewrite !filter_cons, IH by (intros; apply Hext; by right).
  apply decide_ext, Hext. left.
Qed.

Variable unlink_raises : string → bool.
Hypothesis unlink_succeeds : ∀ s, unlink_raises s = false.

Lemma glob_sorted_after directory :
  NoDup (name <$> directory) →
  _glob_sorted "*.log"
    (delete_old unlink_raises directory ("waf_list_*.json", 7%nat))
  = _glob_sorted "*.log" directory.
Proof.
  intros Hnd. unfold _glob_sorted. f_equal.
  unfold delete_old at 1. rewrite list_filter_filter. apply filter_on.
  intros f Hf. split; [by intros [? _]|]. intros Hlog. split; [done|].
  intros [(g & Hname & Hg)%list_elem_of_fmap _].
  eapply elem_of_sublist in Hg; [|apply sublist_drop].
  apply glob_sorted_elem_of in Hg as [Hjson Hin]. cbn [fst] in Hjson.
  rewrite <- Hname, (patterns_disjoint _ Hlog) in Hjson. done.
Qed.

(** [cleanup_old_files] when no [unlink] raises, in a directory without two
    entries of one name: an entry is gone exactly when it is a
    [waf_list_*.json] file after the 7 newest ones or a [*.log] file after the
    14 newest ones; so of the files of either pattern the newest ones stay, 7
    and 14 at most, and every other entry stays. *)
Theorem cleanup_keeps_newest directory :
  NoDup (name <$> directory) →
  let json := _glob_sorted "waf_list_*.json" directory in
  let logs := _glob_sorted "*.log" directory in
  let remaining := cleanup_old_files unlink_raises directory in
  remaining `sublist_of` directory
  ∧ (∀ f, f ∈ remaining ↔ f ∈ directory ∧ (f ∉ drop 7 json) ∧ (f ∉ drop 14 logs))
  ∧ filter (λ f, fnmatch "waf_list_*.json" (name f) = true) remaining ≡ₚ take 7 json
  ∧ filter (λ f, fnmatch "*.log" (name f) = true) remaining ≡ₚ take 14 logs
  ∧ filter (λ f, fnmatch "waf_list_*.json" (name f) ≠ true
                 ∧ fnmatch "*.log" (name f) ≠ true) remaining
    = filter (λ f, fnmatch "waf_list_*.json" (name f) ≠ true
                   ∧ fnmatch "*.log" (name f) ≠ true) directory.
Proof.
  intros Hnd json logs remaining.
  assert (Hnd' : NoDup directory) by (by apply NoDup_fmap_1 in Hnd).
  assert (Hsub1 : delete_old unlink_raises directory ("waf_list_*.json", 7%nat)
                  `sublist_of` directory) by apply sublist_filter.
  assert (Hnd1 : NoDup (name <$> delete_old unlink_raises directory
                                   ("waf_list_*.json", 7%nat))).
  { eapply sublist_NoDup; [exact Hnd|]. by apply fmap_sublist. }
  assert (Hleft : ∀ f, f ∈ remaining
                       ↔ f ∈ directory ∧ (f ∉ drop 7 json) ∧ (f ∉ drop 14 logs)).
  { intros f. subst remaining. unfold cleanup_old_files, KEEP_COUNTS. cbn [foldl].
    rewrite delete_old_elem_of by done. rewrite glob_sorted_after by done.
    rewrite delete_old_elem_of by done. rewrite !unlink_succeeds.
    subst json logs. naive_solver. }
  assert (Hsub : remaining `sublist_of` directory).
  { subst remaining. unfold cleanup_old_files, KEEP_COUNTS. cbn [foldl].
    etrans; [apply sublist_filter | exact Hsub1]. }
  assert (Hndl : NoDup remaining) by (by eapply sublist_NoDup).
  split; [done|]. split; [done|]. split; [|split].
  - apply NoDup_Permutation.
    + by apply NoDup_filter.
    + apply (sublist_NoDup _ json); [by apply glob_sorted_NoDup | apply sublist_take].
    + intros f. rewrite list_elem_of_filter, Hleft.
      rewrite elem_of_take_NoDup by (by apply glob_sorted_NoDup).
      subst json. rewrite glob_sorted_elem_of. split; [naive_solver|].
      intros [[Hjson Hin] Hkeep]. repeat split; try done.
      intros Hlog. eapply elem_of_sublist in Hlog; [|apply sublist_drop].
      apply glob_sorted_elem_of in Hlog as [Hlog _].
      by rewrite (patterns_disjoint _ Hlog) in Hjson.
  - apply NoDup_Permutation.
    + by apply NoDup_filter.
    + apply (sublist_NoDup _ logs); [by apply glob_sorted_NoDup | apply sublist_take].
    + intros f. rewrite list_elem_of_filter, Hleft.
      rewrite elem_of_take_NoDup by (by apply glob_sorted_NoDup).
      subst logs. rewrite glob_sorted_elem_of. split; [naive_solver|].
      intros [[Hlog Hin] Hkeep]. repeat split; try done.
      intros Hjson. eapply elem_of_sublist in Hjson; [|apply sublist_drop].
      apply glob_sorted_elem_of in Hjson as [Hjson _].
      by rewrite (patterns_disjoint _ Hlog) in Hjson.
  - subst remaining. unfold cleanup_old_files, KEEP_COUNTS. cbn [foldl].
    unfold delete_old. rewrite !list_filter_filter. apply filter_on.
    intros f Hf. cbn [fst snd]. split; [naive_solver|].
    intros [Hjson Hlog]. repeat split; try done.
    + intros [(g & Hname & Hg)%list_elem_of_fmap _].
      eapply elem_of_sublist in Hg; [|apply sublist_drop].
      apply glob_sorted_elem_of in Hg as [Hg _]. by rewrite <- Hname in Hg.
    + intros [(g & Hname & Hg)%list_elem_of_fmap _].
      eapply elem_of_sublist in Hg; [|apply sublist_drop].
      apply glob_sorted_elem_of in Hg as [Hg _]. by rewrite <- Hname in Hg.
Qed.

End cleanup_run_properties.

(** ** The enrichment pass *)

Section osim_properties.
Import OsimMeta.
Variable osim_get : string → osim_outcome.
Variable pa_write : gmap string (list value) → option string.

Implicit Types (uuid : option string) (data : gmap string (list value))
  (col : list value) (results : list (bool * value)).

(** A uuid [check_in_osim] makes a request for. *)
Lemma usable_spec (u : string) :
  negb (Py.truthy (Some u)) || String.eqb (Py.lower u) "none" = false
  ↔ u ≠ "" ∧ Py.lower u ≠ "none".
Proof.
  rewrite orb_false_iff, negb_false_iff, String.eqb_neq.
  destruct u; simpl; naive_solver.
Qed.

(** [check_in_osim] reports a collection as found exactly when its uuid is
    usable (not missing, not empty, not [none] in any case) and the API
    answers the request for it with status 200 and a body that decodes to an
    object whose [meta], if there is one, is an object; the count is its
    [totalGranules] then, and [None] for a collection not found.  It raises
    exactly when, for a usable uuid, the request or the decoding raises an
    exception other than those it catches, or the body is of another shape.
    At most one request is made, for the collection's URL, and none for a
    uuid that is not usable. *)
Theorem check_in_osim_found uuid :
  (∀ g, (check_in_osim osim_get uuid).1 = inl (true, g)
        ↔ ∃ u doc, uuid = Some u ∧ u ≠ "" ∧ Py.lower u ≠ "none"
                    ∧ osim_get (OSIM_URL +:+ u) = OsimResponded 200 (inl doc)
                    ∧ total_granules doc = Some g)
  ∧ (∀ g, (check_in_osim osim_get uuid).1 = inl (false, g) → g = VNone)
  ∧ (∀ e, (check_in_osim osim_get uuid).1 = inr e
          ↔ ∃ u, uuid = Some u ∧ u ≠ "" ∧ Py.lower u ≠ "none"
                 ∧ (osim_get (OSIM_URL +:+ u) = OsimRaised (Uncaught e)
                    ∨ osim_get (OSIM_URL +:+ u)
                      = OsimResponded 200 (inr (Uncaught e))
                    ∨ ∃ doc, osim_get (OSIM_URL +:+ u)
                              = OsimResponded 200 (inl doc)
                              ∧ total_granules doc = None
                              ∧ e = "AttributeError"))
  ∧ ((check_in_osim osim_get uuid).2
     = match uuid with
       | Some u =>
           if decide (u ≠ "" ∧ Py.lower u ≠ "none") then [OSIM_URL +:+ u] else []
       | None => []
       end).
Proof.
  unfold check_in_osim. destruct uuid as [u|]; [|cbn [fst snd]; naive_solver].
  destruct (negb (Py.truthy (Some u)) || String.eqb (Py.lower u) "none") eqn:Huse.
  { assert (Hno : ¬ (u ≠ "" ∧ Py.lower u ≠ "none")).
    { rewrite <- usable_spec. congruence. }
    rewrite decide_False by done. cbn [fst snd]. naive_solver. }
  apply usable_spec in Huse as Husable. rewrite decide_True by done.
  destruct Husable as [Hne Hnone]. clear Huse.
  destruct (osim_get (OSIM_URL +:+ u)) as [[e0|e0]|status body] eqn:Hget.
  3: destruct (status =? 200) eqn:Hst;
       [apply Z.eqb_eq in Hst as ->;
        destruct body as [doc|[e0|e0]];
        [destruct (total_granules doc) eqn:Hcount|..]
       |apply Z.eqb_neq in Hst].
  all: cbn [fst snd].
  all: split_and!; [intros g; split| |intros e; split|done].
  all: try (intros; simplify_eq; done).
  all: try (intros; destruct_and?; simplify_eq; congruence).
  all: try (intros [= <-]; eexists; eauto 10; fail).
  all: try (intros [= <-]; eexists _, _; eauto 10; fail).
  all: try (intros (u0 & doc' & [= <-] & _ & _ & Hg & Hc);
            rewrite Hget in Hg; simplify_eq; congruence).
  all: try (intros (u0 & [= <-] & _ & _ & [Hg|[Hg|(doc' & Hg & Hc & ->)]]);
            rewrite Hget in Hg; simplify_eq; congruence).
Qed.

Lemma gather_Some (checks : list ((bool * value) + string)) results :
  gather checks = Some results ↔ checks = inl <$> results.
Proof.
  revert results. induction checks as [|[r|e] checks IH]; intros results; simpl.
  - split; [by intros [= <-]|]. by destruct results.
  - destruct (gather checks) as [rs|] eqn:Hg; simpl.
    + split.
      * intros [= <-]. rewrite fmap_cons. f_equal. by apply IH.
      * destruct results as [|r' results']; [done|]. rewrite fmap_cons.
        intros [= <- Hc]. apply IH in Hc. by simplify_eq.
    + split; [done|]. destruct results as [|r' results']; [done|].
      rewrite fmap_cons. intros [= <- Hc]. apply IH in Hc. done.
  - split; [done|]. by destruct results.
Qed.

Lemma gather_None (checks : list ((bool * value) + string)) :
  gather checks = None ↔ ∃ e, inr e ∈ checks.
Proof.
  induction checks as [|[r|e] checks IH]; simpl.
  - split; [done|]. by intros [e ?%elem_of_nil].
  - destruct (gather checks) as [rs|]; simpl.
    + split; [done|]. intros [e [?|He]%elem_of_cons]; [done|].
      assert (Some rs = None) by (apply IH; by exists e). done.
    + split; [|done]. intros _. destruct (proj1 IH eq_refl) as [e He].
      exists e. by right.
  - split; [|done]. intros _. exists e. left.
Qed.

(** On a table with a [uuid] column, at least one row and columns of one
    length, when no [check_in_osim] raises and the table can be written,
    [main] succeeds: it writes the table with the columns [in_osim] and
    [granule_count] set and every other column as it was; the two columns
    have one cell per row, holding at row [i] what [check_in_osim] returns
    for the uuid of row [i]. *)
Theorem osim_main_aligned data col results :
  data !! "uuid" = Some col → col ≠ [] →
  map_Forall (λ _ v, length v = length col) data →
  gather (tasks osim_get col) = Some results →
  pa_write (with_results data results) = None →
  ∃ data' flags counts,
    main osim_get pa_write (Some data) = inl data'
    ∧ (∀ k, k ≠ "in_osim" → k ≠ "granule_count" → data' !! k = data !! k)
    ∧ data' !! "in_osim" = Some flags
    ∧ data' !! "granule_count" = Some counts
    ∧ length flags = length col ∧ length counts = length col
    ∧ (∀ (i : nat) u, col !! i = Some u →
         ∃ found g,
           (check_in_osim osim_get (uuid_of u)).1 = inl (found, g)
           ∧ flags !! i = Some (VBool found) ∧ counts !! i = Some g).
Proof.
  intros Hcol Hne Hlen Hgather Hwrite. unfold main. rewrite Hcol, Hgather.
  apply gather_Some in Hgather. unfold tasks in Hgather.
  assert (Hlr : length results = length col).
  { apply (f_equal length) in Hgather. by rewrite !length_fmap in Hgather. }
  destruct results as [|r results'] eqn:Hresults;
    [by destruct col|].
  rewrite <- Hresults in *. clear Hresults.
  rewrite decide_True.
  2:{ apply map_Forall_insert_2; [by rewrite !length_fmap|].
      apply map_Forall_insert_2; [by rewrite !length_fmap | done]. }
  rewrite Hwrite. unfold with_results.
  eexists _, _, _. split; [done|]. split.
  { intros k Hk1 Hk2. by rewrite !lookup_insert_ne. }
  split; [by rewrite lookup_insert_ne, lookup_insert_eq|].
  split; [by rewrite lookup_insert_eq|].
  split; [by rewrite !length_fmap|]. split; [by rewrite !length_fmap|].
  intros i u Hu.
  apply (f_equal (λ l, l !! i)) in Hgather.
  rewrite !list_lookup_fmap, Hu in Hgather. simpl in Hgather.
  destruct (results !! i) as [[found g]|] eqn:Hi; [|done].
  exists found, g. simpl in Hgather. split; [congruence|].
  by rewrite !list_lookup_fmap, Hi.
Qed.

(** On a table whose columns are of one length, as every table read from a
    file is, [main] raises exactly in these cases: there is no file
    ([FileNotFoundError]); the table has no [uuid] column or no row
    ([ValueError]); a [check_in_osim] raises; or writing the table raises.
    The check of the column lengths never fails. *)
Theorem osim_main_raises (parquet : option (gmap string (list value)))
    (e : failure) :
  (∀ data col, parquet = Some data → data !! "uuid" = Some col →
     map_Forall (λ _ v, length v = length col) data) →
  main osim_get pa_write parquet = inr e
  ↔ (parquet = None ∧ e = FileNotFoundError)
    ∨ (∃ data, parquet = Some data ∧ data !! "uuid" = None ∧ e = ValueError)
    ∨ (∃ data col,
         parquet = Some data ∧ data !! "uuid" = Some col
         ∧ ((e = CheckRaised
             ∧ ∃ u msg, u ∈ col
                        ∧ (check_in_osim osim_get (uuid_of u)).1 = inr msg)
            ∨ (e = ValueError ∧ col = []
               ∧ gather (tasks osim_get col) = Some [])
            ∨ (∃ results msg,
                 e = WriteRaised msg ∧ col ≠ []
                 ∧ gather (tasks osim_get col) = Some results
                 ∧ pa_write (with_results data results) = Some msg))).
Proof.
  intros Hrect. unfold main. destruct parquet as [data|]; [|naive_solver].
  destruct (data !! "uuid") as [col|] eqn:Hcol; [|naive_solver].
  specialize (Hrect data col eq_refl Hcol).
  assert (Hrhs :
    ((Some data = None ∧ e = FileNotFoundError)
     ∨ (∃ data0, Some data = Some data0 ∧ data0 !! "uuid" = None ∧ e = ValueError)
     ∨ (∃ data0 col0,
          Some data = Some data0 ∧ data0 !! "uuid" = Some col0
          ∧ ((e = CheckRaised
              ∧ ∃ u msg, u ∈ col0
                         ∧ (check_in_osim osim_get (uuid_of u)).1 = inr msg)
             ∨ (e = ValueError ∧ col0 = []
                ∧ gather (tasks osim_get col0) = Some [])
             ∨ (∃ results msg,
                  e = WriteRaised msg ∧ col0 ≠ []
                  ∧ gather (tasks osim_get col0) = Some results
                  ∧ pa_write (with_results data0 results) = Some msg))))
    ↔ ((e = CheckRaised
        ∧ ∃ u msg, u ∈ col ∧ (check_in_osim osim_get (uuid_of u)).1 = inr msg)
       ∨ (e = ValueError ∧ col = [] ∧ gather (tasks osim_get col) = Some [])
       ∨ (∃ results msg,
            e = WriteRaised msg ∧ col ≠ []
            ∧ gather (tasks osim_get col) = Some results
            ∧ pa_write (with_results data results) = Some msg))).
  { split.
    - intros [[? _]|[(d & [= <-] & Hu & _)|(d & c & [= <-] & Hc & Hcases)]];
        [done | congruence |].
      rewrite Hcol in Hc. by injection Hc as <-.
    - intros Hcases. right; right. by exists data, col. }
  rewrite Hrhs. clear Hrhs.
  assert (Hraises : gather (tasks osim_get col) = None
                    ↔ ∃ u msg, u ∈ col
                               ∧ (check_in_osim osim_get (uuid_of u)).1 = inr msg).
  { rewrite gather_None. unfold tasks. split.
    - intros [msg (u & Hu & Hin)%list_elem_of_fmap]. by exists u, msg.
    - intros (u & msg & Hin & Hu). exists msg. apply list_elem_of_fmap. by exists u. }
  destruct (gather (tasks osim_get col)) as [results|] eqn:Hgather.
  - assert (Hnone : ¬ ∃ u msg, u ∈ col
                      ∧ (check_in_osim osim_get (uuid_of u)).1 = inr msg).
    { rewrite <- Hraises. done. }
    pose proof Hgather as Hchecks. rewrite <- Hgather in Hraises.
    apply gather_Some in Hchecks. unfold tasks in Hchecks.
    assert (Hlr : length results = length col).
    { apply (f_equal length) in Hchecks. by rewrite !length_fmap in Hchecks. }
    destruct results as [|r results'] eqn:Hresults.
    + assert (col = []) as -> by (by destruct col). naive_solver.
    + rewrite <- Hresults in *.
      assert (Hcolne : col ≠ []) by (intros ->; by subst results).
      clear Hresults.
      rewrite decide_True.
      2:{ unfold with_results.
          apply map_Forall_insert_2; [by rewrite !length_fmap|].
          apply map_Forall_insert_2; [by rewrite !length_fmap | done]. }
      destruct (pa_write (with_results data results)) as [msg|] eqn:Hwrite.
      * split.
        -- intros [= <-]. right; right. by exists results, msg.
        -- intros [[_ ?]|[(_ & ? & _)|(rs & m & -> & _ & [= <-] & Hw)]];
             [done | done | congruence].
      * split; [done|].
        intros [[_ ?]|[(_ & ? & _)|(rs & m & -> & _ & [= <-] & Hw)]];
          [done | done | congruence].
  - split.
    + intros [= <-]. left. split; [done|]. by apply Hraises.
    + intros [[-> _]|[(_ & _ & ?)|(rs & m & _ & _ & ? & _)]]; done.
Qed.

End osim_properties.

(** ** The further properties on concrete inputs *)

Section further_examples.
Import Store UrlScraper Crawler MetadataScraper Scenario Examples.

Lemma registry_never_shrinks_witness :
  enumerates iter_ascending
  ∧ dom (update_database_from_waf iter_ascending ["A"; "C"] registry).1
    = dom registry ∪ list_to_set ["A"; "C"].
Proof.
  split; [exact enumerates_ascending|].
  exact (registry_never_shrinks iter_ascending enumerates_ascending
           ["A"; "C"] registry).
Defined.

Lemma reconcile_keeps_history_witness :
  enumerates iter_ascending
  ∧ ∃ r', (update_database_from_waf iter_ascending ["A"; "C"] registry).1 !! "B"
          = Some r'
          ∧ etag r' = Some "x1" ∧ last_checked r' = None.
Proof.
  split; [exact enumerates_ascending|].
  exact (reconcile_keeps_history iter_ascending enumerates_ascending
           ["A"; "C"] registry "B").
Defined.

Lemma registry_flags :
  ∀ u r, registry !! u = Some r → deleted r = 0 ∨ deleted r = 1.
Proof.
  intros u r. unfold registry.
  destruct (decide (u = "A")) as [->|?];
    [rewrite lookup_insert_eq; intros [= <-]; by left|].
  rewrite lookup_insert_ne by done.
  destruct (decide (u = "B")) as [->|?];
    [rewrite lookup_singleton_eq; intros [= <-]; by left|].
  by rewrite lookup_singleton_ne.
Defined.

Lemma crawl_is_ground_truth_witness :
  enumerates iter_ascending
  ∧ (∀ u r, registry !! u = Some r → deleted r = 0 ∨ deleted r = 1)
  ∧ dom (load_active_etags
           (update_database_from_waf iter_ascending ["A"; "C"] registry).1)
    = list_to_set ["A"; "C"].
Proof.
  split; [exact enumerates_ascending|]. split; [exact registry_flags|].
  exact (proj2 (crawl_is_ground_truth iter_ascending enumerates_ascending
                  ["A"; "C"] registry registry_flags)).
Defined.

Lemma empty_crawl_deactivates_all_witness :
  enumerates iter_ascending
  ∧ load_active_etags (update_database_from_waf iter_ascending [] registry).1 = ∅.
Proof.
  split; [exact enumerates_ascending|].
  exact (proj2 (proj2 (proj2 (proj2
    (empty_crawl_deactivates_all iter_ascending enumerates_ascending registry))))).
Defined.

Lemma fetch_html_refused_witness :
  refusing BASE_URL 1 = PageResponded 503 (inl "")
  ∧ (fetch_html refusing BASE_URL).1 = inl "".
Proof.
  split; [reflexivity|].
  refine (proj1 (fetch_html_refused refusing BASE_URL 1 503 (inl "") _ _ eq_refl _)).
  - unfold Crawler.RETRIES. lia.
  - intros j Hj. lia.
  - lia.
Defined.

Lemma scenario_urljoin_listing (base : string) :
  Py.endswith (Py.lower (Scenario.urljoin base "xml/")) ".xml" = false.
Proof.
  unfold Scenario.urljoin.
  destruct (urljoin_http base "xml/") as [joined|] eqn:Hjoined; [|done].
  apply urljoin_listing in Hjoined as [s ->]. apply endswith_slash_not_document.
Qed.

(** The crawl of the small WAF records three documents: the one linked
    twice once, the one below [iso/] through the rewritten listing. *)
Example waf_crawl :
  crawl_steps waf waf_anchors Scenario.urljoin 10 start 0
  = (Crawl {[ "https://data.noaa.gov/waf/";
              "https://data.noaa.gov/waf/a.xml";
              "https://data.noaa.gov/waf/B.XML";
              "https://data.noaa.gov/waf/NOAA/iso/";
              "https://data.noaa.gov/waf/NOAA/iso/xml/c.xml" ]}
       [ "https://data.noaa.gov/waf/a.xml";
         "https://data.noaa.gov/waf/B.XML";
         "https://data.noaa.gov/waf/NOAA/iso/xml/c.xml" ]
       [], 0%nat).
Proof. by vm_compute. Qed.

Lemma crawl_records_once_witness :
  (∀ base, Py.endswith (Py.lower (Scenario.urljoin base "xml/")) ".xml" = false)
  ∧ waf_list (crawl_steps waf waf_anchors Scenario.urljoin 10 start 0).1
    = [ "https://data.noaa.gov/waf/a.xml";
        "https://data.noaa.gov/waf/B.XML";
        "https://data.noaa.gov/waf/NOAA/iso/xml/c.xml" ]
  ∧ NoDup (waf_list (crawl_steps waf waf_anchors Scenario.urljoin 10 start 0).1)
  ∧ (∀ u, u ∈ waf_list (crawl_steps waf waf_anchors Scenario.urljoin 10 start 0).1 →
       u ∈ seen_urls (crawl_steps waf waf_anchors Scenario.urljoin 10 start 0).1
       ∧ skipped u = false ∧ rewrite_applies u = false).
Proof.
  split; [exact scenario_urljoin_listing|].
  split; [by vm_compute|].
  exact (crawl_records_once Scenario.urljoin waf waf_anchors 10
           scenario_urljoin_listing).
Defined.

Lemma crawl_of_unreachable_base_witness :
  enumerates iter_ascending
  ∧ (fetch_html refusing BASE_URL).1 = inl ""
  ∧ load_active_etags (update_database_from_waf iter_ascending [] registry).1 = ∅.
Proof.
  split; [exact enumerates_ascending|]. split; [reflexivity|].
  exact (proj2 (crawl_of_unreachable_base Scenario.urljoin refusing no_anchors
                  iter_ascending 5 registry enumerates_ascending eq_refl)).
Defined.

(** The crawl of the small WAF as [crawl_waf] sees it: three documents are
    added to the registry of the scenario, and its two rows are marked
    deleted. *)
Example waf_crawl_registry :
  crawl_waf waf waf_anchors Scenario.urljoin iter_ascending 10 registry
  = Some ({[ "A" := Row None None 1; "B" := Row (Some "x1") None 1;
             "https://data.noaa.gov/waf/a.xml" := Row None None 0;
             "https://data.noaa.gov/waf/B.XML" := Row None None 0;
             "https://data.noaa.gov/waf/NOAA/iso/xml/c.xml" := Row None None 0 ]},
          ([ "https://data.noaa.gov/waf/B.XML";
             "https://data.noaa.gov/waf/NOAA/iso/xml/c.xml";
             "https://data.noaa.gov/waf/a.xml" ], [], [ "A"; "B" ]),
          [ "https://data.noaa.gov/waf/B.XML";
            "https://data.noaa.gov/waf/NOAA/iso/xml/c.xml";
            "https://data.noaa.gov/waf/a.xml" ]).
Proof. by vm_compute. Qed.

Lemma crawl_hangs_on_exception_witness :
  (fetch_html (λ _ _, PageResponded 200 (inr (OtherError "UnicodeDecodeError")))
     BASE_URL).1 = inr "UnicodeDecodeError"
  ∧ crawl_waf (λ _ _, PageResponded 200 (inr (OtherError "UnicodeDecodeError")))
      no_anchors Scenario.urljoin iter_ascending 7 registry = None.
Proof.
  split; [reflexivity|].
  exact (crawl_hangs_on_exception Scenario.urljoin
           (λ _ _, PageResponded 200 (inr (OtherError "UnicodeDecodeError")))
           no_anchors iter_ascending 7 registry "UnicodeDecodeError" eq_refl).
Defined.

Lemma unchanged_outcome_witness :
  etags tracked !! "B" = Some (Row (Some "x1") None 0)
  ∧ status (Response 304 None (inl [])) = 304
  ∧ requests_to "B" (fetch "B" (Some "x1")).2 = 1%nat.
Proof.
  split; [reflexivity|]. split; [reflexivity|].
  exact (proj1 (proj2
    (unchanged_outcome (H := environment) in_order_reorders tracked "B"
       (Row (Some "x1") None 0) 1 (Response 304 None (inl []))
       eq_refl eq_refl (answered_first "B" (Some "x1") _ eq_refl) eq_refl))).
Defined.

Lemma indicator_round_trip_witness :
  etags tracked !! "A" = Some (Row None None 0)
  ∧ Py.startswith "e1" quote = false ∧ Py.endswith "e1" quote = false
  ∧ load_active_etags (etags (run tracked).1) !! "A" = Some (Some "e1").
Proof.
  split; [reflexivity|]. split; [reflexivity|]. split; [reflexivity|].
  refine (proj1 (proj2
    (indicator_round_trip (H := environment) in_order_reorders tracked "A"
       (Row None None 0) 1
       (Response 200 (Some (String "034" "e1" +:+ String "034" "")) (inl body))
       body "e1"
       eq_refl eq_refl (answered_first "A" None _ eq_refl)
       _ _ eq_refl eq_refl _ eq_refl eq_refl))).
  - simpl. lia.
  - simpl. lia.
  - discriminate.
Defined.

Lemma broken_reorders : reorders (H := broken_environment).
Proof. intros items. reflexivity. Defined.

Lemma unreadable_outcome_witness :
  etags single !! "U" = Some (Row (Some "x5") (Some "old") 0)
  ∧ broken "U" (request_headers (Some "x5")) 2
    = Responded (Response 200 (Some "e7")
                   (inr "Response payload is not completed"))
  ∧ (fetch_conditional (H := broken_environment) "U" (Some "x5")).1
    = Result "U" (Some "x5") None None None (Some "Failed after retries")
  ∧ requests_to "U" (fetch_conditional (H := broken_environment) "U" (Some "x5")).2
    = MetadataScraper.RETRIES
  ∧ etags (main (H := broken_environment) single).1 !! "U"
    = Some (Row (Some "x5") (Some "old") 0).
Proof.
  split; [reflexivity|]. split; [reflexivity|].
  refine (unreadable_outcome (H := broken_environment) broken_reorders single "U"
            (Row (Some "x5") (Some "old") 0) eq_refl eq_refl _).
  intros j Hj. destruct (decide (j = 1%nat)) as [->|Hne].
  - left. eexists. reflexivity.
  - right. eexists _, _. split.
    + unfold session_get, broken_environment, broken.
      rewrite (proj2 (Nat.eqb_neq j 1)) by done. reflexivity.
    + split; [done|]. split; [simpl; lia | reflexivity].
Defined.

Lemma main_preserves_registry_witness :
  reorders (H := environment)
  ∧ deleted <$> etags (run tracked).1 !! "D" = deleted <$> etags tracked !! "D".
Proof.
  split; [exact in_order_reorders|].
  exact (proj1 (main_preserves_registry (H := environment) in_order_reorders
                  tracked "D")).
Defined.

Lemma summary_counts_witness :
  reorders (H := environment)
  ∧ total_checked (run tracked).2 = size (load_active_etags (etags tracked)).
Proof.
  split; [exact in_order_reorders|].
  exact (proj1 (summary_counts (H := environment) in_order_reorders tracked)).
Defined.

Lemma table_keeps_one_row_per_source_witness :
  reorders (H := environment)
  ∧ match parquet tracked with
    | Some table => NoDup (key <$> table)
    | None => True
    end
  ∧ match parquet (run tracked).1 with
    | Some table => NoDup (key <$> table)
    | None => True
    end.
Proof.
  split; [exact in_order_reorders|]. split; [exact I|].
  exact (table_keeps_one_row_per_source (H := environment) in_order_reorders
           tracked I).
Defined.

Lemma settled_unchanged (url : string) (etag : option string) :
  load_active_etags (etags settled) !! url = Some etag →
  r_changed (fetch url etag).1 ≠ Some true.
Proof.
  intros (row & Hrow & _ & ->)%active_lookup. revert Hrow.
  unfold settled. cbn [etags].
  destruct (decide (url = "B")) as [->|?];
    [rewrite lookup_insert_eq; intros [= <-]; by vm_compute|].
  rewrite lookup_insert_ne by done.
  destruct (decide (url = "E")) as [->|?];
    [rewrite lookup_singleton_eq; intros [= <-]; by vm_compute|].
  by rewrite lookup_singleton_ne.
Defined.

Lemma unchanged_run_keeps_table_witness :
  reorders (H := environment) ∧ parquet (run settled).1 = parquet settled.
Proof.
  split; [exact in_order_reorders|].
  exact (unchanged_run_keeps_table (H := environment) in_order_reorders settled
           settled_unchanged).
Defined.

Lemma slices_cover_witness :
  (1 ≤ 2)%nat ∧ mjoin (Batches.slices 2 [1; 2; 3]) = [1; 2; 3].
Proof.
  split; [lia|].
  refine (proj1 (slices_cover 2 [1; 2; 3] _)). lia.
Defined.

Lemma run_batches_outcomes_witness :
  reorders (H := environment)
  ∧ Batches.run_batches (H := environment)
      (map_to_list (load_active_etags (etags tracked)))
    ≡ₚ run_batched (H := environment) (load_active_etags (etags tracked)).
Proof.
  split; [exact in_order_reorders|].
  exact (proj2 (run_batches_outcomes (H := environment) in_order_reorders
                  (load_active_etags (etags tracked)))).
Defined.

Lemma scrape_all_in_order_witness :
  (1 ≤ 2)%nat
  ∧ r_url <$> Script.scrape_all (H := environment) 2 ["A"; "B"; "E"]
                (load_active_etags (etags tracked))
    = ["A"; "B"; "E"].
Proof.
  split; [lia|].
  refine (eq_trans
    (f_equal (fmap r_url)
       (scrape_all_in_order (H := environment) 2 ["A"; "B"; "E"]
          (load_active_etags (etags tracked)) _)) _).
  - lia.
  - by vm_compute.
Defined.

Lemma pipeline_exception_fails_witness :
  "url_scraper" ∈ PipelineRunner.STEPS
  ∧ (PipelineRunner.main unit crawl_raises tt).1.1 = 1.
Proof.
  assert (Hin : "url_scraper" ∈ PipelineRunner.STEPS) by left.
  split; [exact Hin|].
  refine (proj1 (pipeline_exception_fails unit crawl_raises "url_scraper" tt Hin _)).
  intros m. eexists _, _. reflexivity.
Defined.

Lemma data_dir_names : NoDup (Cleanup.name <$> data_dir).
Proof.
  unfold data_dir. simpl.
  repeat (apply NoDup_cons; split; [set_solver|]). apply NoDup_nil_2.
Qed.

Lemma delete_old_keeps_newest_witness :
  NoDup (Cleanup.name <$> data_dir)
  ∧ Cleanup.delete_old unlink_succeeds data_dir ("waf_list_*.json", 2%nat)
    `sublist_of` data_dir.
Proof.
  split; [exact data_dir_names|].
  exact (proj1 (delete_old_keeps_newest unlink_succeeds data_dir
                  "waf_list_*.json" 2 data_dir_names)).
Defined.

Lemma cleanup_keeps_newest_witness :
  NoDup (Cleanup.name <$> data_dir)
  ∧ (∀ s, unlink_succeeds s = false)
  ∧ Cleanup.cleanup_old_files unlink_succeeds data_dir `sublist_of` data_dir.
Proof.
  split; [exact data_dir_names|]. split; [reflexivity|].
  exact (proj1 (cleanup_keeps_newest unlink_succeeds (λ s, eq_refl) data_dir
                  data_dir_names)).
Defined.

(** With room for two snapshots only, the oldest one goes and the note
    stays. *)
Example delete_old_example :
  Cleanup.delete_old unlink_succeeds data_dir ("waf_list_*.json", 2%nat)
  = [ Cleanup.File "notes.txt" 5;
      Cleanup.File "waf_list_2025-01-03.json" 30;
      Cleanup.File "waf_list_2025-01-02.json" 20 ].
Proof. by vm_compute. Qed.

Lemma two_rows_aligned :
  map_Forall (λ _ (v : list OsimMeta.value), length v = 2%nat) two_rows.
Proof.
  unfold two_rows. apply map_Forall_insert_2; [done|].
  by apply map_Forall_singleton.
Qed.

Lemma osim_main_aligned_witness :
  two_rows !! "uuid" = Some [OsimMeta.VStr "abc"; OsimMeta.VNone]
  ∧ OsimMeta.gather (OsimMeta.tasks knows_all [OsimMeta.VStr "abc"; OsimMeta.VNone])
    = Some [(true, OsimMeta.VInt 5); (false, OsimMeta.VNone)]
  ∧ ∃ data' flags counts,
      OsimMeta.main knows_all writes (Some two_rows) = inl data'
      ∧ (∀ k, k ≠ "in_osim" → k ≠ "granule_count" → data' !! k = two_rows !! k)
      ∧ data' !! "in_osim" = Some flags
      ∧ data' !! "granule_count" = Some counts
      ∧ length flags = 2%nat ∧ length counts = 2%nat
      ∧ (∀ (i : nat) u, [OsimMeta.VStr "abc"; OsimMeta.VNone] !! i = Some u →
           ∃ found g,
             (OsimMeta.check_in_osim knows_all (OsimMeta.uuid_of u)).1
             = inl (found, g)
             ∧ flags !! i = Some (OsimMeta.VBool found) ∧ counts !! i = Some g).
Proof.
  split; [reflexivity|]. split; [reflexivity|].
  refine (osim_main_aligned knows_all writes two_rows
            [OsimMeta.VStr "abc"; OsimMeta.VNone]
            [(true, OsimMeta.VInt 5); (false, OsimMeta.VNone)]
            eq_refl _ two_rows_aligned eq_refl eq_refl).
  discriminate.
Defined.

(** The table of that run: the first row is found with five granules, the
    second, without uuid, is not looked up. *)
Example osim_main_example :
  OsimMeta.main knows_all writes (Some two_rows)
  = inl (<["granule_count" := [OsimMeta.VInt 5; OsimMeta.VNone]]>
           (<["in_osim" := [OsimMeta.VBool true; OsimMeta.VBool false]]> two_rows)).
Proof. by vm_compute. Qed.

Lemma two_rows_rectangular (data : gmap string (list OsimMeta.value))
    (col : list OsimMeta.value) :
  Some two_rows = Some data → data !! "uuid" = Some col →
  map_Forall (λ _ (v : list OsimMeta.value), length v = length col) data.
Proof.
  intros [= <-] Hcol.
  assert (col = [OsimMeta.VStr "abc"; OsimMeta.VNone]) as ->
    by (unfold two_rows in Hcol; by simplify_map_eq).
  exact two_rows_aligned.
Qed.

Lemma osim_main_raises_witness :
  (∀ data col, Some two_rows = Some data → data !! "uuid" = Some col →
     map_Forall (λ _ (v : list OsimMeta.value), length v = length col) data)
  ∧ OsimMeta.main knows_all refuses (Some two_rows)
    = inr (OsimMeta.WriteRaised "ArrowInvalid").
Proof.
  split; [exact two_rows_rectangular|].
  apply (osim_main_raises knows_all refuses (Some two_rows)
           (OsimMeta.WriteRaised "ArrowInvalid") two_rows_rectangular).
  right; right. exists two_rows, [OsimMeta.VStr "abc"; OsimMeta.VNone].
  split; [reflexivity|]. split; [reflexivity|]. right; right.
  exists [(true, OsimMeta.VInt 5); (false, OsimMeta.VNone)], "ArrowInvalid".
  split; [reflexivity|]. split; [discriminate|]. split; reflexivity.
Defined.

(** A body that decodes to an object whose [meta] is [null] ends the check,
    and [main] with it. *)
Example osim_main_ill_shaped :
  OsimMeta.main
    (λ _, OsimMeta.OsimResponded 200
            (inl (OsimMeta.JsonObject (Some OsimMeta.MetaOther))))
    writes (Some two_rows)
  = inr OsimMeta.CheckRaised.
Proof. by vm_compute. Qed.

End further_examples.
